(** * Grant deadline tracker: the acquisition, extraction, relevance,
      merge and ranking pipeline of [grant-tracker.py]

    The development embeds the pure core of [GrantTracker] and states the
    properties of its specification over that embedding.

    Conventions of the embedding.
    - A naive [datetime] is the number of microseconds since
      [datetime.min] (0001-01-01T00:00:00), a [Z]; comparison of datetimes
      is comparison of these numbers, and [timedelta.days] is the floor
      division by the length of a day.
    - Text is [string] over 8-bit characters; [str.lower], [str.strip] and
      the character classes of [re] are modelled on ASCII.
    - [datetime.now()] reads a wall clock.  The code reads it many times
      during a run, so every function that calls it lives in a small
      reader/state monad: the clock is a function from the number of the
      reading to the datetime it returns, the state is the number of
      readings made so far.  An exception that the code does not catch
      ends the computation with [None].
    - The network, BeautifulSoup and the regular-expression engine are
      inputs: fetched pages arrive as records, and [re.findall] is a
      function handed to the extractors. *)

From Stdlib Require Import ZArith List String Ascii Bool Lia DecimalString DecimalPos.
From Stdlib Require Import Sorted Permutation.
Import ListNotations.

Local Open Scope Z_scope.

(* ================================================================= *)
(** ** Python strings *)

Module PyStr.

Definition code (c : ascii) : nat := nat_of_ascii c.

(** [str.isspace] on one ASCII character, also the class [\s] of [re]. *)
Definition is_space (c : ascii) : bool :=
  let n := code c in
  ((9 <=? n)%nat && (n <=? 13)%nat) || ((28 <=? n)%nat && (n <=? 32)%nat).

Definition is_digit (c : ascii) : bool :=
  let n := code c in (48 <=? n)%nat && (n <=? 57)%nat.

Definition digit_val (c : ascii) : Z := Z.of_nat (code c) - 48.

Definition lower_char (c : ascii) : ascii :=
  let n := code c in
  if (65 <=? n)%nat && (n <=? 90)%nat then ascii_of_nat (n + 32) else c.

(** [s.lower()] *)
Fixpoint lower (s : string) : string :=
  match s with
  | EmptyString => EmptyString
  | String c r => String (lower_char c) (lower r)
  end.

Fixpoint lstrip (s : string) : string :=
  match s with
  | EmptyString => EmptyString
  | String c r => if is_space c then lstrip r else s
  end.

Fixpoint rstrip (s : string) : string :=
  match s with
  | EmptyString => EmptyString
  | String c r =>
      match rstrip r with
      | EmptyString => if is_space c then EmptyString else String c EmptyString
      | r' => String c r'
      end
  end.

(** [s.strip()] *)
Definition strip (s : string) : string := rstrip (lstrip s).

(** [needle in hay] *)
Fixpoint contains (needle hay : string) : bool :=
  String.prefix needle hay ||
  match hay with
  | EmptyString => false
  | String _ r => contains needle r
  end.

(** [s.replace(c, '')] for a one-character [c] *)
Fixpoint remove_char (c : ascii) (s : string) : string :=
  match s with
  | EmptyString => EmptyString
  | String d r => if Ascii.eqb d c then remove_char c r else String d (remove_char c r)
  end.

(** The digits of a base-10 literal: single underscores are allowed
    between digits. *)
Fixpoint digits_acc (acc : Z) (after_digit : bool) (s : string) : option Z :=
  match s with
  | EmptyString => if after_digit then Some acc else None
  | String c r =>
      if is_digit c then digits_acc (10 * acc + digit_val c) true r
      else if Ascii.eqb c "_"%char && after_digit then digits_acc acc false r
      else None
  end.

(** [int(s)]: surrounding white space, an optional sign, decimal digits.
    [None] stands for [ValueError].  The interpreter's limit on the
    number of digits is not modelled. *)
Definition int (s : string) : option Z :=
  match strip s with
  | String "-"%char r => option_map Z.opp (digits_acc 0 false r)
  | String "+"%char r => digits_acc 0 false r
  | r => digits_acc 0 false r
  end.

(** [str(n)] for an integer *)
Definition of_Z (n : Z) : string := NilZero.string_of_int (Z.to_int n).

End PyStr.

(* ================================================================= *)
(** ** Naive datetimes *)

Module DateTime.

Definition datetime : Type := Z.

Definition us_per_day : Z := 86400000000.

Definition is_leap (year : Z) : bool :=
  (year mod 4 =? 0) && (negb (year mod 100 =? 0) || (year mod 400 =? 0)).

Definition days_before_year (year : Z) : Z :=
  let y := year - 1 in y * 365 + y / 4 - y / 100 + y / 400.

Definition days_in_month (year month : Z) : Z :=
  match month with
  | 2 => if is_leap year then 29 else 28
  | 4 | 6 | 9 | 11 => 30
  | _ => 31
  end.

Definition days_before_month (year month : Z) : Z :=
  nth (Z.to_nat month) [0; 0; 31; 59; 90; 120; 151; 181; 212; 243; 273; 304; 334] 0
  + (if (2 <? month) && is_leap year then 1 else 0).

Definition ymd2ord (year month day : Z) : Z :=
  days_before_year year + days_before_month year month + day.

(** [datetime(year, month, day)]; [None] is [ValueError]. *)
Definition make (year month day : Z) : option datetime :=
  if (1 <=? year) && (year <=? 9999) && (1 <=? month) && (month <=? 12)
     && (1 <=? day) && (day <=? days_in_month year month)
  then Some ((ymd2ord year month day - 1) * us_per_day)
  else None.

(** [datetime.min] and [datetime.max] *)
Definition min : datetime := 0.
Definition max : datetime := 3652059 * us_per_day - 1.

(** [d.year], the year part of the proleptic Gregorian ordinal. *)
Definition year (d : datetime) : Z :=
  let n := d / us_per_day in
  let n400 := n / 146097 in
  let n := n mod 146097 in
  let n100 := n / 36524 in
  let n := n mod 36524 in
  let n4 := n / 1461 in
  let n := n mod 1461 in
  let n1 := n / 365 in
  let y := n400 * 400 + 1 + n100 * 100 + n4 * 4 + n1 in
  if (n1 =? 4) || (n100 =? 4) then y - 1 else y.

(** [(a - b).days] *)
Definition days_between (a b : datetime) : Z := (a - b) / us_per_day.

(** [d - timedelta(days=n)]; [None] is [OverflowError]. *)
Definition minus_days (d : datetime) (n : Z) : option datetime :=
  let r := d - n * us_per_day in
  if (min <=? r) && (r <=? max) then Some r else None.

End DateTime.

Import DateTime.

(* ================================================================= *)
(** ** [datetime.strptime] for the two formats the tracker uses *)

Module Strptime.

Import PyStr.

(** Full month names in the order the format compiler tries them
    (longest first). *)
Definition month_names : list (string * Z) :=
  [("september", 9); ("february", 2); ("november", 11); ("december", 12);
   ("january", 1); ("october", 10); ("august", 8); ("march", 3);
   ("april", 4); ("june", 6); ("july", 7); ("may", 5)]%string.

(** Matches the lower-case literal [pat] at the start of [s] without
    regard to case and returns what follows. *)
Fixpoint match_ci (pat s : string) : option string :=
  match pat with
  | EmptyString => Some s
  | String p pr =>
      match s with
      | EmptyString => None
      | String c r => if Ascii.eqb (lower_char c) p then match_ci pr r else None
      end
  end.

(** [%B] *)
Fixpoint parse_month (names : list (string * Z)) (s : string) : option (Z * string) :=
  match names with
  | [] => None
  | (name, m) :: rest =>
      match match_ci name s with
      | Some r => Some (m, r)
      | None => parse_month rest s
      end
  end.

(** [\s+] *)
Definition skip_spaces1 (s : string) : option string :=
  match s with
  | String c r => if is_space c then Some (lstrip r) else None
  | EmptyString => None
  end.

(** [%d]: [3[0-1]|[1-2]\d|0[1-9]|[1-9]| [1-9]], after the separator has
    taken the white space.  A day of one digit cannot be followed by a
    digit, since the format continues with a comma or white space. *)
Definition parse_day (s : string) : option (Z * string) :=
  match s with
  | String c1 (String c2 r) =>
      if is_digit c1 && is_digit c2 then
        let d := 10 * digit_val c1 + digit_val c2 in
        if (1 <=? d) && (d <=? 31) then Some (d, r) else None
      else if is_digit c1 && negb (Ascii.eqb c1 "0"%char) then Some (digit_val c1, String c2 r)
      else None
  | String c1 EmptyString =>
      if is_digit c1 && negb (Ascii.eqb c1 "0"%char) then Some (digit_val c1, EmptyString)
      else None
  | EmptyString => None
  end.

(** [%Y]: exactly four digits, and nothing may remain after them. *)
Definition parse_year_end (s : string) : option Z :=
  match s with
  | String a (String b (String c (String d EmptyString))) =>
      if is_digit a && is_digit b && is_digit c && is_digit d
      then Some (1000 * digit_val a + 100 * digit_val b + 10 * digit_val c + digit_val d)
      else None
  | _ => None
  end.

Definition bind_opt {A B} (x : option A) (f : A -> option B) : option B :=
  match x with Some a => f a | None => None end.

(** [datetime.strptime(s, '%B %d, %Y')] when [comma] is set and
    [datetime.strptime(s, '%B %d %Y')] otherwise; [None] is
    [ValueError]. *)
Definition strptime (comma : bool) (s : string) : option datetime :=
  bind_opt (parse_month month_names s) (fun '(m, s1) =>
  bind_opt (skip_spaces1 s1) (fun s2 =>
  bind_opt (parse_day s2) (fun '(d, s3) =>
  bind_opt (if comma
            then match s3 with
                 | String ","%char r => Some r
                 | _ => None
                 end
            else Some s3) (fun s4 =>
  bind_opt (skip_spaces1 s4) (fun s5 =>
  bind_opt (parse_year_end s5) (fun y =>
  DateTime.make y m d)))))).

End Strptime.

(* ================================================================= *)
(** ** The clock monad *)

Module Clock.

(** A computation receives the clock and the number of readings made so
    far; it fails with [None] or returns a value and the new count. *)
Definition M (A : Type) : Type := (nat -> datetime) -> nat -> option (A * nat).

Definition ret {A} (a : A) : M A := fun _ n => Some (a, n).

Definition bind {A B} (m : M A) (f : A -> M B) : M B :=
  fun clk n =>
    match m clk n with
    | Some (a, n') => f a clk n'
    | None => None
    end.

(** [datetime.now()] *)
Definition now : M datetime := fun clk n => Some (clk n, S n).

(** An exception nobody catches. *)
Definition raise {A} : M A := fun _ _ => None.

Definition of_option {A} (x : option A) : M A :=
  match x with
  | Some a => ret a
  | None => raise
  end.

Declare Scope clock_scope.
Delimit Scope clock_scope with clock.
Notation "x <- m ;; k" := (bind m (fun x => k))
  (at level 61, m at next level, right associativity) : clock_scope.

Local Open Scope clock_scope.

(** A loop that appends what each iteration produces. *)
Fixpoint concatM {A B} (f : A -> M (list B)) (l : list A) : M (list B) :=
  match l with
  | [] => ret []
  | a :: r => bs <- f a ;; cs <- concatM f r ;; ret (bs ++ cs)
  end.

Fixpoint mapM {A B} (f : A -> M B) (l : list A) : M (list B) :=
  match l with
  | [] => ret []
  | a :: r => b <- f a ;; bs <- mapM f r ;; ret (b :: bs)
  end.

End Clock.

(* ================================================================= *)
(** ** The tracker *)

Module Tracker.

Import PyStr Strptime Clock.
Local Open Scope clock_scope.
Local Open Scope string_scope.

(** An opportunity record, a Python dict.  The keys that the code reads
    with [get] may be missing; [title] and [agency] are read with
    [grant['...']] and have to be there. *)
Record grant : Type := mk_grant {
  title : string;
  agency : string;
  url : string;
  deadlines : option (list datetime);
  amounts : list Z;
  description : option string;
  last_updated : option datetime;
  source_type : string;
  eligibility : option (list string);
  urgency : option Z
}.

Definition set_urgency (g : grant) (u : Z) : grant :=
  mk_grant (title g) (agency g) (url g) (deadlines g) (amounts g)
           (description g) (last_updated g) (source_type g) (eligibility g) (Some u).

(** The process environment and [os.getenv(name, default)]. *)
Definition environ : Type := string -> option string.

Definition getenv (env : environ) (name default : string) : string :=
  match env name with
  | Some v => v
  | None => default
  end.

(** The fields [__init__] sets and the pipeline reads. *)
Record tracker : Type := mk_tracker {
  research_areas : list string;
  career_stage : string
}.

(** [s.split(',')] *)
Fixpoint split_comma (s : string) : list string :=
  match s with
  | EmptyString => [EmptyString]
  | String c r =>
      if Ascii.eqb c ","%char then EmptyString :: split_comma r
      else match split_comma r with
           | w :: ws => String c w :: ws
           | [] => [String c EmptyString]
           end
  end.

Definition parse_research_areas (env : environ) : list string :=
  let areas_raw := getenv env "RESEARCH_AREAS" "neuroscience,cognitive science,brain imaging" in
  map (fun area => lower (strip area)) (split_comma areas_raw).

Definition init (env : environ) : tracker :=
  mk_tracker (parse_research_areas env) (lower (getenv env "CAREER_STAGE" "postdoc")).

(* --------------------------------------------------------------- *)
(** *** Relevance filter *)

Definition neuro_keywords : list string :=
  ["brain"; "neural"; "neuroscience"; "cognitive"; "behavior";
   "fmri"; "eeg"; "imaging"; "psychology"; "psychiatry"; "mental health"].

Definition text_to_check (g : grant) : string :=
  lower (title g ++ " " ++ match description g with Some d => d | None => "" end).

Definition area_match (self : tracker) (g : grant) : bool :=
  existsb (fun area => contains area (text_to_check g)) (research_areas self).

Definition career_match (self : tracker) (g : grant) : bool :=
  match eligibility g with
  | None | Some [] => true
  | Some tags =>
      existsb (fun stage => contains stage (career_stage self)
                            || contains (career_stage self) stage) tags
  end.

Definition neuro_match (g : grant) : bool :=
  existsb (fun keyword => contains keyword (text_to_check g)) neuro_keywords.

Definition is_relevant_grant (self : tracker) (g : grant) : bool :=
  (area_match self g || neuro_match g) && career_match self g.

(* --------------------------------------------------------------- *)
(** *** Field extraction *)

(** [re.findall(pattern, text, flags)] with one capture group: pattern,
    text, whether [re.IGNORECASE] is given. *)
Definition findall_fn : Type := string -> string -> bool -> list string.

(** [if deadline_date > datetime.now(): deadlines.append(deadline_date)] *)
Definition keep_future (deadline_date : datetime) : M (list datetime) :=
  t <- now ;; ret (if (t <? deadline_date)%Z then [deadline_date] else []).

(** The body of the NIH loop over matches: the second format is tried
    in the handler of the first. *)
Definition nih_deadline_token (m : string) : M (list datetime) :=
  match strptime true (strip m) with
  | Some deadline_date => keep_future deadline_date
  | None =>
      match strptime false (strip m) with
      | Some deadline_date => keep_future deadline_date
      | None => ret []
      end
  end.

(** The body of the NSF and of the foundation loop over matches. *)
Definition comma_deadline_token (m : string) : M (list datetime) :=
  match strptime true (strip m) with
  | Some deadline_date => keep_future deadline_date
  | None => ret []
  end.

Definition extract_deadlines (findall : findall_fn) (token : string -> M (list datetime))
           (patterns : list string) (text : string) : M (list datetime) :=
  concatM (fun pattern => concatM token (findall pattern text true)) patterns.

Definition dollar : ascii := "$"%char.
Definition comma : ascii := ","%char.

(** The body of an amount loop: [lo <= int(...) <= hi] or nothing. *)
Definition amount_token (strip_dollar : bool) (lo hi : Z) (m : string) : list Z :=
  let cleaned := remove_char comma m in
  let cleaned := if strip_dollar then remove_char dollar cleaned else cleaned in
  match int cleaned with
  | Some amount => if ((lo <=? amount) && (amount <=? hi))%Z then [amount] else []
  | None => []
  end.

Definition nih_deadline_patterns : list string :=
  ["application.*due.*?(\w+\s+\d{1,2},?\s+\d{4})";
   "deadline.*?(\w+\s+\d{1,2},?\s+\d{4})";
   "submit.*by.*?(\w+\s+\d{1,2},?\s+\d{4})";
   "due\s+date.*?(\w+\s+\d{1,2},?\s+\d{4})"].

Definition nih_amount_patterns : list string :=
  ["\$([0-9,]+(?:\.[0-9]{2})?)"; "award.*?([0-9,]+)"; "budget.*?([0-9,]+)"].

Definition nsf_deadline_patterns : list string :=
  ["proposal.*due.*?(\w+\s+\d{1,2},?\s+\d{4})";
   "deadline.*?(\w+\s+\d{1,2},?\s+\d{4})";
   "submit.*by.*?(\w+\s+\d{1,2},?\s+\d{4})";
   "full proposal.*?(\w+\s+\d{1,2},?\s+\d{4})"].

Definition nsf_amount_patterns : list string :=
  ["\$([0-9,]+(?:\.[0-9]{2})?)"; "award.*?([0-9,]+)"; "maximum.*?([0-9,]+)"].

Definition foundation_deadline_patterns : list string :=
  ["deadline.*?(\w+\s+\d{1,2},?\s+\d{4})";
   "due.*?(\w+\s+\d{1,2},?\s+\d{4})";
   "apply.*by.*?(\w+\s+\d{1,2},?\s+\d{4})";
   "submission.*?(\w+\s+\d{1,2},?\s+\d{4})"].

Definition nih_deadlines (findall : findall_fn) (text : string) : M (list datetime) :=
  extract_deadlines findall nih_deadline_token nih_deadline_patterns text.

Definition nsf_deadlines (findall : findall_fn) (text : string) : M (list datetime) :=
  extract_deadlines findall comma_deadline_token nsf_deadline_patterns text.

Definition foundation_deadlines (findall : findall_fn) (text : string) : M (list datetime) :=
  extract_deadlines findall comma_deadline_token foundation_deadline_patterns text.

Definition nih_amounts (findall : findall_fn) (text : string) : list Z :=
  flat_map (fun pattern =>
    flat_map (amount_token true 1000 10000000) (findall pattern text true))
    nih_amount_patterns.

Definition nsf_amounts (findall : findall_fn) (text : string) : list Z :=
  flat_map (fun pattern =>
    flat_map (amount_token true 5000 5000000) (findall pattern text true))
    nsf_amount_patterns.

Definition foundation_amounts (findall : findall_fn) (text : string) : list Z :=
  flat_map (amount_token false 1000 10000000) (findall "\$([0-9,]+)" text false).

(* --------------------------------------------------------------- *)
(** *** Page collectors *)

(** What BeautifulSoup hands over for a fetched page: the stripped text
    of the first [h1] or else of [title], the text of the page, the
    content of the description [meta], the texts of the [p] elements. *)
Record page : Type := mk_page {
  page_url : string;
  page_heading : option string;
  page_text : string;
  page_meta : option string;
  page_paragraphs : list string
}.

Definition slice_to (n : nat) (s : string) : string := substring 0 n s.

Definition nih_description (p : page) : string :=
  let description := match page_meta p with Some c => slice_to 500 c | None => "" end in
  match description with
  | EmptyString =>
      match find (fun t => (100 <? length (strip t))%nat) (firstn 5 (page_paragraphs p)) with
      | Some t => slice_to 500 (strip t)
      | None => ""
      end
  | _ => description
  end.

Definition parse_nih_grant_page (findall : findall_fn) (p : page) : M grant :=
  let title := match page_heading p with Some t => strip t | None => "Unknown Title" end in
  let text_content := page_text p in
  deadlines <- nih_deadlines findall text_content ;;
  let amounts := nih_amounts findall text_content in
  let description := nih_description p in
  t <- now ;;
  ret (mk_grant title "NIH" (page_url p) (Some deadlines) amounts
                (Some description) (Some t) "nih" None None).

Definition parse_nsf_grant_page (findall : findall_fn) (p : page) : M grant :=
  let title := match page_heading p with Some t => strip t | None => "Unknown NSF Grant" end in
  let text_content := page_text p in
  deadlines <- nsf_deadlines findall text_content ;;
  let amounts := nsf_amounts findall text_content in
  let description :=
    match page_meta p with
    | Some c => slice_to 500 c
    | None => slice_to 500 text_content
    end in
  t <- now ;;
  ret (mk_grant title "NSF" (page_url p) (Some deadlines) amounts
                (Some description) (Some t) "nsf" None None).

(** One iteration of a collector loop: a link whose page could not be
    fetched or parsed ([None]) contributes nothing. *)
Definition collect (self : tracker) (parse : page -> M grant) (p : option page) : M (list grant) :=
  match p with
  | Some pg =>
      grant_data <- parse pg ;;
      ret (if is_relevant_grant self grant_data then [grant_data] else [])
  | None => ret []
  end.

Definition scrape_nih_grants (self : tracker) (findall : findall_fn)
           (links : list (option page)) : M (list grant) :=
  concatM (collect self (parse_nih_grant_page findall)) (firstn 20 links).

Definition is_nsf_grant_page (url : string) : bool :=
  existsb (fun indicator => contains indicator (lower url))
          ["solicitation"; "funding"; "pubs"; "nsf.gov"].

Definition scrape_nsf_grants (self : tracker) (findall : findall_fn)
           (links : list (string * option page)) : M (list grant) :=
  concatM (fun link =>
             if is_nsf_grant_page (fst link)
             then collect self (parse_nsf_grant_page findall) (snd link)
             else ret [])
          (firstn 15 links).

(** A [div] or [section] of a foundation page: the text of its first
    heading, if it has one, and its text. *)
Record section : Type := mk_section {
  section_heading : option string;
  section_text : string
}.

Record foundation : Type := mk_foundation {
  foundation_name : string;
  foundation_url : string
}.

Definition foundations : list foundation :=
  [mk_foundation "Brain & Behavior Research Foundation" "https://www.bbrfoundation.org/grants-prizes";
   mk_foundation "Simons Foundation" "https://www.simonsfoundation.org/funding-opportunities/";
   mk_foundation "Dana Foundation" "https://dana.org/grants/"].

Definition is_empty (s : string) : bool :=
  match s with EmptyString => true | _ => false end.

Definition scrape_foundation_section (findall : findall_fn) (f : foundation)
           (sec : section) : M (list grant) :=
  match section_heading sec with
  | None => ret []
  | Some heading =>
      let title := strip heading in
      let text := section_text sec in
      deadlines <- foundation_deadlines findall text ;;
      let amounts := foundation_amounts findall text in
      if negb (is_empty title)
         && (negb (match deadlines with [] => true | _ => false end)
             || contains "grant" (lower title))
      then
        t <- now ;;
        ret [mk_grant title (foundation_name f) (foundation_url f) (Some deadlines) amounts
                      (Some (strip (slice_to 300 text))) (Some t) "foundation" None None]
      else ret []
  end.

(** [None] for a foundation whose page could not be fetched. *)
Definition scrape_foundation_page (findall : findall_fn) (f : foundation)
           (sections : option (list section)) : M (list grant) :=
  match sections with
  | Some secs => concatM (scrape_foundation_section findall f) (firstn 5 secs)
  | None => ret []
  end.

Fixpoint zip_pages (fs : list foundation) (ps : list (option (list section)))
  : list (foundation * option (list section)) :=
  match fs with
  | [] => []
  | f :: fr =>
      match ps with
      | p :: pr => (f, p) :: zip_pages fr pr
      | [] => (f, None) :: zip_pages fr []
      end
  end.

Definition scrape_foundation_grants (findall : findall_fn)
           (pages : list (option (list section))) : M (list grant) :=
  concatM (fun fp => scrape_foundation_page findall (fst fp) (snd fp))
          (zip_pages foundations pages).

(* --------------------------------------------------------------- *)
(** *** Recurrence generator and static catalog *)

Definition recurring_deadline (current_year : Z) (date_str : string) : M (list datetime) :=
  match strptime false (date_str ++ " " ++ of_Z current_year) with
  | Some deadline =>
      t <- now ;;
      if (t <? deadline)%Z then ret [deadline]
      else
        match strptime false (date_str ++ " " ++ of_Z (current_year + 1)) with
        | Some deadline => ret [deadline]
        | None => ret []
        end
  | None => ret []
  end.

Definition generate_recurring_deadlines (date_strings : list string) : M (list datetime) :=
  t <- now ;;
  let current_year := DateTime.year t in
  concatM (recurring_deadline current_year) date_strings.

(** [datetime(y, m, d)] written in the source with constant arguments. *)
Definition literal_date (y m d : Z) : M datetime := of_option (DateTime.make y m d).

Definition static_entry (title agency url : string) (deadlines : M (list datetime))
           (amounts : list Z) (description : string) (eligibility : list string) : M grant :=
  ds <- deadlines ;;
  t <- now ;;
  ret (mk_grant title agency url (Some ds) amounts (Some description) (Some t)
                "static" (Some eligibility) None).

Definition static_grants : list (M grant) :=
  [static_entry "NIH F31 Predoctoral Fellowship" "NIH"
     "https://grants.nih.gov/grants/guide/pa-files/PA-23-271.html"
     (generate_recurring_deadlines ["April 8"; "August 8"; "December 8"])
     [25000; 30000]%Z
     "Predoctoral fellowships for graduate students conducting dissertation research."
     ["graduate student"; "phd"];
   static_entry "NIH F32 Postdoctoral Fellowship" "NIH"
     "https://grants.nih.gov/grants/guide/pa-files/PA-23-272.html"
     (generate_recurring_deadlines ["April 8"; "August 8"; "December 8"])
     [50000; 60000]%Z
     "Postdoctoral fellowships for recent PhD recipients."
     ["postdoc"; "recent phd"];
   static_entry "NIH K01 Career Development Award" "NIH"
     "https://grants.nih.gov/grants/guide/pa-files/PA-23-273.html"
     (generate_recurring_deadlines ["February 12"; "June 12"; "October 12"])
     [100000; 150000]%Z
     "Career development awards for early-career investigators."
     ["assistant professor"; "early career"];
   static_entry "NSF Graduate Research Fellowship" "NSF"
     "https://www.nsfgrfp.org/"
     (d <- literal_date 2025 10 15 ;; ret [d])
     [37000; 46000]%Z
     "Fellowship for outstanding graduate students in STEM fields."
     ["graduate student"; "early graduate"];
   static_entry "Brain & Behavior Research Foundation Young Investigator Grant"
     "Brain & Behavior Research Foundation"
     "https://www.bbrfoundation.org/grants-prizes/young-investigator-grants"
     (d <- literal_date 2025 9 15 ;; ret [d])
     [70000]%Z
     "Grants for early-career investigators in brain and behavior research."
     ["postdoc"; "assistant professor"];
   static_entry "Simons Foundation Autism Research Initiative (SFARI)" "Simons Foundation"
     "https://www.sfari.org/grant-opportunities/"
     (generate_recurring_deadlines ["January 15"; "July 15"])
     [100000; 300000]%Z
     "Research grants focused on autism spectrum disorders."
     ["assistant professor"; "associate professor"; "professor"]].

Fixpoint sequence {A} (l : list (M A)) : M (list A) :=
  match l with
  | [] => ret []
  | m :: r => a <- m ;; rest <- sequence r ;; ret (a :: rest)
  end.

Definition scrape_static_opportunities (self : tracker) : M (list grant) :=
  gs <- sequence static_grants ;;
  ret (filter (is_relevant_grant self) gs).

(* --------------------------------------------------------------- *)
(** *** Urgency classifier *)

(** [min(l)] of a list that is not empty *)
Definition list_min (d : datetime) (ds : list datetime) : datetime :=
  fold_left Z.min ds d.

Definition calculate_urgency (g : grant) : M Z :=
  match deadlines g with
  | None | Some [] => ret 0%Z
  | Some (d :: ds) =>
      let nearest_deadline := list_min d ds in
      t <- now ;;
      let days_until := days_between nearest_deadline t in
      ret (if days_until <=? 30 then 5
           else if days_until <=? 90 then 4
           else if days_until <=? 180 then 3
           else if days_until <=? 365 then 2
           else 1)%Z
  end.

(* --------------------------------------------------------------- *)
(** *** State merger *)

Definition key : Type := string * string.

Definition identity_key (g : grant) : key :=
  (strip (lower (title g)), lower (agency g)).

Definition key_eqb (a b : key) : bool :=
  String.eqb (fst a) (fst b) && String.eqb (snd a) (snd b).

(** [grant.get('last_updated', datetime.min)] *)
Definition updated (g : grant) : datetime :=
  match last_updated g with
  | Some t => t
  | None => DateTime.min
  end.

(** The dict [unique_grants]: keys in the order of their first
    insertion; assigning to a key that is present keeps its place. *)
Definition dict : Type := list (key * grant).

Fixpoint dict_get (k : key) (d : dict) : option grant :=
  match d with
  | [] => None
  | (k', v) :: r => if key_eqb k k' then Some v else dict_get k r
  end.

Fixpoint dict_set (k : key) (v : grant) (d : dict) : dict :=
  match d with
  | [] => [(k, v)]
  | (k', v') :: r => if key_eqb k k' then (k', v) :: r else (k', v') :: dict_set k v r
  end.

Definition dedup_step (unique_grants : dict) (g : grant) : dict :=
  let k := identity_key g in
  match dict_get k unique_grants with
  | None => dict_set k g unique_grants
  | Some old =>
      if (updated old <? updated g)%Z then dict_set k g unique_grants else unique_grants
  end.

(** The loop over [self.grants] and [list(unique_grants.values())]. *)
Definition remove_duplicates (grants : list grant) : list grant :=
  map snd (fold_left dedup_step grants []).

(* --------------------------------------------------------------- *)
(** *** The run, up to the merged and classified record set *)

Definition force_refresh (env : environ) : bool :=
  String.eqb (lower (getenv env "FORCE_REFRESH" "false")) "true".

(** [self.grants] after the first block of [run]: the persisted
    snapshot filtered by the staleness window, or nothing. *)
Definition load_baseline (env : environ) (existing_grants : list grant) : M (list grant) :=
  if negb (force_refresh env) then
    t <- now ;;
    week_ago <- of_option (minus_days t 7) ;;
    ret (filter (fun g => (week_ago <? updated g)%Z) existing_grants)
  else ret [].

(** What the run reads from outside: the environment, the regular
    expression engine, the decoded snapshot and the fetched pages. *)
Record world : Type := mk_world {
  w_env : environ;
  w_findall : findall_fn;
  w_existing : list grant;
  w_nih : list (option page);
  w_nsf : list (string * option page);
  w_foundations : list (option (list section))
}.

(** What the collectors append to [self.grants] during this run. *)
Definition fresh (w : world) : M (list grant) :=
  let self := init (w_env w) in
  static <- scrape_static_opportunities self ;;
  nih <- scrape_nih_grants self (w_findall w) (w_nih w) ;;
  nsf <- scrape_nsf_grants self (w_findall w) (w_nsf w) ;;
  fnd <- scrape_foundation_grants (w_findall w) (w_foundations w) ;;
  ret (static ++ nih ++ nsf ++ fnd)%list.

(** [self.grants] when the collectors are done. *)
Definition collect_all (w : world) : M (list grant) :=
  baseline <- load_baseline (w_env w) (w_existing w) ;;
  collected <- fresh w ;;
  ret (baseline ++ collected)%list.

(** [self.grants] after the merge. *)
Definition merged (w : world) : M (list grant) :=
  all <- collect_all w ;;
  ret (remove_duplicates all).

Definition classify (g : grant) : M grant :=
  u <- calculate_urgency g ;;
  ret (set_urgency g u).

(** [self.grants] when [run] calls [generate_html_website]. *)
Definition run (w : world) : M (list grant) :=
  gs <- merged w ;;
  mapM classify gs.

(* --------------------------------------------------------------- *)
(** *** Ranker and grouper *)

(** The key of [sorted]: [(x['urgency'], min(x.get('deadlines',
    [datetime.max])))].  [None] is the [KeyError] of a missing urgency
    or the [ValueError] of [min] on an empty list. *)
Definition sort_key (g : grant) : option (Z * datetime) :=
  match urgency g with
  | None => None
  | Some u =>
      match deadlines g with
      | None => Some (u, DateTime.max)
      | Some [] => None
      | Some (d :: ds) => Some (u, list_min d ds)
      end
  end.

(** Order of Python tuples *)
Definition key_lt (a b : Z * datetime) : bool :=
  ((fst a <? fst b) || ((fst a =? fst b) && (snd a <? snd b)))%Z.

Fixpoint keyed (gs : list grant) : option (list ((Z * datetime) * grant)) :=
  match gs with
  | [] => Some []
  | g :: r =>
      match sort_key g with
      | None => None
      | Some k =>
          match keyed r with
          | None => None
          | Some kr => Some ((k, g) :: kr)
          end
      end
  end.

(** [sorted(..., reverse=True)]: a stable sort into descending order
    of the keys; records with equal keys keep their order. *)
Fixpoint insert_desc (x : (Z * datetime) * grant) (l : list ((Z * datetime) * grant))
  : list ((Z * datetime) * grant) :=
  match l with
  | [] => [x]
  | y :: r => if key_lt (fst x) (fst y) then y :: insert_desc x r else x :: l
  end.

Definition sorted_reverse (l : list ((Z * datetime) * grant)) : list grant :=
  map snd (fold_right insert_desc [] l).

(** [sorted_grants] of [generate_html_website] *)
Definition sorted_grants (grants : list grant) : M (list grant) :=
  grants_with_urgency <- mapM classify grants ;;
  l <- of_option (keyed grants_with_urgency) ;;
  ret (sorted_reverse l).

Definition urgency_or (g : grant) : Z :=
  match urgency g with Some u => u | None => 0%Z end.

Definition urgent_grants (sorted : list grant) : list grant :=
  filter (fun g => (4 <=? urgency_or g)%Z) sorted.

Definition upcoming_grants (sorted : list grant) : list grant :=
  filter (fun g => ((2 <=? urgency_or g) && (urgency_or g <? 4))%Z) sorted.

Definition future_grants (sorted : list grant) : list grant :=
  filter (fun g => (urgency_or g <? 2)%Z) sorted.

End Tracker.

(* ================================================================= *)
(** ** The syndication feed *)

Module Feed.

Import PyStr Clock Tracker.

(** [s.replace(c, t)] for a one-character [c] *)
Fixpoint replace_char (c : ascii) (t s : string) : string :=
  match s with
  | EmptyString => EmptyString
  | String d r =>
      if Ascii.eqb d c then (t ++ replace_char c t r)%string
      else String d (replace_char c t r)
  end.

(** [clean_title] and [clean_description] of [generate_rss_feed]:
    [s.replace('&', '&amp;').replace('<', '&lt;').replace('>', '&gt;')] *)
Definition xml_clean (s : string) : string :=
  replace_char ">"%char "&gt;"
    (replace_char "<"%char "&lt;"
       (replace_char "&"%char "&amp;" s)).





(** Thousands separators: a comma after every third digit, counted
    from the right, on the reversed digits. *)
Fixpoint commas_rev (l : list ascii) : list ascii :=
  match l with
  | a :: b :: c :: r =>
      match r with
      | [] => l
      | _ => a :: b :: c :: ","%char :: commas_rev r
      end
  | _ => l
  end.

(** [f"{n:,}"] for an integer *)
Definition format_thousands (n : Z) : string :=
  ((if (n <? 0)%Z then "-" else "")
   ++ string_of_list_ascii
        (rev (commas_rev (rev (list_ascii_of_string (of_Z (Z.abs n)))))))%string.

(** [max(l)] of a list that is not empty *)
Definition list_max (a : Z) (l : list Z) : Z := fold_left Z.max l a.

(** [amount_str] of [render_grants_html] *)
Definition amount_str (g : grant) : string :=
  match amounts g with
  | [] => EmptyString
  | a :: r =>
      let min_amount := list_min a r in
      let max_amount := list_max a r in
      if (min_amount =? max_amount)%Z
      then ("$" ++ format_thousands min_amount)%string
      else ("$" ++ format_thousands min_amount ++ " - $" ++ format_thousands max_amount)%string
  end.

(** [amounts_text] of [generate_rss_feed] *)
Definition amounts_text (g : grant) : string :=
  match amounts g with
  | [] => EmptyString
  | a :: r =>
      let min_amount := list_min a r in
      let max_amount := list_max a r in
      if (min_amount =? max_amount)%Z
      then ("Award: $" ++ format_thousands min_amount)%string
      else ("Award: $" ++ format_thousands min_amount ++ " - $" ++ format_thousands max_amount)%string
  end.

End Feed.

(* ================================================================= *)
(** * Properties *)

Import PyStr Strptime Clock Tracker Feed.
Local Open Scope clock_scope.

(** ** Vocabulary of the statements *)

(** A computation that raises nothing and only moves the clock forward. *)
Definition total {A} (m : M A) : Prop :=
  forall clk n, exists a n', m clk n = Some (a, n') /\ (n <= n')%nat.

(** A regular-expression engine that finds one token, for the pattern
    [deadline.*?(...)] that the three profiles share. *)
Definition one_deadline_match (token : string) : findall_fn :=
  fun pattern _ _ =>
    if String.eqb pattern "deadline.*?(\w+\s+\d{1,2},?\s+\d{4})" then [token] else [].

(** Noon of 3 November 2026. *)
Definition noon_2026_11_03 : datetime := 63929304000000000.

(** The records of [l] with identity key [k], in the order of [l]. *)
Definition group (k : key) (l : list grant) : list grant :=
  filter (fun g => key_eqb (identity_key g) k) l.

(** [s] is the first record of [grp] that carries the greatest
    [last_updated]: the records before it are strictly older, those
    after it are not newer. *)
Definition first_latest (grp : list grant) (s : grant) : Prop :=
  exists pre post,
    grp = pre ++ s :: post /\
    Forall (fun x => updated x < updated s) pre /\
    Forall (fun x => updated x <= updated s) post.

(** The invariant of the loop: [seen] is the part of [self.grants]
    already visited, [d] the dict. *)
Definition dict_inv (seen : list grant) (d : dict) : Prop :=
  NoDup (map fst d) /\
  (forall k v, In (k, v) d -> identity_key v = k /\ first_latest (group k seen) v) /\
  (forall g, In g seen -> In (identity_key g) (map fst d)).

(** [a] occurs in [b]. *)
Definition Substring (a b : string) : Prop :=
  exists pre post, b = (pre ++ a ++ post)%string.

(** The career test as the specification words it, without regard to
    case on either side. *)
Definition career_match_any_case (stage : string) (g : grant) : bool :=
  match eligibility g with
  | None | Some [] => true
  | Some tags =>
      existsb (fun tag => contains (lower tag) (lower stage)
                          || contains (lower stage) (lower tag)) tags
  end.

Fixpoint all_space (s : string) : bool :=
  match s with
  | EmptyString => true
  | String c r => is_space c && all_space r
  end.

(** A day of the month as [%d] reads it: one digit that is not zero, or
    two digits between 01 and 31. *)
Inductive day_digits : string -> Z -> Prop :=
| day_one c :
    is_digit c = true -> c <> "0"%char ->
    day_digits (String c EmptyString) (digit_val c)
| day_two c1 c2 :
    is_digit c1 = true -> is_digit c2 = true ->
    1 <= 10 * digit_val c1 + digit_val c2 <= 31 ->
    day_digits (String c1 (String c2 EmptyString)) (10 * digit_val c1 + digit_val c2).

(** A "Month Day" string: the full name of month [m] in any case, white
    space, the digits of day [d], white space or nothing. *)
Definition month_day (s : string) (m d : Z) : Prop :=
  exists name ws dd trail,
    s = (name ++ ws ++ dd ++ trail)%string /\
    In (lower name, m) month_names /\
    ws <> EmptyString /\ all_space ws = true /\
    day_digits dd d /\
    all_space trail = true.

(** No month name starts another one. *)
Fixpoint prefix_free (names : list (string * Z)) : bool :=
  match names with
  | [] => true
  | (p, _) :: r =>
      forallb (fun e => negb (String.prefix p (fst e)) && negb (String.prefix (fst e) p)) r
      && prefix_free r
  end.

Definition year_string_ok (y : nat) : bool :=
  match parse_year_end (of_Z (Z.of_nat y)) with
  | Some v => v =? Z.of_nat y
  | None => false
  end.

(** The entries of [l] are "Month Day" strings whose date exists in the
    year [y] and in the year after it. *)
Definition recurs_in (y : Z) (s : string) : Prop :=
  exists m d d1 d2,
    month_day s m d /\ DateTime.make y m d = Some d1 /\ DateTime.make (y + 1) m d = Some d2.

Definition april_8_ok (y : nat) : bool :=
  let Y := Z.of_nat y in
  match DateTime.make Y 3 1, DateTime.make Y 5 1,
        DateTime.make Y 4 8, DateTime.make (Y + 1) 4 8 with
  | Some march_1, Some may_1, Some this_year, Some next_year =>
      match generate_recurring_deadlines ["April 8"%string] (fun _ => march_1) 0%nat,
            generate_recurring_deadlines ["April 8"%string] (fun _ => may_1) 0%nat with
      | Some ([a], 2%nat), Some ([b], 2%nat) => (a =? this_year) && (b =? next_year)
      | _, _ => false
      end
  | _, _, _, _ => false
  end.

(** [r] is what remains of [s] after a parser consumed a prefix. *)
Definition suffix_of (r s : string) : Prop := exists pre, s = (pre ++ r)%string.

(** Noon of 1 January 2025. *)
Definition noon_2025_01_01 : datetime := 63871329600000000.

(** The escape of one character of XML text. *)
Definition escape_char (c : ascii) : string :=
  if Ascii.eqb c "&"%char then "&amp;"
  else if Ascii.eqb c "<"%char then "&lt;"
  else if Ascii.eqb c ">"%char then "&gt;"
  else String c EmptyString.

(** The escape of a text in one pass, character by character. *)
Fixpoint escape_each (s : string) : string :=
  match s with
  | EmptyString => EmptyString
  | String c r => (escape_char c ++ escape_each r)%string
  end.

(** The inverse of the escape: reads the three entities back. *)
Fixpoint unescape (s : string) : string :=
  match s with
  | String "&" (String "a" (String "m" (String "p" (String ";" r)))) =>
      String "&" (unescape r)
  | String "&" (String "l" (String "t" (String ";" r))) => String "<" (unescape r)
  | String "&" (String "g" (String "t" (String ";" r))) => String ">" (unescape r)
  | String c r => String c (unescape r)
  | EmptyString => EmptyString
  end.

(** The characters of a text. *)
Fixpoint chars (s : string) : list ascii :=
  match s with
  | EmptyString => []
  | String c r => c :: chars r
  end.

(** The characters [int] reads: digits, white space, a sign, an
    underscore. *)
Definition int_char (c : ascii) : bool :=
  is_digit c || is_space c || Ascii.eqb c "_" || Ascii.eqb c "+" || Ascii.eqb c "-".

(** ** Reasoning in the clock monad *)

Lemma bind_some {A B} (m : M A) (f : A -> M B) clk n b n2 :
  bind m f clk n = Some (b, n2) ->
  exists a n1, m clk n = Some (a, n1) /\ f a clk n1 = Some (b, n2).
Proof.
  unfold bind. destruct (m clk n) as [[a n1]|]; [|discriminate].
  intros H. exists a, n1. auto.
Qed.

Lemma bind_eq {A B} (m : M A) (f : A -> M B) clk n a n1 :
  m clk n = Some (a, n1) -> bind m f clk n = f a clk n1.
Proof. unfold bind. intros ->. reflexivity. Qed.

Lemma total_ret {A} (a : A) : total (ret a).
Proof. intros clk n. exists a, n. split; [reflexivity | lia]. Qed.

Lemma total_now : total now.
Proof. intros clk n. exists (clk n), (S n). split; [reflexivity | lia]. Qed.

Lemma total_bind {A B} (m : M A) (f : A -> M B) :
  total m -> (forall a, total (f a)) -> total (bind m f).
Proof.
  intros Hm Hf clk n.
  destruct (Hm clk n) as (a & n1 & E1 & L1).
  destruct (Hf a clk n1) as (b & n2 & E2 & L2).
  exists b, n2. split; [|lia].
  rewrite (bind_eq _ _ _ _ _ _ E1). exact E2.
Qed.

Lemma total_concatM {A B} (f : A -> M (list B)) l :
  (forall a, total (f a)) -> total (concatM f l).
Proof.
  intros Hf. induction l as [|a r IH]; simpl.
  - apply total_ret.
  - apply total_bind; [apply Hf|]. intros bs.
    apply total_bind; [exact IH|]. intros cs. apply total_ret.
Qed.

Lemma total_mapM {A B} (f : A -> M B) l :
  (forall a, total (f a)) -> total (mapM f l).
Proof.
  intros Hf. induction l as [|a r IH]; simpl.
  - apply total_ret.
  - apply total_bind; [apply Hf|]. intros b.
    apply total_bind; [exact IH|]. intros bs. apply total_ret.
Qed.

Ltac totality :=
  repeat first
    [ apply total_ret | apply total_now
    | apply total_concatM; intros ? | apply total_mapM; intros ?
    | apply total_bind; [|intros ?] ].

(** ** Urgency classifier *)

Lemma list_min_spec d ds :
  In (list_min d ds) (d :: ds) /\ forall x, In x (d :: ds) -> (list_min d ds <= x)%Z.
Proof.
  unfold list_min. revert d. induction ds as [|e r IH]; intros d; simpl.
  - split; [auto|]. intros x [->|[]]. lia.
  - destruct (IH (Z.min d e)) as [Hin Hle]. split.
    + destruct Hin as [E|Hin]; [|auto].
      rewrite <- E. destruct (Z.min_spec d e) as [[_ ->]|[_ ->]]; auto.
    + intros x [->|[->|Hx]].
      * specialize (Hle (Z.min x e) (or_introl eq_refl)). lia.
      * specialize (Hle (Z.min d x) (or_introl eq_refl)). lia.
      * apply Hle. right. exact Hx.
Qed.

(** C3. The urgency classifier returns tier 0 for a record whose
    deadlines are missing or empty.  Otherwise it reads the clock once
    and, with [days_until] the whole days from that reading to the
    least deadline, returns 5 up to 30 days, 4 up to 90, 3 up to 180,
    2 up to 365 and 1 beyond; so 30, 31, 90, 91, 180, 181, 365 and 366
    days give 5, 4, 4, 3, 3, 2, 2 and 1. *)
Theorem urgency_tiers (clk : nat -> datetime) (n : nat) (g : grant) :
  (deadlines g = None \/ deadlines g = Some [] ->
   calculate_urgency g clk n = Some (0, n)%Z) /\
  (forall d ds, deadlines g = Some (d :: ds) ->
   exists nearest tier,
     In nearest (d :: ds) /\
     (forall x, In x (d :: ds) -> nearest <= x) /\
     calculate_urgency g clk n = Some (tier, S n) /\
     let days_until := days_between nearest (clk n) in
     (days_until <= 30 -> tier = 5) /\
     (30 < days_until <= 90 -> tier = 4) /\
     (90 < days_until <= 180 -> tier = 3) /\
     (180 < days_until <= 365 -> tier = 2) /\
     (365 < days_until -> tier = 1) /\
     (forall v t,
        In (v, t) [(30, 5); (31, 4); (90, 4); (91, 3); (180, 3); (181, 2); (365, 2); (366, 1)] ->
        days_until = v -> tier = t)).
Proof.
  split.
  - unfold calculate_urgency. intros [-> | ->]; reflexivity.
  - intros d ds E.
    destruct (list_min_spec d ds) as [Hin Hle].
    exists (list_min d ds).
    unfold calculate_urgency. rewrite E.
    unfold bind, now, ret. cbv zeta.
    set (du := days_between (list_min d ds) (clk n)).
    eexists. split; [exact Hin|]. split; [exact Hle|]. split; [reflexivity|].
    repeat split; intros;
      repeat match goal with
             | H : In _ (_ :: _) |- _ => destruct H as [H|H]; [injection H as <- <-|]
             | H : In _ [] |- _ => destruct H
             end;
      repeat match goal with
             | |- context [(?a <=? ?b)%Z] => destruct (Z.leb_spec a b)
             end; try reflexivity; lia.
Qed.

(** The witness of [urgency_tiers]: one deadline thirty days and one
    hour after the reading of the clock. *)
Lemma urgency_tiers_witness :
  calculate_urgency
    (mk_grant "a" "b" "" (Some [30 * us_per_day + 3600000000]) [] None None "" None None)
    (fun _ => 0) 0%nat = Some (5, 1%nat).
Proof.
  destruct (urgency_tiers (fun _ => 0) 0%nat
              (mk_grant "a" "b" "" (Some [30 * us_per_day + 3600000000]) [] None None "" None None))
    as [_ H].
  destruct (H _ _ eq_refl) as (nearest & tier & Hin & _ & E & _ & _ & _ & _ & _ & Hb).
  destruct Hin as [<-|[]].
  rewrite (Hb 30 5 (or_introl eq_refl) eq_refl) in E. exact E.
Defined.

(** ** Field extraction *)

Lemma keep_future_total d : total (keep_future d).
Proof. unfold keep_future. totality. Qed.

Lemma nih_deadline_token_total m : total (nih_deadline_token m).
Proof.
  unfold nih_deadline_token.
  destruct (strptime true (strip m)); [apply keep_future_total|].
  destruct (strptime false (strip m)); [apply keep_future_total | apply total_ret].
Qed.

Lemma comma_deadline_token_total m : total (comma_deadline_token m).
Proof.
  unfold comma_deadline_token.
  destruct (strptime true (strip m)); [apply keep_future_total | apply total_ret].
Qed.

Lemma extract_deadlines_total findall token patterns text :
  (forall m, total (token m)) -> total (extract_deadlines findall token patterns text).
Proof. intros H. unfold extract_deadlines. totality. apply H. Qed.

Lemma amount_token_range strip_dollar lo hi m a :
  In a (amount_token strip_dollar lo hi m) -> lo <= a <= hi.
Proof.
  unfold amount_token.
  destruct (int _) as [v|]; [|intros []].
  destruct (Z.leb_spec lo v), (Z.leb_spec v hi); simpl; intros Hin;
    try destruct Hin as [<-|[]]; try contradiction; lia.
Qed.

Lemma flat_map_amounts_range strip_dollar lo hi tokens :
  Forall (fun a => lo <= a <= hi) (flat_map (amount_token strip_dollar lo hi) tokens).
Proof.
  apply Forall_forall. intros a Ha. apply in_flat_map in Ha as (m & _ & Hm).
  eapply amount_token_range; eassumption.
Qed.

Lemma nih_amounts_range findall text :
  Forall (fun a => 1000 <= a <= 10000000) (nih_amounts findall text).
Proof.
  apply Forall_forall. intros a Ha. unfold nih_amounts in Ha.
  apply in_flat_map in Ha as (pat & _ & Ha).
  revert a Ha. apply Forall_forall. apply flat_map_amounts_range.
Qed.

Lemma nsf_amounts_range findall text :
  Forall (fun a => 5000 <= a <= 5000000) (nsf_amounts findall text).
Proof.
  apply Forall_forall. intros a Ha. unfold nsf_amounts in Ha.
  apply in_flat_map in Ha as (pat & _ & Ha).
  revert a Ha. apply Forall_forall. apply flat_map_amounts_range.
Qed.

Lemma foundation_amounts_range findall text :
  Forall (fun a => 1000 <= a <= 10000000) (foundation_amounts findall text).
Proof. apply flat_map_amounts_range. Qed.

(** What [parse_nih_grant_page] returns, field by field. *)
Lemma parse_nih_grant_page_fields findall p clk n :
  exists g ds n1,
    nih_deadlines findall (page_text p) clk n = Some (ds, n1) /\
    parse_nih_grant_page findall p clk n = Some (g, S n1) /\
    deadlines g = Some ds /\
    amounts g = nih_amounts findall (page_text p) /\
    last_updated g = Some (clk n1) /\
    eligibility g = None.
Proof.
  destruct (extract_deadlines_total findall nih_deadline_token nih_deadline_patterns
              (page_text p) nih_deadline_token_total clk n) as (ds & n1 & E & _).
  eexists _, ds, n1. split; [exact E|].
  unfold parse_nih_grant_page. cbv zeta.
  unfold nih_deadlines. rewrite (bind_eq _ _ _ _ _ _ E).
  unfold bind, now, ret. simpl. repeat split.
Qed.

Lemma parse_nsf_grant_page_fields findall p clk n :
  exists g ds n1,
    nsf_deadlines findall (page_text p) clk n = Some (ds, n1) /\
    parse_nsf_grant_page findall p clk n = Some (g, S n1) /\
    deadlines g = Some ds /\
    amounts g = nsf_amounts findall (page_text p) /\
    last_updated g = Some (clk n1) /\
    eligibility g = None.
Proof.
  destruct (extract_deadlines_total findall comma_deadline_token nsf_deadline_patterns
              (page_text p) comma_deadline_token_total clk n) as (ds & n1 & E & _).
  eexists _, ds, n1. split; [exact E|].
  unfold parse_nsf_grant_page. cbv zeta.
  unfold nsf_deadlines. rewrite (bind_eq _ _ _ _ _ _ E).
  unfold bind, now, ret. simpl. repeat split.
Qed.

(** What a foundation section contributes: nothing, or one record. *)
Lemma scrape_foundation_section_fields findall f sec clk n :
  exists gs ds n1 n2,
    (n <= n1 <= n2)%nat /\
    scrape_foundation_section findall f sec clk n = Some (gs, n2) /\
    forall g, In g gs ->
      foundation_deadlines findall (section_text sec) clk n = Some (ds, n1) /\
      deadlines g = Some ds /\
      amounts g = foundation_amounts findall (section_text sec) /\
      last_updated g = Some (clk n1) /\
      eligibility g = None.
Proof.
  unfold scrape_foundation_section.
  destruct (section_heading sec) as [heading|].
  2:{ exists [], [], n, n. split; [lia|]. split; [reflexivity|]. intros g []. }
  destruct (extract_deadlines_total findall comma_deadline_token foundation_deadline_patterns
              (section_text sec) comma_deadline_token_total clk n) as (ds & n1 & E & L).
  cbv zeta. unfold foundation_deadlines at 1. rewrite (bind_eq _ _ _ _ _ _ E).
  match goal with |- context [if ?c then _ else _] => destruct c end.
  - eexists _, ds, n1, (S n1). split; [lia|].
    unfold bind, now, ret. split; [reflexivity|].
    intros g [<-|[]]. simpl. repeat split. exact E.
  - exists [], ds, n1, n1. split; [lia|]. split; [reflexivity|]. intros g [].
Qed.

(** C9. Every amount of an extracted record lies within the range of
    its source type: 1,000 to 10,000,000 inclusive for NIH pages and
    foundation sections, 5,000 to 5,000,000 inclusive for NSF pages.
    A token whose integer value is outside the range is dropped, one
    whose value is inside (the ends included) is kept, and a token that
    is no integer is dropped as well. *)
Theorem amounts_within_bounds (findall : findall_fn) :
  (forall p clk n, exists g n',
      parse_nih_grant_page findall p clk n = Some (g, n') /\
      Forall (fun a => 1000 <= a <= 10000000) (amounts g)) /\
  (forall p clk n, exists g n',
      parse_nsf_grant_page findall p clk n = Some (g, n') /\
      Forall (fun a => 5000 <= a <= 5000000) (amounts g)) /\
  (forall f sec clk n, exists gs n',
      scrape_foundation_section findall f sec clk n = Some (gs, n') /\
      Forall (fun g => Forall (fun a => 1000 <= a <= 10000000) (amounts g)) gs) /\
  (forall (strip_dollar : bool) lo hi m,
      let cleaned := remove_char comma m in
      let cleaned := if strip_dollar then remove_char dollar cleaned else cleaned in
      match int cleaned with
      | Some a =>
          (lo <= a <= hi -> amount_token strip_dollar lo hi m = [a]) /\
          (a < lo \/ hi < a -> amount_token strip_dollar lo hi m = [])
      | None => amount_token strip_dollar lo hi m = []
      end).
Proof.
  repeat split.
  - intros p clk n.
    destruct (parse_nih_grant_page_fields findall p clk n)
      as (g & ds & n1 & _ & E & _ & Ha & _).
    exists g, (S n1). split; [exact E|]. rewrite Ha. apply nih_amounts_range.
  - intros p clk n.
    destruct (parse_nsf_grant_page_fields findall p clk n)
      as (g & ds & n1 & _ & E & _ & Ha & _).
    exists g, (S n1). split; [exact E|]. rewrite Ha. apply nsf_amounts_range.
  - intros f sec clk n.
    destruct (scrape_foundation_section_fields findall f sec clk n)
      as (gs & ds & n1 & n2 & _ & E & H).
    exists gs, n2. split; [exact E|].
    apply Forall_forall. intros g Hg.
    destruct (H g Hg) as (_ & _ & Ha & _). rewrite Ha. apply foundation_amounts_range.
  - intros strip_dollar lo hi m. cbv zeta. unfold amount_token.
    destruct (int _) as [a|]; [|reflexivity].
    destruct (Z.leb_spec lo a), (Z.leb_spec a hi); simpl; split; intros; try reflexivity; lia.
Qed.

(** The witness of [amounts_within_bounds]: the ends of the NSF range. *)
Lemma amounts_within_bounds_witness :
  amount_token true 5000 5000000 "5,000" = [5000] /\
  amount_token true 5000 5000000 "4,999" = [].
Proof.
  destruct (amounts_within_bounds (fun _ _ _ => [])) as (_ & _ & _ & H).
  split.
  - pose proof (H true 5000 5000000 "5,000"%string) as H1. cbv beta iota zeta in H1.
    assert (E : int (remove_char dollar (remove_char comma "5,000")) = Some 5000) by reflexivity.
    rewrite E in H1. apply H1. lia.
  - pose proof (H true 5000 5000000 "4,999"%string) as H1. cbv beta iota zeta in H1.
    assert (E : int (remove_char dollar (remove_char comma "4,999")) = Some 4999) by reflexivity.
    rewrite E in H1. apply H1. lia.
Defined.

(** C6. The token [March 5 2030], which the capture group of every
    profile accepts, is a date in the format without comma and not in
    the one with comma.  The NIH profile tries both formats and keeps
    the date; the NSF and the foundation profile try the format with
    comma only and drop the token. *)
Theorem second_format_only_for_nih :
  let clk := fun _ : nat => noon_2026_11_03 in
  let findall := one_deadline_match "March 5 2030" in
  strptime true "March 5 2030" = None /\
  strptime false "March 5 2030" = DateTime.make 2030 3 5 /\
  nih_deadlines findall "Proposal deadline: March 5 2030" clk 0%nat
    = Some ([64034496000000000], 1%nat) /\
  nsf_deadlines findall "Proposal deadline: March 5 2030" clk 0%nat = Some ([], 0%nat) /\
  foundation_deadlines findall "Proposal deadline: March 5 2030" clk 0%nat = Some ([], 0%nat).
Proof. vm_compute. repeat split. Qed.

(** No profile raises on a token: one that fails the formats the
    profile tries is dropped and the clock is not even read. *)
Lemma unparsable_token_dropped m clk n :
  (strptime true (strip m) = None -> strptime false (strip m) = None ->
   nih_deadline_token m clk n = Some ([], n)) /\
  (strptime true (strip m) = None -> comma_deadline_token m clk n = Some ([], n)).
Proof.
  unfold nih_deadline_token, comma_deadline_token.
  split; [intros -> ->|intros ->]; reflexivity.
Qed.

(** ** Ranker *)

(** C4. Two records of tier 5, the first due in ten days and the second
    in twenty: [sorted] with [reverse=True] puts the later deadline
    first, so within a tier the order of the nearest deadlines is
    descending, not ascending. *)
Theorem sorted_grants_later_deadline_first :
  let t := noon_2026_11_03 in
  let a := mk_grant "A" "NIH" "" (Some [t + 10 * us_per_day]) [] None (Some t) "nih" None None in
  let b := mk_grant "B" "NIH" "" (Some [t + 20 * us_per_day]) [] None (Some t) "nih" None None in
  sorted_grants [a; b] (fun _ => t) 0%nat
    = Some ([set_urgency b 5; set_urgency a 5], 2%nat).
Proof. vm_compute. reflexivity. Qed.

(** A record whose list of deadlines is there and empty makes the key
    function of [sorted] raise. *)
Lemma sorted_grants_empty_deadlines_raises g gs clk n :
  deadlines g = Some [] -> sorted_grants (g :: gs) clk n = None.
Proof.
  intros E. unfold sorted_grants.
  destruct (total_mapM classify (g :: gs)) with (clk := clk) (n := n) as (l & n1 & El & _).
  { intros a. unfold classify. apply total_bind; [|intros u; apply total_ret].
    unfold calculate_urgency. destruct (deadlines a) as [[|d ds]|]; totality. }
  rewrite (bind_eq _ _ _ _ _ _ El).
  simpl in El. unfold classify at 1, calculate_urgency in El. rewrite E in El.
  unfold bind, ret in El. simpl in El.
  destruct (mapM classify gs clk n) as [[l' n']|]; [|discriminate].
  injection El as <- <-.
  unfold bind, of_option. simpl.
  unfold sort_key, set_urgency. simpl. rewrite E. reflexivity.
Qed.

Lemma key_lt_spec a b :
  key_lt a b = true <-> fst a < fst b \/ (fst a = fst b /\ snd a < snd b).
Proof.
  unfold key_lt.
  rewrite orb_true_iff, andb_true_iff, !Z.ltb_lt, Z.eqb_eq. reflexivity.
Qed.

Lemma insert_desc_perm x l : Permutation (x :: l) (insert_desc x l).
Proof.
  induction l as [|y r IH]; simpl; [reflexivity|].
  destruct (key_lt (fst x) (fst y)); [|reflexivity].
  rewrite perm_swap. apply perm_skip, IH.
Qed.

Lemma insert_desc_sorted x l :
  StronglySorted (fun a b => key_lt (fst a) (fst b) = false) l ->
  StronglySorted (fun a b => key_lt (fst a) (fst b) = false) (insert_desc x l).
Proof.
  induction 1 as [|y r Hs IH Hy]; simpl.
  - constructor; constructor.
  - destruct (key_lt (fst x) (fst y)) eqn:E.
    + constructor; [exact IH|].
      apply Forall_forall. intros z Hz.
      apply (Permutation_in _ (Permutation_sym (insert_desc_perm x r))) in Hz.
      destruct Hz as [<-|Hz].
      * apply key_lt_spec in E. apply not_true_is_false. rewrite key_lt_spec. lia.
      * rewrite Forall_forall in Hy. apply Hy, Hz.
    + constructor; [constructor; assumption|].
      constructor; [exact E|].
      apply Forall_forall. intros z Hz. rewrite Forall_forall in Hy.
      specialize (Hy z Hz).
      apply not_true_is_false. intros F. apply key_lt_spec in F.
      apply (proj2 (not_true_iff_false _)) in E, Hy.
      rewrite key_lt_spec in E, Hy. lia.
Qed.

(** What [sorted] with [reverse=True] returns in general: the records
    it was given, with no key before a greater one; the order of the
    keys is the order of the tuples (urgency, nearest deadline), so
    within a tier a later nearest deadline never follows an earlier
    one. *)
Lemma sorted_reverse_descending l :
  Permutation l (fold_right insert_desc [] l) /\
  StronglySorted (fun a b => key_lt (fst a) (fst b) = false) (fold_right insert_desc [] l).
Proof.
  induction l as [|x r [IHp IHs]]; simpl.
  - split; constructor.
  - split.
    + rewrite <- insert_desc_perm. apply perm_skip, IHp.
    + apply insert_desc_sorted, IHs.
Qed.

(** ** State merger *)

Lemma key_eqb_eq a b : key_eqb a b = true <-> a = b.
Proof.
  unfold key_eqb. destruct a as [a1 a2], b as [b1 b2]. simpl.
  rewrite andb_true_iff, !String.eqb_eq. split.
  - intros [-> ->]. reflexivity.
  - intros E. injection E as -> ->. auto.
Qed.

Lemma key_eqb_refl a : key_eqb a a = true.
Proof. apply key_eqb_eq. reflexivity. Qed.

Lemma key_eqb_neq a b : key_eqb a b = false <-> a <> b.
Proof.
  split.
  - intros E <-. rewrite key_eqb_refl in E. discriminate.
  - intros N. destruct (key_eqb a b) eqn:E; [|reflexivity].
    apply key_eqb_eq in E. contradiction.
Qed.

Lemma group_snoc k l g :
  group k (l ++ [g]) =
  if key_eqb (identity_key g) k then group k l ++ [g] else group k l.
Proof.
  unfold group. rewrite filter_app. simpl.
  destruct (key_eqb (identity_key g) k); [reflexivity | apply app_nil_r].
Qed.

Lemma group_in k l g : In g (group k l) <-> In g l /\ identity_key g = k.
Proof. unfold group. rewrite filter_In, key_eqb_eq. reflexivity. Qed.

Lemma dict_get_none k d : dict_get k d = None <-> ~ In k (map fst d).
Proof.
  induction d as [|[k' v] r IH]; simpl.
  - tauto.
  - destruct (key_eqb k k') eqn:E.
    + apply key_eqb_eq in E. subst. split; [discriminate | tauto].
    + apply key_eqb_neq in E. rewrite IH. split; [intros H [F|F]; [congruence | tauto] | tauto].
Qed.

Lemma dict_set_new k v d : dict_get k d = None -> dict_set k v d = d ++ [(k, v)].
Proof.
  induction d as [|[k' v'] r IH]; simpl; [reflexivity|].
  destruct (key_eqb k k'); [discriminate|]. intros H. rewrite IH by exact H. reflexivity.
Qed.

Lemma dict_set_old k v old d :
  dict_get k d = Some old ->
  exists d1 d2, d = d1 ++ (k, old) :: d2 /\ dict_set k v d = d1 ++ (k, v) :: d2.
Proof.
  induction d as [|[k' v'] r IH]; simpl; [discriminate|].
  destruct (key_eqb k k') eqn:E.
  - apply key_eqb_eq in E. subst k'. intros [= ->]. exists [], r. auto.
  - intros H. destruct (IH H) as (d1 & d2 & -> & ->).
    exists ((k', v') :: d1), d2. auto.
Qed.

Lemma nodup_keys_functional (d : dict) k v v' :
  NoDup (map fst d) -> In (k, v) d -> In (k, v') d -> v = v'.
Proof.
  induction d as [|[k0 v0] r IH]; simpl; [tauto|].
  intros ND. apply NoDup_cons_iff in ND as [Hn ND].
  intros [E|H] [E'|H'].
  - congruence.
  - injection E as <- <-. exfalso. apply Hn. apply (in_map fst) in H'. exact H'.
  - injection E' as <- <-. exfalso. apply Hn. apply (in_map fst) in H. exact H.
  - apply IH; assumption.
Qed.

Lemma first_latest_bound grp s x : first_latest grp s -> In x grp -> updated x <= updated s.
Proof.
  intros (pre & post & -> & Hpre & Hpost) Hx.
  rewrite Forall_forall in Hpre, Hpost.
  apply in_app_or in Hx as [Hx|[<-|Hx]].
  - specialize (Hpre _ Hx). lia.
  - lia.
  - apply Hpost. exact Hx.
Qed.

Lemma first_latest_in grp s : first_latest grp s -> In s grp.
Proof. intros (pre & post & -> & _). apply in_elt. Qed.

Lemma dedup_step_inv seen d g :
  dict_inv seen d -> dict_inv (seen ++ [g]) (dedup_step d g).
Proof.
  intros (ND & Hent & Hcov). unfold dedup_step. cbv zeta.
  set (k := identity_key g).
  assert (Hother : forall k' v, In (k', v) d -> k' <> k ->
            identity_key v = k' /\ first_latest (group k' (seen ++ [g])) v).
  { intros k' v Hin Hne. destruct (Hent _ _ Hin) as [Hk Hfl]. split; [exact Hk|].
    rewrite group_snoc. fold k.
    replace (key_eqb k k') with false; [exact Hfl|].
    symmetry. apply key_eqb_neq. congruence. }
  destruct (dict_get k d) as [old|] eqn:Eg.
  - destruct (dict_set_old k g old d Eg) as (d1 & d2 & Ed & Es).
    assert (Hold : In (k, old) d) by (rewrite Ed; apply in_elt).
    destruct (Hent _ _ Hold) as [Hko Hflo].
    destruct (Z.ltb_spec (updated old) (updated g)) as [Hlt|Hge].
    + rewrite Es. split; [|split].
      * replace (map fst (d1 ++ (k, g) :: d2)) with (map fst d); [exact ND|].
        rewrite Ed, !map_app. reflexivity.
      * intros k' v Hin.
        apply in_app_or in Hin as [Hin|[E|Hin]].
        -- apply Hother; [rewrite Ed; apply in_or_app; auto|].
           intros ->. rewrite Ed, map_app in ND. simpl in ND.
           apply NoDup_remove_2 in ND. apply ND, in_or_app. left.
           apply (in_map fst) in Hin. exact Hin.
        -- injection E as <- <-. split; [reflexivity|].
           rewrite group_snoc. fold k. rewrite key_eqb_refl.
           exists (group k seen), []. split; [reflexivity|]. split; [|constructor].
           apply Forall_forall. intros x Hx.
           pose proof (first_latest_bound _ _ _ Hflo Hx). lia.
        -- apply Hother; [rewrite Ed; apply in_or_app; simpl; auto|].
           intros ->. rewrite Ed, map_app in ND. simpl in ND.
           apply NoDup_remove_2 in ND. apply ND, in_or_app. right.
           apply (in_map fst) in Hin. exact Hin.
      * intros x Hx. replace (map fst (d1 ++ (k, g) :: d2)) with (map fst d).
        2:{ rewrite Ed, !map_app. reflexivity. }
        apply in_app_or in Hx as [Hx|[<-|[]]]; [apply Hcov; exact Hx|].
        apply (in_map fst) in Hold. exact Hold.
    + split; [exact ND|split].
      * intros k' v Hin. destruct (key_eqb k k') eqn:E.
        -- apply key_eqb_eq in E. subst k'.
           assert (v = old) by (eapply nodup_keys_functional; eassumption). subst v.
           split; [exact Hko|].
           rewrite group_snoc. fold k. rewrite key_eqb_refl.
           destruct Hflo as (pre & post & -> & Hpre & Hpost).
           exists pre, (post ++ [g]). split; [rewrite <- app_assoc; reflexivity|].
           split; [exact Hpre|]. apply Forall_app. split; [exact Hpost|].
           constructor; [lia | constructor].
        -- apply Hother; [exact Hin|]. apply key_eqb_neq in E. congruence.
      * intros x Hx. apply in_app_or in Hx as [Hx|[<-|[]]]; [apply Hcov; exact Hx|].
        apply (in_map fst) in Hold. exact Hold.
  - rewrite (dict_set_new _ _ _ Eg).
    pose proof (proj1 (dict_get_none k d) Eg) as Hfresh.
    split; [|split].
    + rewrite map_app. simpl. apply NoDup_app; [exact ND | repeat constructor; tauto|].
      intros a Ha [<-|[]]. contradiction.
    + intros k' v Hin. apply in_app_or in Hin as [Hin|[E|[]]].
      * apply Hother; [exact Hin|]. intros ->. apply Hfresh.
        apply (in_map fst) in Hin. exact Hin.
      * injection E as <- <-. split; [reflexivity|].
        rewrite group_snoc. fold k. rewrite key_eqb_refl.
        assert (Hempty : group k seen = []).
        { destruct (group k seen) as [|x r] eqn:Egr; [reflexivity|]. exfalso.
          assert (Hx : In x (group k seen)) by (rewrite Egr; left; reflexivity).
          apply group_in in Hx as [Hx Hk]. apply Hfresh. rewrite <- Hk. apply Hcov, Hx. }
        rewrite Hempty. exists [], []. repeat split; constructor.
    + intros x Hx. rewrite map_app. apply in_or_app.
      apply in_app_or in Hx as [Hx|[<-|[]]]; [left; apply Hcov; exact Hx|].
      right. left. reflexivity.
Qed.

Lemma fold_dedup_inv l : forall seen d,
  dict_inv seen d -> dict_inv (seen ++ l) (fold_left dedup_step l d).
Proof.
  induction l as [|g r IH]; intros seen d H; simpl.
  - rewrite app_nil_r. exact H.
  - replace (seen ++ g :: r) with ((seen ++ [g]) ++ r) by (rewrite <- app_assoc; reflexivity).
    apply IH, dedup_step_inv, H.
Qed.

Lemma dict_inv_final l : dict_inv l (fold_left dedup_step l []).
Proof.
  apply (fold_dedup_inv l [] []).
  split; [constructor|]. split; intros; contradiction.
Qed.

(** Everything the merge keeps, stated once for the helper lemmas. *)
Lemma remove_duplicates_spec l :
  NoDup (map identity_key (remove_duplicates l)) /\
  (forall s, In s (remove_duplicates l) ->
     In s l /\ first_latest (group (identity_key s) l) s) /\
  (forall g, In g l ->
     exists s, In s (remove_duplicates l) /\ identity_key s = identity_key g).
Proof.
  destruct (dict_inv_final l) as (ND & Hent & Hcov).
  unfold remove_duplicates. set (d := fold_left dedup_step l []) in *.
  assert (Hkeys : map identity_key (map snd d) = map fst d).
  { rewrite map_map. apply map_ext_in. intros [k v] Hin.
    simpl. apply (Hent _ _ Hin). }
  split; [rewrite Hkeys; exact ND|]. split.
  - intros s Hs. apply in_map_iff in Hs as ([k v] & <- & Hin). simpl.
    destruct (Hent _ _ Hin) as [Hk Hfl]. rewrite Hk. split; [|exact Hfl].
    apply first_latest_in in Hfl. apply group_in in Hfl. tauto.
  - intros g Hg. specialize (Hcov g Hg).
    apply in_map_iff in Hcov as ([k v] & Hk & Hin). simpl in Hk. subst k.
    exists v. split; [apply in_map_iff; exists (identity_key g, v); auto|].
    apply (Hent _ _ Hin).
Qed.

Lemma nodup_map_injective {A B} (f : A -> B) l x y :
  NoDup (map f l) -> In x l -> In y l -> f x = f y -> x = y.
Proof.
  induction l as [|a r IH]; simpl; [tauto|].
  intros ND. apply NoDup_cons_iff in ND as [Hn ND].
  intros [<-|Hx] [<-|Hy] E.
  - reflexivity.
  - exfalso. apply Hn. rewrite E. apply in_map, Hy.
  - exfalso. apply Hn. rewrite <- E. apply in_map, Hx.
  - apply IH; assumption.
Qed.

Lemma remove_duplicates_pair a b :
  identity_key a = identity_key b ->
  remove_duplicates [a; b] = [if updated a <? updated b then b else a].
Proof.
  intros Hk. unfold remove_duplicates. cbn [fold_left].
  unfold dedup_step. cbn [dict_get dict_set].
  rewrite <- Hk, key_eqb_refl.
  destruct (updated a <? updated b); cbn [dict_set map snd];
    rewrite ?key_eqb_refl; reflexivity.
Qed.

(** C2. After the merge no two records share an identity key.  Every
    identity key of the input has exactly one survivor, a record of its
    group; the survivor is the first record of the group, in the order
    of the input (baseline, then fresh), that carries the greatest
    [last_updated].  So a record strictly newer than the rest of its
    group is the survivor, and of two colliding records with equal
    [last_updated] the first one survives. *)
Theorem merge_keeps_first_latest (l : list grant) :
  NoDup (map identity_key (remove_duplicates l)) /\
  (forall g, In g l ->
     exists s, In s (remove_duplicates l) /\ identity_key s = identity_key g /\
       forall s', In s' (remove_duplicates l) -> identity_key s' = identity_key g -> s' = s) /\
  (forall s, In s (remove_duplicates l) ->
     In s l /\ first_latest (group (identity_key s) l) s) /\
  (forall g s, In g l -> In s (remove_duplicates l) ->
     identity_key s = identity_key g ->
     (forall x, In x l -> identity_key x = identity_key g -> x = g \/ updated x < updated g) ->
     s = g) /\
  (forall a b, identity_key a = identity_key b ->
     (updated a < updated b -> remove_duplicates [a; b] = [b]) /\
     (updated b <= updated a -> remove_duplicates [a; b] = [a])).
Proof.
  destruct (remove_duplicates_spec l) as (ND & Hsurv & Hcov).
  split; [exact ND|]. split; [|split; [exact Hsurv|split]].
  - intros g Hg. destruct (Hcov g Hg) as (s & Hs & Hk).
    exists s. split; [exact Hs|]. split; [exact Hk|].
    intros s' Hs' Hk'. eapply nodup_map_injective; try eassumption. congruence.
  - intros g s Hg Hs Hk Hnewest.
    destruct (Hsurv s Hs) as [Hsl Hfl].
    destruct (Hnewest s Hsl Hk) as [E|Hlt]; [exact E|]. exfalso.
    assert (Hin : In g (group (identity_key s) l)) by (apply group_in; auto).
    pose proof (first_latest_bound _ _ _ Hfl Hin). lia.
  - intros a b Hk. rewrite (remove_duplicates_pair a b Hk).
    split; intros H; destruct (Z.ltb_spec (updated a) (updated b)); try reflexivity; lia.
Qed.

(** The witness of [merge_keeps_first_latest]: a baseline record and a
    newer fresh record with the same identity key. *)
Lemma merge_keeps_first_latest_witness :
  let a := mk_grant " Grant X" "nih" "" None [] None (Some 1) "" None None in
  let b := mk_grant "grant x " "NIH" "" None [] None (Some 2) "" None None in
  In b (remove_duplicates [a; b]).
Proof.
  intros a b.
  destruct (merge_keeps_first_latest [a; b]) as (_ & Hex & _ & Hnew & _).
  destruct (Hex b (or_intror (or_introl eq_refl))) as (s & Hs & Hk & _).
  assert (E : s = b).
  { apply Hnew; [right; left; reflexivity | exact Hs | exact Hk |].
    intros x [<-|[<-|[]]] _; [right; reflexivity | left; reflexivity]. }
  rewrite E in Hs. exact Hs.
Defined.

(** ** Staleness window *)

Lemma minus_days_some t :
  7 * us_per_day <= t <= DateTime.max ->
  minus_days t 7 = Some (t - 7 * us_per_day).
Proof.
  intros H. unfold minus_days. cbv zeta.
  assert (Hday : 0 < us_per_day) by reflexivity.
  assert (Hmin : DateTime.min = 0) by reflexivity.
  destruct (Z.leb_spec DateTime.min (t - 7 * us_per_day)); [|lia].
  destruct (Z.leb_spec (t - 7 * us_per_day) DateTime.max); [|lia].
  reflexivity.
Qed.

Lemma load_baseline_forced env existing clk n :
  force_refresh env = true -> load_baseline env existing clk n = Some ([], n).
Proof. intros H. unfold load_baseline. rewrite H. reflexivity. Qed.

Lemma load_baseline_window env existing clk n :
  force_refresh env = false ->
  7 * us_per_day <= clk n <= DateTime.max ->
  load_baseline env existing clk n
    = Some (filter (fun g => clk n - 7 * us_per_day <? updated g) existing, S n).
Proof.
  intros Hf Hr. unfold load_baseline. rewrite Hf. simpl.
  unfold bind, now. rewrite (minus_days_some _ Hr). reflexivity.
Qed.

Lemma load_baseline_sound env existing clk n baseline n' :
  load_baseline env existing clk n = Some (baseline, n') ->
  forall g, In g baseline -> In g existing /\ force_refresh env = false /\
                             clk n - 7 * us_per_day < updated g.
Proof.
  unfold load_baseline. destruct (force_refresh env); simpl.
  - intros [= <- <-] g [].
  - unfold bind, now, of_option, minus_days. cbv zeta.
    destruct (_ && _); [|discriminate]. unfold ret. intros [= <- <-] g Hg.
    apply filter_In in Hg as [Hg Hlt]. apply Z.ltb_lt in Hlt. auto.
Qed.

Lemma recurring_deadline_total y s : total (recurring_deadline y s).
Proof.
  unfold recurring_deadline.
  destruct (strptime false _); [|apply total_ret].
  apply total_bind; [apply total_now|]. intros t.
  destruct (t <? d); [apply total_ret|].
  destruct (strptime false _); apply total_ret.
Qed.

Lemma generate_recurring_deadlines_total l : total (generate_recurring_deadlines l).
Proof.
  unfold generate_recurring_deadlines. totality. apply recurring_deadline_total.
Qed.

Lemma static_entry_total t a u ds am de el : total ds -> total (static_entry t a u ds am de el).
Proof. intros H. unfold static_entry. totality. exact H. Qed.

Lemma sequence_total {A} (l : list (M A)) : Forall total l -> total (sequence l).
Proof.
  induction 1 as [|m r Hm _ IH]; simpl; [apply total_ret|].
  apply total_bind; [exact Hm|]. intros a.
  apply total_bind; [exact IH|]. intros rest. apply total_ret.
Qed.

Lemma scrape_static_opportunities_total self : total (scrape_static_opportunities self).
Proof.
  unfold scrape_static_opportunities.
  apply total_bind; [|intros gs; apply total_ret].
  apply sequence_total. unfold static_grants.
  repeat constructor; apply static_entry_total;
    try apply generate_recurring_deadlines_total;
    (apply total_bind; [|intros d; apply total_ret]);
    unfold literal_date; simpl; apply total_ret.
Qed.

Lemma collect_total self parse p : (forall pg, total (parse pg)) -> total (collect self parse p).
Proof. intros H. unfold collect. destruct p; totality. apply H. Qed.

Lemma parse_nih_grant_page_total findall p : total (parse_nih_grant_page findall p).
Proof.
  unfold parse_nih_grant_page, nih_deadlines. cbv zeta.
  apply total_bind; [apply extract_deadlines_total, nih_deadline_token_total|].
  intros ds. totality.
Qed.

Lemma parse_nsf_grant_page_total findall p : total (parse_nsf_grant_page findall p).
Proof.
  unfold parse_nsf_grant_page, nsf_deadlines. cbv zeta.
  apply total_bind; [apply extract_deadlines_total, comma_deadline_token_total|].
  intros ds. totality.
Qed.

Lemma scrape_foundation_section_total findall f sec :
  total (scrape_foundation_section findall f sec).
Proof.
  unfold scrape_foundation_section, foundation_deadlines.
  destruct (section_heading sec); [|apply total_ret]. cbv zeta.
  apply total_bind; [apply extract_deadlines_total, comma_deadline_token_total|].
  intros ds. destruct (_ && _); totality.
Qed.

Lemma fresh_total w : total (fresh w).
Proof.
  unfold fresh. cbv zeta.
  apply total_bind; [apply scrape_static_opportunities_total|]. intros s.
  apply total_bind.
  { unfold scrape_nih_grants. apply total_concatM. intros p.
    apply collect_total, parse_nih_grant_page_total. }
  intros a. apply total_bind.
  { unfold scrape_nsf_grants. apply total_concatM. intros p.
    destruct (is_nsf_grant_page _); [|apply total_ret].
    apply collect_total, parse_nsf_grant_page_total. }
  intros b. apply total_bind; [|intros c; apply total_ret].
  unfold scrape_foundation_grants. apply total_concatM. intros [f p].
  unfold scrape_foundation_page. simpl. destruct p; [|apply total_ret].
  apply total_concatM. intros sec. apply scrape_foundation_section_total.
Qed.

Lemma remove_duplicates_incl l s : In s (remove_duplicates l) -> In s l.
Proof. intros H. apply (remove_duplicates_spec l), H. Qed.

(** C5. With the force-full-refresh flag set the merge baseline is
    empty.  With the flag unset (and the clock at least a week after
    [datetime.min]) the baseline holds exactly the persisted records
    whose [last_updated] is later than seven days before the reading of
    the clock, the run reaches the merge, and a persisted record that is
    not later than that and whose identity key no collector produced in
    this run is not in the merged output; an output record with its
    identity key can only be another, recent enough record of the
    baseline. *)
Theorem staleness_window (w : world) (clk : nat -> datetime) (n : nat) :
  (force_refresh (w_env w) = true ->
   load_baseline (w_env w) (w_existing w) clk n = Some ([], n)) /\
  (force_refresh (w_env w) = false ->
   7 * us_per_day <= clk n <= DateTime.max ->
   exists baseline collected n',
     load_baseline (w_env w) (w_existing w) clk n = Some (baseline, S n) /\
     (forall g, In g baseline <->
                In g (w_existing w) /\ clk n - 7 * us_per_day < updated g) /\
     fresh w clk (S n) = Some (collected, n') /\
     merged w clk n = Some (remove_duplicates (baseline ++ collected), n') /\
     (forall r, In r (w_existing w) ->
        updated r <= clk n - 7 * us_per_day ->
        (forall f, In f collected -> identity_key f <> identity_key r) ->
        ~ In r (remove_duplicates (baseline ++ collected)) /\
        (forall s, In s (remove_duplicates (baseline ++ collected)) ->
           identity_key s = identity_key r -> In s baseline))).
Proof.
  split; [apply load_baseline_forced|].
  intros Hf Hr.
  pose proof (load_baseline_window _ (w_existing w) clk n Hf Hr) as Eb.
  destruct (fresh_total w clk (S n)) as (collected & n' & Ec & _).
  eexists _, collected, n'. split; [exact Eb|].
  assert (Hin : forall g,
             In g (filter (fun g => clk n - 7 * us_per_day <? updated g) (w_existing w)) <->
             In g (w_existing w) /\ clk n - 7 * us_per_day < updated g).
  { intros g. rewrite filter_In, Z.ltb_lt. reflexivity. }
  split; [exact Hin|]. split; [exact Ec|]. split.
  - unfold merged, collect_all, bind. rewrite Eb, Ec. reflexivity.
  - intros r Hr_in Hold Hnot.
    assert (Hs : forall s, In s (remove_duplicates
                   (filter (fun g => clk n - 7 * us_per_day <? updated g) (w_existing w)
                    ++ collected)) ->
                 identity_key s = identity_key r ->
                 In s (filter (fun g => clk n - 7 * us_per_day <? updated g) (w_existing w))).
    { intros s Hs Hk. apply remove_duplicates_incl in Hs.
      apply in_app_or in Hs as [Hs|Hs]; [exact Hs|].
      exfalso. exact (Hnot s Hs Hk). }
    split; [|exact Hs].
    intros Hout. specialize (Hs r Hout eq_refl). apply Hin in Hs. lia.
Qed.

(** The witness of [staleness_window]: a snapshot with one record last
    updated eight days before the run, nothing fetched, the flag unset. *)
Lemma staleness_window_witness :
  let t := noon_2026_11_03 in
  let r := mk_grant "x" "y" "" None [] None (Some (t - 8 * us_per_day)) "" None None in
  let w := mk_world (fun _ => None) (fun _ _ _ => []) [r] [] [] [] in
  exists out n', merged w (fun _ => t) 0%nat = Some (out, n') /\ ~ In r out.
Proof.
  intros t r w.
  destruct (staleness_window w (fun _ => t) 0%nat) as [_ H].
  destruct H as (baseline & collected & n' & _ & _ & Ec & Em & Hr).
  - reflexivity.
  - split; vm_compute; discriminate.
  - exists (remove_duplicates (baseline ++ collected)), n'. split; [exact Em|].
    apply Hr.
    + left. reflexivity.
    + vm_compute. discriminate.
    + vm_compute in Ec. injection Ec as <- _.
      intros f [<-|[]]. vm_compute. discriminate.
Defined.

(** C10. A record without [last_updated] counts as last updated at
    [datetime.min].  The staleness filter never lets it into the
    baseline.  In the merge it does not survive next to a colliding
    record whose [last_updated] is later than [datetime.min]; it never
    replaces a record that arrived before it; arriving first it is kept
    exactly when the other record is not later than [datetime.min],
    that is, lacks the field too or holds [datetime.min] itself. *)
Theorem missing_last_updated_minimal (r : grant) :
  last_updated r = None ->
  updated r = DateTime.min /\
  (forall env existing clk n,
     force_refresh env = true \/ 7 * us_per_day <= clk n <= DateTime.max ->
     exists baseline n',
       load_baseline env existing clk n = Some (baseline, n') /\ ~ In r baseline) /\
  (forall l b, In b l -> identity_key b = identity_key r ->
     DateTime.min < updated b -> ~ In r (remove_duplicates l)) /\
  (forall b, identity_key b = identity_key r -> DateTime.min <= updated b ->
     remove_duplicates [b; r] = [b] /\
     remove_duplicates [r; b] = [if DateTime.min <? updated b then b else r]).
Proof.
  intros Hnone.
  assert (Hmin : updated r = DateTime.min) by (unfold updated; rewrite Hnone; reflexivity).
  split; [exact Hmin|]. split; [|split].
  - intros env existing clk n Hcase.
    assert (Hsome : exists baseline n',
               load_baseline env existing clk n = Some (baseline, n')).
    { destruct (force_refresh env) eqn:Ef.
      - eexists _, _. apply load_baseline_forced, Ef.
      - destruct Hcase as [|Hr]; [discriminate|].
        eexists _, _. apply load_baseline_window; assumption. }
    destruct Hsome as (baseline & n' & E). exists baseline, n'. split; [exact E|].
    intros Hin. destruct (load_baseline_sound _ _ _ _ _ _ E r Hin) as (_ & Ef & Hlt).
    destruct Hcase as [Ht|Hr]; [congruence|].
    rewrite Hmin in Hlt. assert (DateTime.min = 0) by reflexivity. lia.
  - intros l b Hb Hk Hlt Hout.
    destruct (remove_duplicates_spec l) as (_ & Hsurv & _).
    destruct (Hsurv r Hout) as [_ Hfl].
    assert (Hin : In b (group (identity_key r) l)) by (apply group_in; auto).
    pose proof (first_latest_bound _ _ _ Hfl Hin). lia.
  - intros b Hk Hvalid. split.
    + rewrite (remove_duplicates_pair b r Hk). rewrite Hmin.
      destruct (Z.ltb_spec (updated b) DateTime.min); [lia | reflexivity].
    + rewrite (remove_duplicates_pair r b (eq_sym Hk)). rewrite Hmin. reflexivity.
Qed.

(** The witness of [missing_last_updated_minimal]: a record without the
    field and a fresh one with the same title and agency. *)
Lemma missing_last_updated_minimal_witness :
  let r := mk_grant "x" "y" "" None [] None None "" None None in
  let b := mk_grant "X " "Y" "" None [] None (Some noon_2026_11_03) "" None None in
  remove_duplicates [r; b] = [b] /\ remove_duplicates [b; r] = [b].
Proof.
  intros r b.
  destruct (missing_last_updated_minimal r eq_refl) as (_ & _ & _ & H).
  destruct (H b eq_refl) as [H1 H2].
  - vm_compute. discriminate.
  - split; [exact H2 | exact H1].
Defined.

(** The statement of C10 as the specification has it fails: a record
    whose [last_updated] is [datetime.min] has a value for the field,
    and the record without the field, seen first, survives next to it. *)
Lemma missing_last_updated_ties_with_minimum :
  ~ (forall r b : grant,
       last_updated r = None -> last_updated b <> None ->
       identity_key b = identity_key r ->
       ~ In r (remove_duplicates [r; b])).
Proof.
  intros H.
  apply (H (mk_grant "x" "y" "" None [] None None "" None None)
           (mk_grant "x" "y" "" None [] None (Some DateTime.min) "" None None)).
  - reflexivity.
  - discriminate.
  - reflexivity.
  - left. reflexivity.
Qed.

(** ** Relevance filter *)

Lemma prefix_iff a b : String.prefix a b = true <-> exists post, b = (a ++ post)%string.
Proof.
  revert b. induction a as [|c a IH]; intros b.
  - split; [intros _; exists b; reflexivity | intros _; destruct b; reflexivity].
  - destruct b as [|d b]; simpl.
    + split; [discriminate | intros [post E]; discriminate].
    + destruct (Ascii.ascii_dec c d) as [->|N].
      * rewrite IH. split; intros [post E]; exists post; congruence.
      * split; [discriminate | intros [post E]; congruence].
Qed.

Lemma contains_iff a b : contains a b = true <-> Substring a b.
Proof.
  unfold Substring. induction b as [|d b IH]; cbn [contains].
  - rewrite orb_false_r, prefix_iff. split.
    + intros [post E]. exists EmptyString, post. exact E.
    + intros (pre & post & E). destruct pre; [exists post; exact E | discriminate].
  - rewrite orb_true_iff, IH, prefix_iff. split.
    + intros [[post E]|(pre & post & E)].
      * exists EmptyString, post. exact E.
      * exists (String d pre), post. simpl. rewrite E. reflexivity.
    + intros (pre & post & E). destruct pre as [|c pre]; simpl in E.
      * left. exists post. exact E.
      * right. injection E as _ E. exists pre, post. exact E.
Qed.

Lemma existsb_contains (test : string -> bool) (P : string -> Prop) l :
  (forall x, test x = true <-> P x) ->
  existsb test l = true <-> exists x, In x l /\ P x.
Proof.
  intros H. rewrite existsb_exists. split; intros (x & Hx & Hp); exists x; split; auto; apply H; auto.
Qed.

(** C7. The relevance filter answers (area match or domain-keyword
    match) and career match.  The first two look for a configured
    research area, or a keyword of the fixed list, in the lower-cased
    title and description.  The career test passes a record without
    eligibility tags and otherwise asks that some tag, exactly as it is
    written, occurs in the configured career stage or the stage in the
    tag; the stage was lower-cased when the configuration was read, the
    tags are not.  A record with the one tag [postdoc] is not relevant
    under the stage [graduate student], whatever its text. *)
Theorem relevance_filter (self : tracker) (g : grant) :
  let text :=
    lower (title g ++ " " ++ match description g with Some d => d | None => "" end)%string in
  let tags := match eligibility g with Some l => l | None => [] end in
  (is_relevant_grant self g = true <->
   ((exists area, In area (research_areas self) /\ Substring area text) \/
    (exists keyword, In keyword neuro_keywords /\ Substring keyword text)) /\
   (tags = [] \/
    exists tag, In tag tags /\
      (Substring tag (career_stage self) \/ Substring (career_stage self) tag))) /\
  (career_stage self = "graduate student"%string -> eligibility g = Some ["postdoc"%string] ->
   is_relevant_grant self g = false) /\
  (forall env, career_stage (init env) = lower (getenv env "CAREER_STAGE" "postdoc")).
Proof.
  cbv zeta. split; [|split].
  - unfold is_relevant_grant, area_match, neuro_match, career_match, text_to_check.
    rewrite andb_true_iff, orb_true_iff.
    rewrite (existsb_contains _ (fun area => Substring area _) _ (fun x => contains_iff x _)).
    rewrite (existsb_contains _ (fun kw => Substring kw _) _ (fun x => contains_iff x _)).
    apply and_iff_compat_l.
    destruct (eligibility g) as [[|tag tags]|].
    + split; auto.
    + rewrite (existsb_contains _
                 (fun stage => Substring stage (career_stage self)
                               \/ Substring (career_stage self) stage)).
      * split; [intros H; right; exact H | intros [E|H]; [discriminate | exact H]].
      * intros x. rewrite orb_true_iff, !contains_iff. reflexivity.
    + split; auto.
  - intros Hs He. unfold is_relevant_grant, career_match. rewrite He, Hs.
    apply andb_false_r.
  - reflexivity.
Qed.

(** The witness of [relevance_filter]: the postdoctoral fellowship of
    the static catalog under the career stage of a graduate student. *)
Lemma relevance_filter_witness :
  is_relevant_grant
    (mk_tracker ["neuroscience"%string] "graduate student")
    (mk_grant "Neuroscience Fellowship" "NIH" "" None [] None None "static"
              (Some ["postdoc"%string]) None) = false.
Proof.
  apply (relevance_filter
           (mk_tracker ["neuroscience"%string] "graduate student")
           (mk_grant "Neuroscience Fellowship" "NIH" "" None [] None None "static"
                     (Some ["postdoc"%string]) None)); reflexivity.
Defined.

(** The statement of C7 as the specification has it fails: the tag
    [Postdoc] matches the stage [postdoc] when case is set aside, and
    the filter rejects the record. *)
Lemma eligibility_tags_case_sensitive :
  ~ (forall self g,
       is_relevant_grant self g
       = (area_match self g || neuro_match g) && career_match_any_case (career_stage self) g).
Proof.
  intros H.
  specialize (H (init (fun _ => None))
                (mk_grant "Brain Award" "NIH" "" None [] None None "nih"
                          (Some ["Postdoc"%string]) None)).
  vm_compute in H. discriminate.
Qed.

(** ** Recurrence generator *)

Lemma str_app_assoc a b c : ((a ++ b) ++ c = a ++ (b ++ c))%string.
Proof. induction a as [|x a IH]; simpl; [reflexivity | rewrite IH; reflexivity]. Qed.

Lemma match_ci_lower name rest : match_ci (lower name) (name ++ rest) = Some rest.
Proof.
  induction name as [|c name IH]; simpl; [reflexivity|].
  rewrite Ascii.eqb_refl. exact IH.
Qed.

Lemma match_ci_clash p name rest :
  String.prefix p (lower name) = false -> String.prefix (lower name) p = false ->
  match_ci p (name ++ rest) = None.
Proof.
  revert name. induction p as [|a p IH]; intros name H1 H2.
  - destruct (lower name); discriminate.
  - destruct name as [|c name]; [discriminate|]. simpl in *.
    destruct (Ascii.eqb_spec (lower_char c) a) as [E|N]; [|reflexivity].
    rewrite E in H1, H2.
    destruct (ascii_dec a a) as [_|F]; [|contradiction].
    apply IH; assumption.
Qed.

Lemma parse_month_found names name m rest :
  prefix_free names = true -> In (lower name, m) names ->
  parse_month names (name ++ rest) = Some (m, rest).
Proof.
  induction names as [|[p mp] r IH]; simpl; [tauto|].
  rewrite andb_true_iff. intros [Hp Hr] [E|Hin].
  - injection E as -> ->. rewrite match_ci_lower. reflexivity.
  - rewrite forallb_forall in Hp. specialize (Hp _ Hin). simpl in Hp.
    apply andb_true_iff in Hp as [Hp1 Hp2].
    apply negb_true_iff in Hp1, Hp2.
    rewrite (match_ci_clash _ _ _ Hp1 Hp2). apply IH; assumption.
Qed.

Lemma digit_not_space c : is_digit c = true -> is_space c = false.
Proof. destruct c as [[] [] [] [] [] [] [] []]; vm_compute; congruence. Qed.

Lemma lstrip_spaces ws rest : all_space ws = true -> lstrip (ws ++ rest) = lstrip rest.
Proof.
  induction ws as [|c ws IH]; simpl; [reflexivity|].
  rewrite andb_true_iff. intros [-> H]. apply IH, H.
Qed.

Lemma skip_spaces1_spaces ws x :
  ws <> EmptyString -> all_space ws = true ->
  (exists c r, x = String c r /\ is_space c = false) ->
  skip_spaces1 (ws ++ x) = Some x.
Proof.
  destruct ws as [|w ws]; [contradiction|]. cbn [append skip_spaces1 all_space].
  rewrite andb_true_iff. intros _ [-> H] (c & r & -> & Hc).
  rewrite (lstrip_spaces _ _ H). cbn [lstrip]. rewrite Hc. reflexivity.
Qed.

Lemma parse_day_digits dd d sp rest :
  day_digits dd d -> is_space sp = true ->
  parse_day (dd ++ String sp rest) = Some (d, String sp rest).
Proof.
  intros Hd Hsp. destruct Hd as [c Hc Hz | c1 c2 H1 H2 Hr]; cbn [append parse_day].
  - assert (Hs : is_digit sp = false).
    { destruct (is_digit sp) eqn:E; [|reflexivity].
      apply digit_not_space in E. congruence. }
    rewrite Hc, Hs. cbn [andb negb].
    destruct (Ascii.eqb_spec c "0"%char); [contradiction | reflexivity].
  - rewrite H1, H2. cbn [andb]. cbv zeta.
    destruct (Z.leb_spec 1 (10 * digit_val c1 + digit_val c2)); [|lia].
    destruct (Z.leb_spec (10 * digit_val c1 + digit_val c2) 31); [|lia].
    reflexivity.
Qed.

Lemma parse_year_end_digit y4 y :
  parse_year_end y4 = Some y -> exists a r, y4 = String a r /\ is_digit a = true.
Proof.
  destruct y4 as [|a r]; [discriminate|]. intros H. exists a, r. split; [reflexivity|].
  simpl in H. destruct r as [|b [|c [|d [|]]]]; try discriminate.
  destruct (is_digit a); [reflexivity | discriminate].
Qed.

(** [strptime] on a "Month Day" string followed by a blank and a year
    of four digits. *)
Lemma strptime_month_day s m d y4 y :
  month_day s m d -> parse_year_end y4 = Some y ->
  strptime false (s ++ " " ++ y4) = DateTime.make y m d.
Proof.
  intros (name & ws & dd & trail & -> & Hname & Hws & Hsp & Hdd & Htr) Hy.
  destruct (parse_year_end_digit _ _ Hy) as (a & r & -> & Ha).
  assert (Hrest : exists sp rest,
             (trail ++ " " ++ String a r)%string = String sp rest /\ is_space sp = true /\
             skip_spaces1 (String sp rest) = Some (String a r)).
  { assert (Hlast : skip_spaces1 (String " " (String a r)) = Some (String a r)).
    { cbn [skip_spaces1 lstrip]. rewrite (digit_not_space _ Ha). reflexivity. }
    destruct trail as [|t trail].
    - exists " "%char, (String a r). split; [reflexivity|]. split; [reflexivity | exact Hlast].
    - cbn [all_space] in Htr. apply andb_true_iff in Htr as [Ht Htr].
      exists t, (trail ++ " " ++ String a r)%string.
      split; [reflexivity|]. split; [exact Ht|].
      cbn [skip_spaces1]. rewrite Ht.
      rewrite (lstrip_spaces trail _ Htr).
      cbn [append lstrip]. change (is_space " ") with true. cbn iota.
      cbn [lstrip]. rewrite (digit_not_space _ Ha). reflexivity. }
  destruct Hrest as (sp & rest & Erest & Hspc & Hskip).
  unfold strptime.
  rewrite !str_app_assoc.
  rewrite (parse_month_found month_names name m _ eq_refl Hname).
  cbn [bind_opt].
  rewrite (skip_spaces1_spaces ws _ Hws Hsp).
  2:{ destruct Hdd as [c Hc _ | c1 c2 H1 _ _]; eexists _, _; (split; [reflexivity|]);
        apply digit_not_space; assumption. }
  cbn [bind_opt]. rewrite Erest.
  rewrite (parse_day_digits dd d sp rest Hdd Hspc).
  cbn [bind_opt]. rewrite Hskip. cbn [bind_opt]. rewrite Hy. reflexivity.
Qed.

Lemma year_strings_checked : forallb year_string_ok (seq 1000 (Z.to_nat 9000)) = true.
Proof. vm_compute. reflexivity. Qed.

(** A year of four digits is written and read back as itself. *)
Lemma parse_year_of_Z y : 1000 <= y <= 9999 -> parse_year_end (of_Z y) = Some y.
Proof.
  intros H. pose proof year_strings_checked as Hall.
  rewrite forallb_forall in Hall. specialize (Hall (Z.to_nat y)).
  unfold year_string_ok in Hall. rewrite Z2Nat.id in Hall by lia.
  destruct (parse_year_end (of_Z y)) as [v|].
  - f_equal. apply Z.eqb_eq. apply Hall. apply in_seq. lia.
  - discriminate Hall. apply in_seq. lia.
Qed.

Lemma recurring_deadline_month_day y s m d d1 d2 clk k :
  1000 <= y <= 9998 -> month_day s m d ->
  DateTime.make y m d = Some d1 -> DateTime.make (y + 1) m d = Some d2 ->
  recurring_deadline y s clk k = Some ([if clk k <? d1 then d1 else d2], S k).
Proof.
  intros Hy Hmd H1 H2. unfold recurring_deadline.
  rewrite (strptime_month_day s m d _ y Hmd) by (apply parse_year_of_Z; lia).
  rewrite H1. unfold bind, now.
  destruct (clk k <? d1); [reflexivity|].
  rewrite (strptime_month_day s m d _ (y + 1) Hmd) by (apply parse_year_of_Z; lia).
  rewrite H2. reflexivity.
Qed.

Lemma concat_recurring y clk l :
  1000 <= y <= 9998 -> Forall (recurs_in y) l ->
  forall k, exists out,
    concatM (recurring_deadline y) l clk k = Some (out, (k + List.length l)%nat) /\
    List.length out = List.length l /\
    forall i s m d d1 d2,
      nth_error l i = Some s -> month_day s m d ->
      DateTime.make y m d = Some d1 -> DateTime.make (y + 1) m d = Some d2 ->
      nth_error out i = Some (if clk (k + i)%nat <? d1 then d1 else d2).
Proof.
  intros Hy Hall. induction Hall as [|s r Hs _ IH]; intros k.
  - exists []. simpl. rewrite Nat.add_0_r. repeat split.
    intros i s m d d1 d2 H. destruct i; discriminate.
  - destruct Hs as (m0 & d0 & a0 & b0 & Hmd0 & Ha0 & Hb0).
    pose proof (recurring_deadline_month_day y s m0 d0 a0 b0 clk k Hy Hmd0 Ha0 Hb0) as E0.
    destruct (IH (S k)) as (out & Eout & Hlen & Hnth).
    exists ((if clk k <? a0 then a0 else b0) :: out).
    split; [|split].
    + cbn [concatM]. unfold bind. rewrite E0, Eout. unfold ret. simpl.
      do 2 f_equal. lia.
    + simpl. rewrite Hlen. reflexivity.
    + intros i s' m d d1 d2 Hi Hmd H1 H2. destruct i as [|i]; simpl in Hi |- *.
      * injection Hi as <-.
        pose proof (recurring_deadline_month_day y s m d d1 d2 clk k Hy Hmd H1 H2) as E1.
        rewrite E0 in E1. rewrite Nat.add_0_r. congruence.
      * replace (k + S i)%nat with (S k + i)%nat by lia.
        eapply Hnth; eassumption.
Qed.

Lemma april_8_checked : forallb april_8_ok (seq 1000 (Z.to_nat 8999)) = true.
Proof. vm_compute. reflexivity. Qed.

Lemma concatM_skip {A B} (f : A -> M (list B)) l1 a l2 clk :
  (forall k, f a clk k = Some ([], k)) ->
  forall k, concatM f (l1 ++ a :: l2) clk k = concatM f (l1 ++ l2) clk k.
Proof.
  intros Ha. induction l1 as [|x l1 IH]; intros k; simpl; unfold bind.
  - rewrite Ha. destruct (concatM f l2 clk k) as [[cs k']|]; reflexivity.
  - destruct (f x clk k) as [[bs k1]|]; [|reflexivity]. rewrite IH. reflexivity.
Qed.

(** C8. Let the year read at the start have four digits, and the next
    one too.  A "Month Day" string whose date exists in both years
    yields, with one reading of the clock, that month and day of the
    current year when it is strictly after the reading, and of the
    following year otherwise.  A list of such strings yields exactly one
    date per string, in order.  An entry that [strptime] rejects for the
    current year yields nothing, raises nothing and reads no clock, so
    the generator treats a list as if the entry were not in it.
    "April 8" gives April 8 of year Y on March 1 of Y and April 8 of
    Y+1 on May 1 of Y. *)
Theorem recurring_deadlines_roll_forward (clk : nat -> datetime) (n : nat) (l : list string) :
  let y := DateTime.year (clk n) in
  1000 <= y <= 9998 ->
  (forall s m d d1 d2 k,
     month_day s m d ->
     DateTime.make y m d = Some d1 -> DateTime.make (y + 1) m d = Some d2 ->
     recurring_deadline y s clk k = Some ([if clk k <? d1 then d1 else d2], S k)) /\
  (Forall (recurs_in y) l ->
   exists out,
     generate_recurring_deadlines l clk n = Some (out, (S n + List.length l)%nat) /\
     List.length out = List.length l /\
     forall i s m d d1 d2,
       nth_error l i = Some s -> month_day s m d ->
       DateTime.make y m d = Some d1 -> DateTime.make (y + 1) m d = Some d2 ->
       nth_error out i = Some (if clk (S n + i)%nat <? d1 then d1 else d2)) /\
  (forall s k,
     strptime false (s ++ " " ++ of_Z y) = None ->
     recurring_deadline y s clk k = Some ([], k)) /\
  (forall l1 s l2,
     strptime false (s ++ " " ++ of_Z y) = None ->
     generate_recurring_deadlines (l1 ++ s :: l2) clk n
     = generate_recurring_deadlines (l1 ++ l2) clk n) /\
  (forall year march_1 may_1,
     1000 <= year <= 9998 ->
     DateTime.make year 3 1 = Some march_1 -> DateTime.make year 5 1 = Some may_1 ->
     exists this_year next_year,
       DateTime.make year 4 8 = Some this_year /\
       DateTime.make (year + 1) 4 8 = Some next_year /\
       generate_recurring_deadlines ["April 8"%string] (fun _ => march_1) 0%nat
         = Some ([this_year], 2%nat) /\
       generate_recurring_deadlines ["April 8"%string] (fun _ => may_1) 0%nat
         = Some ([next_year], 2%nat)).
Proof.
  intros y Hy. split; [|split; [|split; [|split]]].
  - intros s m d d1 d2 k. apply recurring_deadline_month_day, Hy.
  - intros Hall. destruct (concat_recurring y clk l Hy Hall (S n)) as (out & E & Hlen & Hnth).
    exists out. split; [|split; [exact Hlen | exact Hnth]].
    unfold generate_recurring_deadlines, bind, now. cbv zeta. exact E.
  - intros s k E. unfold recurring_deadline. rewrite E. reflexivity.
  - intros l1 s l2 E. unfold generate_recurring_deadlines, bind, now. cbv zeta.
    apply concatM_skip. intros k. unfold recurring_deadline. fold y. rewrite E. reflexivity.
  - intros year march_1 may_1 Hyear H1 H2.
    pose proof april_8_checked as Hall. rewrite forallb_forall in Hall.
    specialize (Hall (Z.to_nat year)). unfold april_8_ok in Hall. cbv zeta in Hall.
    rewrite Z2Nat.id in Hall by lia. rewrite H1, H2 in Hall.
    assert (Hin : In (Z.to_nat year) (seq 1000 (Z.to_nat 8999))) by (apply in_seq; lia).
    specialize (Hall Hin).
    destruct (DateTime.make year 4 8) as [a|]; [|discriminate].
    destruct (DateTime.make (year + 1) 4 8) as [b|]; [|discriminate].
    exists a, b. split; [reflexivity|]. split; [reflexivity|].
    destruct (generate_recurring_deadlines _ (fun _ => march_1) 0%nat)
      as [[[|x [|? ?]] [|[|[|?]]]]|]; try discriminate.
    destruct (generate_recurring_deadlines _ (fun _ => may_1) 0%nat)
      as [[[|x' [|? ?]] [|[|[|?]]]]|]; try discriminate.
    apply andb_true_iff in Hall as [Ha Hb].
    apply Z.eqb_eq in Ha, Hb. subst. split; reflexivity.
Qed.

Lemma month_day_april_8 : month_day "April 8" 4 8.
Proof.
  exists "April"%string, " "%string, "8"%string, EmptyString.
  split; [reflexivity|]. split; [simpl; tauto|]. split; [discriminate|].
  split; [reflexivity|]. split; [|reflexivity].
  apply (day_one "8"%char); [reflexivity | discriminate].
Defined.

(** The witness of [recurring_deadlines_roll_forward]: "April 8" on
    3 November 2026. *)
Lemma recurring_deadlines_roll_forward_witness :
  recurring_deadline 2026 "April 8" (fun _ => noon_2026_11_03) 0%nat
  = option_map (fun d => ([d], 1%nat)) (DateTime.make 2027 4 8).
Proof.
  destruct (recurring_deadlines_roll_forward (fun _ => noon_2026_11_03) 0%nat [])
    as (H & _).
  - vm_compute. split; discriminate.
  - exact (H "April 8"%string 4 8 63911203200000000 63942739200000000 0%nat
             month_day_april_8 eq_refl eq_refl).
Defined.

(** The statement of C8 as the specification has it fails: on 1 March
    2024 the entry "February 29" is a date of the current year, it has
    passed, and there is none in 2025; the entry is dropped. *)
Lemma february_29_dropped :
  ~ (forall clk n s d1,
       strptime false (s ++ " " ++ of_Z (DateTime.year (clk n))) = Some d1 ->
       exists d n', generate_recurring_deadlines [s] clk n = Some ([d], n')).
Proof.
  intros H.
  destruct (H (fun _ => 63844848000000000) 0%nat "February 29"%string 63844761600000000)
    as (d & n' & E).
  - vm_compute. reflexivity.
  - vm_compute in E. discriminate.
Qed.

(** ** Deadlines and the clock *)

(** Every element that a loop in the clock monad produces was paired
    with a reading of the clock made during the loop. *)
Lemma concatM_reads {A B} (f : A -> M (list B)) (Q : nat -> B -> Prop) clk l :
  (forall a k out k', f a clk k = Some (out, k') ->
     (k <= k')%nat /\ forall b, In b out -> exists i, (k <= i < k')%nat /\ Q i b) ->
  forall k out k', concatM f l clk k = Some (out, k') ->
     (k <= k')%nat /\ forall b, In b out -> exists i, (k <= i < k')%nat /\ Q i b.
Proof.
  intros Hf. induction l as [|a r IH]; intros k out k' E; simpl in E.
  - injection E as <- <-. split; [lia | intros b []].
  - apply bind_some in E as (bs & k1 & E1 & E).
    apply bind_some in E as (cs & k2 & E2 & E).
    injection E as <- <-.
    destruct (Hf _ _ _ _ E1) as [L1 H1]. destruct (IH _ _ _ E2) as [L2 H2].
    split; [lia|]. intros b Hb. apply in_app_or in Hb as [Hb|Hb].
    + destruct (H1 b Hb) as (i & Hi & Hq). exists i. split; [lia | exact Hq].
    + destruct (H2 b Hb) as (i & Hi & Hq). exists i. split; [lia | exact Hq].
Qed.

Lemma keep_future_reads d clk k out k' :
  keep_future d clk k = Some (out, k') ->
  (k <= k')%nat /\ forall b, In b out -> exists i, (k <= i < k')%nat /\ clk i < b.
Proof.
  unfold keep_future, bind, now, ret. intros [= <- <-]. split; [lia|].
  intros b Hb. destruct (Z.ltb_spec (clk k) d); [|destruct Hb].
  destruct Hb as [<-|[]]. exists k. split; [lia | assumption].
Qed.

Lemma nih_deadline_token_reads m clk k out k' :
  nih_deadline_token m clk k = Some (out, k') ->
  (k <= k')%nat /\ forall b, In b out -> exists i, (k <= i < k')%nat /\ clk i < b.
Proof.
  unfold nih_deadline_token.
  destruct (strptime true (strip m)); [apply keep_future_reads|].
  destruct (strptime false (strip m)); [apply keep_future_reads|].
  intros [= <- <-]. split; [lia | intros b []].
Qed.

Lemma comma_deadline_token_reads m clk k out k' :
  comma_deadline_token m clk k = Some (out, k') ->
  (k <= k')%nat /\ forall b, In b out -> exists i, (k <= i < k')%nat /\ clk i < b.
Proof.
  unfold comma_deadline_token.
  destruct (strptime true (strip m)); [apply keep_future_reads|].
  intros [= <- <-]. split; [lia | intros b []].
Qed.

Lemma extract_deadlines_reads findall token patterns text clk :
  (forall m k out k', token m clk k = Some (out, k') ->
     (k <= k')%nat /\ forall b, In b out -> exists i, (k <= i < k')%nat /\ clk i < b) ->
  forall k out k', extract_deadlines findall token patterns text clk k = Some (out, k') ->
     (k <= k')%nat /\ forall b, In b out -> exists i, (k <= i < k')%nat /\ clk i < b.
Proof.
  intros Ht. unfold extract_deadlines.
  apply (concatM_reads _ (fun i b => clk i < b)).
  intros pattern. apply (concatM_reads _ (fun i b => clk i < b)). exact Ht.
Qed.

(** *** The calendar *)

Lemma year_upper t :
  0 <= t -> t < days_before_year (DateTime.year t + 1) * us_per_day.
Proof.
  intros Ht.
  assert (Hus : 0 < us_per_day) by reflexivity.
  assert (Hn : 0 <= t / us_per_day) by (apply Z.div_pos; lia).
  assert (Hday : t / us_per_day < days_before_year (DateTime.year t + 1)).
  { unfold DateTime.year. cbv zeta. generalize dependent (t / us_per_day). intros n Hn.
    unfold days_before_year. cbv zeta.
    destruct (Z.eqb_spec (n mod 146097 mod 36524 mod 1461 / 365) 4);
      destruct (Z.eqb_spec (n mod 146097 / 36524) 4); cbn [orb];
      Z.div_mod_to_equations; lia. }
  pose proof (Z.mod_pos_bound t us_per_day Hus) as Hm.
  pose proof (Z.div_mod t us_per_day ltac:(lia)) as Hd.
  nia.
Qed.

Lemma days_before_month_nonneg y m : 1 <= m <= 12 -> 0 <= days_before_month y m.
Proof.
  intros H. unfold days_before_month.
  assert (Hm : m = 1 \/ m = 2 \/ m = 3 \/ m = 4 \/ m = 5 \/ m = 6 \/ m = 7 \/ m = 8 \/
               m = 9 \/ m = 10 \/ m = 11 \/ m = 12) by lia.
  destruct ((2 <? m) && is_leap y);
    repeat (destruct Hm as [->|Hm]; [simpl; lia|]); subst; simpl; lia.
Qed.

Lemma make_lower y m d t :
  DateTime.make y m d = Some t -> days_before_year y * us_per_day <= t.
Proof.
  unfold DateTime.make.
  destruct (Z.leb_spec 1 y); [|discriminate].
  destruct (Z.leb_spec y 9999); [|discriminate].
  destruct (Z.leb_spec 1 m); [|discriminate].
  destruct (Z.leb_spec m 12); [|discriminate].
  destruct (Z.leb_spec 1 d); [|discriminate].
  destruct (Z.leb_spec d (days_in_month y m)); [|discriminate].
  cbn [andb]. intros [= <-].
  pose proof (days_before_month_nonneg y m ltac:(lia)).
  assert (Hus : 0 < us_per_day) by reflexivity.
  unfold ymd2ord. nia.
Qed.

(** *** What [strptime] leaves for the year *)

Lemma suffix_refl s : suffix_of s s.
Proof. exists EmptyString. reflexivity. Qed.

Lemma suffix_trans a b c : suffix_of a b -> suffix_of b c -> suffix_of a c.
Proof.
  intros [p ->] [q ->]. exists (q ++ p)%string. rewrite str_app_assoc. reflexivity.
Qed.

Lemma suffix_tail c s : suffix_of s (String c s).
Proof. exists (String c EmptyString). reflexivity. Qed.

Lemma match_ci_suffix pat : forall s r, match_ci pat s = Some r -> suffix_of r s.
Proof.
  induction pat as [|p pat IH]; intros s r; simpl.
  - intros [= <-]. apply suffix_refl.
  - destruct s as [|c s]; [discriminate|].
    destruct (Ascii.eqb (lower_char c) p); [|discriminate].
    intros H. eapply suffix_trans; [apply IH, H | apply suffix_tail].
Qed.

Lemma parse_month_suffix names s m r :
  parse_month names s = Some (m, r) -> suffix_of r s.
Proof.
  induction names as [|[name k] rest IH]; simpl; [discriminate|].
  destruct (match_ci name s) as [r'|] eqn:E; [|exact IH].
  intros [= <- <-]. eapply match_ci_suffix, E.
Qed.

Lemma lstrip_suffix s : suffix_of (lstrip s) s.
Proof.
  induction s as [|c s IH]; simpl; [apply suffix_refl|].
  destruct (is_space c); [|apply suffix_refl].
  eapply suffix_trans; [exact IH | apply suffix_tail].
Qed.

Lemma skip_spaces1_suffix s r : skip_spaces1 s = Some r -> suffix_of r s.
Proof.
  destruct s as [|c s]; simpl; [discriminate|].
  destruct (is_space c); [|discriminate]. intros [= <-].
  eapply suffix_trans; [apply lstrip_suffix | apply suffix_tail].
Qed.

Lemma parse_day_suffix s d r : parse_day s = Some (d, r) -> suffix_of r s.
Proof.
  unfold parse_day. destruct s as [|c1 [|c2 s]]; [discriminate| |].
  - destruct (_ && _); [|discriminate]. intros [= <- <-]. apply suffix_tail.
  - destruct (is_digit c1 && is_digit c2).
    + cbv zeta. destruct (_ && _); [|discriminate]. intros [= <- <-].
      eapply suffix_trans; apply suffix_tail.
    + destruct (_ && _); [|discriminate]. intros [= <- <-]. apply suffix_tail.
Qed.

Lemma parse_year_end_length s y : parse_year_end s = Some y -> String.length s = 4%nat.
Proof.
  destruct s as [|a [|b [|c [|d [|e s]]]]]; try discriminate. reflexivity.
Qed.

Lemma str_length_app a b :
  String.length (a ++ b) = (String.length a + String.length b)%nat.
Proof. induction a as [|c a IH]; simpl; [reflexivity | rewrite IH; reflexivity]. Qed.

Lemma same_length_suffix p1 : forall p2 a b,
  (p1 ++ a = p2 ++ b)%string -> String.length a = String.length b -> a = b.
Proof.
  induction p1 as [|c p1 IH]; intros p2 a b E L.
  - destruct p2 as [|d p2]; [exact E|]. exfalso.
    apply (f_equal String.length) in E. simpl in E. rewrite str_length_app in E. lia.
  - destruct p2 as [|d p2].
    + exfalso. apply (f_equal String.length) in E. simpl in E.
      rewrite str_length_app in E. lia.
    + simpl in E. injection E as _ E. eapply IH; eassumption.
Qed.

(** A text that [strptime] accepts and that ends in a year of four
    digits is a date of that year. *)
Lemma strptime_year_suffix x y4 y t :
  strptime false (x ++ y4) = Some t -> parse_year_end y4 = Some y ->
  exists m d, DateTime.make y m d = Some t.
Proof.
  intros H Hy. unfold strptime in H.
  destruct (parse_month month_names (x ++ y4)) as [[m s1]|] eqn:E1; [|discriminate].
  cbn [bind_opt] in H.
  destruct (skip_spaces1 s1) as [s2|] eqn:E2; [|discriminate]. cbn [bind_opt] in H.
  destruct (parse_day s2) as [[d s3]|] eqn:E3; [|discriminate]. cbn [bind_opt] in H.
  destruct (skip_spaces1 s3) as [s5|] eqn:E5; [|discriminate]. cbn [bind_opt] in H.
  destruct (parse_year_end s5) as [y'|] eqn:E6; [|discriminate]. cbn [bind_opt] in H.
  assert (Hsuf : suffix_of s5 (x ++ y4)).
  { eapply suffix_trans; [eapply skip_spaces1_suffix, E5|].
    eapply suffix_trans; [eapply parse_day_suffix, E3|].
    eapply suffix_trans; [eapply skip_spaces1_suffix, E2|].
    eapply parse_month_suffix, E1. }
  destruct Hsuf as [pre Epre].
  assert (s5 = y4).
  { symmetry. eapply same_length_suffix; [exact Epre|].
    rewrite (parse_year_end_length _ _ Hy), (parse_year_end_length _ _ E6). reflexivity. }
  subst s5. assert (y' = y) by congruence. subst y'.
  exists m, d. exact H.
Qed.

(** The generator pairs each date it yields with a reading of the
    clock; the date is after the reading when the reading is a datetime
    of the year [y] read at the start. *)
Lemma recurring_deadline_reads y s clk k out k' :
  1000 <= y <= 9998 ->
  recurring_deadline y s clk k = Some (out, k') ->
  (k <= k')%nat /\
  forall b, In b out ->
    exists i, (k <= i < k')%nat /\ (0 <= clk i /\ DateTime.year (clk i) = y -> clk i < b).
Proof.
  intros Hy. unfold recurring_deadline.
  destruct (strptime false (s ++ " " ++ of_Z y)) as [d1|].
  2:{ intros [= <- <-]. split; [lia | intros b []]. }
  unfold bind, now.
  destruct (Z.ltb_spec (clk k) d1) as [Hlt|Hge].
  - intros [= <- <-]. split; [lia|]. intros b [<-|[]]. exists k. split; [lia|]. auto.
  - destruct (strptime false (s ++ " " ++ of_Z (y + 1))) as [d2|] eqn:E2.
    2:{ intros [= <- <-]. split; [lia | intros b []]. }
    intros [= <- <-]. split; [lia|]. intros b [<-|[]]. exists k. split; [lia|].
    intros [Hpos Hyear].
    replace (s ++ " " ++ of_Z (y + 1))%string
      with ((s ++ " ") ++ of_Z (y + 1))%string in E2 by apply str_app_assoc.
    destruct (strptime_year_suffix _ _ (y + 1) _ E2) as (m & d & Hmk).
    { apply parse_year_of_Z. lia. }
    pose proof (make_lower _ _ _ _ Hmk) as Hlow.
    pose proof (year_upper _ Hpos) as Hup. rewrite Hyear in Hup. lia.
Qed.

(** C1. A deadline that a page extractor keeps (NIH page, NSF page,
    foundation section) is strictly after a reading of the clock made
    during that extraction, the one it was compared with.  The same
    holds for every deadline of the recurrence generator, as long as
    the readings it compares with are datetimes of the four-digit year
    read at its start.  Nothing is said of the dates written into the
    static catalog, and the deadlines of baseline records are not
    compared with the clock again. *)
Theorem kept_deadlines_after_reading (findall : findall_fn) (clk : nat -> datetime) (n : nat) :
  (forall p, exists g ds n',
      parse_nih_grant_page findall p clk n = Some (g, n') /\ deadlines g = Some ds /\
      forall d, In d ds -> exists i, (n <= i < n')%nat /\ clk i < d) /\
  (forall p, exists g ds n',
      parse_nsf_grant_page findall p clk n = Some (g, n') /\ deadlines g = Some ds /\
      forall d, In d ds -> exists i, (n <= i < n')%nat /\ clk i < d) /\
  (forall f sec, exists gs n',
      scrape_foundation_section findall f sec clk n = Some (gs, n') /\
      forall g, In g gs -> exists ds, deadlines g = Some ds /\
        forall d, In d ds -> exists i, (n <= i < n')%nat /\ clk i < d) /\
  (forall l, 1000 <= DateTime.year (clk n) <= 9998 ->
      exists out n',
        generate_recurring_deadlines l clk n = Some (out, n') /\
        ((forall i, (n < i < n')%nat ->
            0 <= clk i /\ DateTime.year (clk i) = DateTime.year (clk n)) ->
         forall d, In d out -> exists i, (n < i < n')%nat /\ clk i < d)).
Proof.
  split; [|split; [|split]].
  - intros p.
    destruct (parse_nih_grant_page_fields findall p clk n)
      as (g & ds & n1 & Ed & E & Hd & _).
    exists g, ds, (S n1). split; [exact E|]. split; [exact Hd|].
    destruct (extract_deadlines_reads _ _ _ _ clk
                (fun m => nih_deadline_token_reads m clk) _ _ _ Ed) as [L H].
    intros d Hin. destruct (H d Hin) as (i & Hi & Hlt). exists i. split; [lia | exact Hlt].
  - intros p.
    destruct (parse_nsf_grant_page_fields findall p clk n)
      as (g & ds & n1 & Ed & E & Hd & _).
    exists g, ds, (S n1). split; [exact E|]. split; [exact Hd|].
    destruct (extract_deadlines_reads _ _ _ _ clk
                (fun m => comma_deadline_token_reads m clk) _ _ _ Ed) as [L H].
    intros d Hin. destruct (H d Hin) as (i & Hi & Hlt). exists i. split; [lia | exact Hlt].
  - intros f sec.
    destruct (scrape_foundation_section_fields findall f sec clk n)
      as (gs & ds & n1 & n2 & L & E & Hg).
    exists gs, n2. split; [exact E|]. intros g Hin.
    destruct (Hg g Hin) as (Ed & Hd & _). exists ds. split; [exact Hd|].
    destruct (extract_deadlines_reads _ _ _ _ clk
                (fun m => comma_deadline_token_reads m clk) _ _ _ Ed) as [L' H].
    intros d Hind. destruct (H d Hind) as (i & Hi & Hlt). exists i. split; [lia | exact Hlt].
  - intros l Hy.
    destruct (generate_recurring_deadlines_total l clk n) as (out & n' & E & _).
    exists out, n'. split; [exact E|]. intros Hclk d Hin.
    unfold generate_recurring_deadlines, bind, now in E. cbv zeta in E.
    destruct (concatM_reads (recurring_deadline (DateTime.year (clk n)))
                (fun i b => 0 <= clk i /\ DateTime.year (clk i) = DateTime.year (clk n) ->
                            clk i < b) clk l) with (k := S n) (out := out) (k' := n')
      as [L H].
    + intros a k o k'. apply recurring_deadline_reads, Hy.
    + exact E.
    + destruct (H d Hin) as (i & Hi & Hq). exists i. split; [lia|].
      apply Hq, Hclk. lia.
Qed.

(** The witness of [kept_deadlines_after_reading]: the generator at
    noon of 3 November 2026. *)
Lemma kept_deadlines_after_reading_witness :
  exists out n',
    generate_recurring_deadlines ["April 8"%string; "December 8"%string]
      (fun _ => noon_2026_11_03) 0%nat = Some (out, n') /\
    forall d, In d out -> noon_2026_11_03 < d.
Proof.
  destruct (kept_deadlines_after_reading (fun _ _ _ => []) (fun _ => noon_2026_11_03) 0%nat)
    as (_ & _ & _ & H).
  destruct (H ["April 8"%string; "December 8"%string]) as (out & n' & E & Hd).
  - vm_compute. split; discriminate.
  - exists out, n'. split; [exact E|]. intros d Hin.
    destruct (Hd (fun i _ => conj (ltac:(discriminate) : 0 <= noon_2026_11_03) eq_refl) d Hin)
      as (i & _ & Hlt).
    exact Hlt.
Defined.

(** The statement of C1 as the specification has it fails: a record of
    the snapshot, last updated a day before the run, with a deadline
    an hour before the run, passes the staleness filter and reaches the
    merged output with that deadline. *)
Lemma baseline_deadlines_not_rechecked :
  ~ (forall w clk n out n',
       merged w clk n = Some (out, n') ->
       forall g ds d, In g out -> deadlines g = Some ds -> In d ds ->
       exists i, (n <= i < n')%nat /\ clk i < d).
Proof.
  intros H.
  pose (t := noon_2025_01_01).
  pose (r := mk_grant "x" "y" "" (Some [t - 3600000000]) [] None
                      (Some (t - us_per_day)) "nih" None None).
  pose (w := mk_world (fun _ => None) (fun _ _ _ => []) [r] [] [] []).
  destruct (merged w (fun _ => t) 0%nat) as [[out n']|] eqn:E.
  - pose proof E as E'. vm_compute in E'. injection E' as <- <-.
    destruct (H _ _ _ _ _ E r [t - 3600000000] (t - 3600000000)
                (or_introl eq_refl) eq_refl (or_introl eq_refl)) as (i & _ & Hlt).
    vm_compute in Hlt. discriminate.
  - vm_compute in E. discriminate.
Qed.

(** The two dates written into the static catalog are not compared with
    the clock either: on 3 November 2026, with the default
    configuration and nothing fetched, the merged output holds a static
    record whose only deadline, 15 September 2025, has passed. *)
Lemma static_catalog_date_expired :
  exists out n' g d,
    merged (mk_world (fun _ => None) (fun _ _ _ => []) [] [] [] [])
           (fun _ => noon_2026_11_03) 0%nat = Some (out, n') /\
    In g out /\ source_type g = "static"%string /\
    deadlines g = Some [d] /\ DateTime.make 2025 9 15 = Some d /\ d < noon_2026_11_03.
Proof.
  eexists _, _, _, _. split; [vm_compute; reflexivity|].
  split; [left; reflexivity|]. repeat split.
Qed.

(* ================================================================= *)
(** * Further properties of the pipeline *)

(** ** The merge as an operation on lists *)

Lemma dict_set_length k v d : (List.length (dict_set k v d) <= S (List.length d))%nat.
Proof.
  induction d as [|[k' v'] r IH]; simpl; [lia|].
  destruct (key_eqb k k'); simpl; lia.
Qed.

Lemma dedup_step_length d g :
  (List.length (dedup_step d g) <= S (List.length d))%nat.
Proof.
  unfold dedup_step. cbv zeta.
  destruct (dict_get _ d); [destruct (_ <? _)|]; try apply dict_set_length. lia.
Qed.

Lemma fold_dedup_length l : forall d,
  (List.length (fold_left dedup_step l d) <= List.length d + List.length l)%nat.
Proof.
  induction l as [|g r IH]; intros d; simpl; [lia|].
  specialize (IH (dedup_step d g)). pose proof (dedup_step_length d g). lia.
Qed.

Lemma dedup_step_keys d g : exists extra, map fst (dedup_step d g) = map fst d ++ extra.
Proof.
  unfold dedup_step. cbv zeta.
  destruct (dict_get (identity_key g) d) as [old|] eqn:E.
  - destruct (_ <? _).
    + destruct (dict_set_old _ g _ _ E) as (d1 & d2 & Ed & ->).
      exists []. rewrite app_nil_r, Ed, !map_app. reflexivity.
    + exists []. rewrite app_nil_r. reflexivity.
  - rewrite (dict_set_new _ _ _ E). exists [identity_key g]. rewrite map_app. reflexivity.
Qed.

Lemma fold_dedup_keys l : forall d,
  exists extra, map fst (fold_left dedup_step l d) = map fst d ++ extra.
Proof.
  induction l as [|g r IH]; intros d; simpl.
  - exists []. rewrite app_nil_r. reflexivity.
  - destruct (IH (dedup_step d g)) as [e2 E2]. destruct (dedup_step_keys d g) as [e1 E1].
    exists (e1 ++ e2). rewrite E2, E1, app_assoc. reflexivity.
Qed.

Lemma fold_dedup_distinct l : forall d,
  NoDup (map fst d ++ map identity_key l) ->
  fold_left dedup_step l d = d ++ map (fun g => (identity_key g, g)) l.
Proof.
  induction l as [|g r IH]; intros d ND; simpl.
  - rewrite app_nil_r. reflexivity.
  - simpl in ND. pose proof (NoDup_remove_2 _ _ _ ND) as Hnot.
    assert (Eg : dict_get (identity_key g) d = None).
    { apply dict_get_none. intros F. apply Hnot, in_or_app. left. exact F. }
    unfold dedup_step at 2. cbv zeta. rewrite Eg, (dict_set_new _ _ _ Eg).
    rewrite IH.
    + rewrite <- app_assoc. reflexivity.
    + rewrite map_app. simpl. rewrite <- app_assoc. exact ND.
Qed.

Lemma remove_duplicates_distinct l :
  NoDup (map identity_key l) -> remove_duplicates l = l.
Proof.
  intros ND. unfold remove_duplicates.
  rewrite (fold_dedup_distinct l [] ND). simpl.
  rewrite map_map. simpl. apply map_id.
Qed.

Lemma remove_duplicates_keys l :
  map identity_key (remove_duplicates l) = map fst (fold_left dedup_step l []).
Proof.
  destruct (dict_inv_final l) as (_ & Hent & _).
  unfold remove_duplicates. rewrite map_map. apply map_ext_in.
  intros [k v] Hin. apply (Hent _ _ Hin).
Qed.

(** X1. The merge never returns more records than it was given; a list
    whose identity keys are pairwise distinct passes through it
    unchanged, order included; and merging a merged list changes
    nothing. *)
Theorem merge_idempotent (l : list grant) :
  (List.length (remove_duplicates l) <= List.length l)%nat /\
  remove_duplicates (remove_duplicates l) = remove_duplicates l /\
  (NoDup (map identity_key l) -> remove_duplicates l = l).
Proof.
  split; [|split].
  - unfold remove_duplicates. rewrite length_map.
    apply (fold_dedup_length l []).
  - apply remove_duplicates_distinct, remove_duplicates_spec.
  - apply remove_duplicates_distinct.
Qed.

Lemma merge_idempotent_witness :
  let a := mk_grant "A" "NIH" "" None [] None (Some 1) "" None None in
  let b := mk_grant "B" "NIH" "" None [] None (Some 2) "" None None in
  remove_duplicates [a; b] = [a; b].
Proof.
  intros a b. apply (merge_idempotent [a; b]).
  repeat constructor; simpl; intros F;
    repeat (destruct F as [F|F]; try discriminate F); exact F.
Defined.

(** X2. The merged list starts with the identity keys of the records
    that came first (the baseline), in the order the merge of those
    alone would give; the keys that follow are those of later records
    (the fresh ones) that the first part does not have. *)
Theorem merge_keeps_first_keys_in_place (l1 l2 : list grant) :
  exists extra,
    map identity_key (remove_duplicates (l1 ++ l2))
    = map identity_key (remove_duplicates l1) ++ extra /\
    forall k, In k extra ->
      In k (map identity_key l2) /\ ~ In k (map identity_key l1).
Proof.
  destruct (fold_dedup_keys l2 (fold_left dedup_step l1 [])) as [extra E].
  exists extra.
  assert (Ekeys : map identity_key (remove_duplicates (l1 ++ l2))
                  = map identity_key (remove_duplicates l1) ++ extra).
  { rewrite !remove_duplicates_keys, fold_left_app. exact E. }
  split; [exact Ekeys|]. intros k Hk.
  destruct (remove_duplicates_spec (l1 ++ l2)) as (ND & Hsurv & _).
  destruct (remove_duplicates_spec l1) as (_ & _ & Hcov1).
  rewrite Ekeys in ND.
  assert (Hnot1 : ~ In k (map identity_key l1)).
  { intros F. apply in_map_iff in F as (g & <- & Hg).
    destruct (Hcov1 g Hg) as (s & Hs & Hks).
    apply NoDup_app_remove_l in ND as ND2.
    assert (Hin1 : In (identity_key g) (map identity_key (remove_duplicates l1))).
    { rewrite <- Hks. apply in_map, Hs. }
    clear -ND Hin1 Hk.
    induction (map identity_key (remove_duplicates l1)) as [|x r IH]; [destruct Hin1|].
    simpl in ND. apply NoDup_cons_iff in ND as [Hx ND].
    destruct Hin1 as [->|Hin1].
    - apply Hx, in_or_app. right. exact Hk.
    - apply IH; assumption. }
  split; [|exact Hnot1].
  assert (Hin : In k (map identity_key (remove_duplicates (l1 ++ l2)))).
  { rewrite Ekeys. apply in_or_app. right. exact Hk. }
  apply in_map_iff in Hin as (s & <- & Hs).
  destruct (Hsurv s Hs) as [Hsl _].
  apply in_app_or in Hsl as [H1|H2].
  - exfalso. apply Hnot1, in_map, H1.
  - apply in_map, H2.
Qed.

Lemma merge_keeps_first_keys_in_place_witness :
  let a := mk_grant "A" "NIH" "" None [] None (Some 1) "" None None in
  let b := mk_grant "B" "NIH" "" None [] None (Some 2) "" None None in
  exists extra,
    map identity_key (remove_duplicates ([a] ++ [b]))
    = map identity_key (remove_duplicates [a]) ++ extra /\
    ~ In (identity_key a) extra.
Proof.
  intros a b.
  destruct (merge_keeps_first_keys_in_place [a] [b]) as (extra & E & H).
  exists extra. split; [exact E|].
  intros F. apply (H _ F). left. reflexivity.
Defined.

(** ** Ranking and grouping *)

Lemma keyed_spec gs : forall l,
  keyed gs = Some l ->
  map snd l = gs /\ Forall (fun kg => sort_key (snd kg) = Some (fst kg)) l.
Proof.
  induction gs as [|g r IH]; simpl; intros l.
  - intros [= <-]. split; constructor.
  - destruct (sort_key g) as [k|] eqn:Ek; [|discriminate].
    destruct (keyed r) as [kr|]; [|discriminate]. intros [= <-].
    destruct (IH kr eq_refl) as [Hm Hf]. simpl. split; [f_equal; exact Hm|].
    constructor; [exact Ek | exact Hf].
Qed.

Lemma keyed_none gs : keyed gs = None <-> exists g, In g gs /\ sort_key g = None.
Proof.
  induction gs as [|g r IH]; simpl.
  - split; [discriminate | intros (g & [] & _)].
  - destruct (sort_key g) as [k|] eqn:Ek.
    + destruct (keyed r) as [kr|].
      * split; [discriminate|]. intros (x & [<-|Hx] & Hn); [congruence|].
        discriminate (proj2 IH (ex_intro _ x (conj Hx Hn))).
      * split; [|reflexivity]. intros _.
        destruct (proj1 IH eq_refl) as (x & Hx & Hn). exists x. auto.
    + split; [|reflexivity]. intros _. exists g. auto.
Qed.

Lemma classify_fields g clk n :
  exists u n',
    classify g clk n = Some (set_urgency g u, n') /\ (n <= n')%nat /\ 0 <= u <= 5 /\
    (u = 0 <-> deadlines g = None \/ deadlines g = Some []).
Proof.
  unfold classify, calculate_urgency, bind, now, ret.
  destruct (deadlines g) as [[|d ds]|].
  - exists 0, n. repeat split; auto; lia.
  - cbv zeta.
    set (du := days_between (list_min d ds) (clk n)).
    eexists _, (S n). split; [reflexivity|]. split; [lia|].
    destruct (du <=? 30); [|destruct (du <=? 90); [|destruct (du <=? 180);
      [|destruct (du <=? 365)]]];
      (split; [lia|]); (split; [lia | intros [F|F]; discriminate F]).
  - exists 0, n. repeat split; auto; lia.
Qed.

(** What the classification loop returns: the records it was given,
    each with a tier between 0 and 5. *)
Lemma mapM_classify_fields gs : forall clk n,
  exists cl n',
    mapM classify gs clk n = Some (cl, n') /\
    Forall2 (fun g c => exists u, c = set_urgency g u /\ 0 <= u <= 5 /\
                        (u = 0 <-> deadlines g = None \/ deadlines g = Some [])) gs cl.
Proof.
  induction gs as [|g r IH]; intros clk n; simpl.
  - exists [], n. split; [reflexivity | constructor].
  - destruct (classify_fields g clk n) as (u & n1 & E & _ & Hu & H0).
    destruct (IH clk n1) as (cl & n2 & E2 & HF).
    exists (set_urgency g u :: cl), n2. split.
    + unfold bind. rewrite E, E2. reflexivity.
    + constructor; [exists u; auto | exact HF].
Qed.

Lemma descending_buckets (f : grant -> Z) (l : list grant) :
  StronglySorted (fun a b => f b <= f a) l ->
  filter (fun g => 4 <=? f g) l
  ++ filter (fun g => (2 <=? f g) && (f g <? 4)) l
  ++ filter (fun g => f g <? 2) l = l.
Proof.
  induction 1 as [|x r Hs IH Hx]; [reflexivity|].
  assert (Hnone : forall (p : grant -> bool),
             (forall y, f y <= f x -> p y = false) -> filter p r = []).
  { intros p Hp. clear -Hx Hp. induction Hx as [|y r Hy _ IHr]; [reflexivity|].
    simpl. rewrite (Hp y Hy). exact IHr. }
  simpl.
  destruct (Z.leb_spec 4 (f x)) as [H4|H4].
  - destruct (Z.ltb_spec (f x) 4); [lia|]. rewrite andb_false_r.
    destruct (Z.ltb_spec (f x) 2); [lia|]. simpl. f_equal. exact IH.
  - rewrite (Hnone (fun g => 4 <=? f g)) in IH |- *
      by (intros y Hy; apply Z.leb_gt; lia).
    simpl in IH |- *.
    destruct (Z.leb_spec 2 (f x)) as [H2|H2].
    + destruct (Z.ltb_spec (f x) 4); [|lia]. destruct (Z.ltb_spec (f x) 2); [lia|].
      simpl. f_equal. exact IH.
    + rewrite (Hnone (fun g => (2 <=? f g) && (f g <? 4))) in IH |- *
        by (intros y Hy; apply andb_false_iff; left; apply Z.leb_gt; lia).
      simpl in IH |- *. destruct (Z.ltb_spec (f x) 2); [|lia]. f_equal. exact IH.
Qed.

(** The list that [sorted] returns for keyed records: a permutation of
    the records, in descending order of the tier. *)
Lemma sorted_reverse_tiers (key_of : grant -> option (Z * datetime)) l :
  Forall (fun kg => key_of (snd kg) = Some (fst kg)) l ->
  Permutation (map snd l) (sorted_reverse l) /\
  StronglySorted
    (fun a b => forall ka kb, key_of a = Some ka -> key_of b = Some kb ->
                              key_lt ka kb = false)
    (sorted_reverse l).
Proof.
  intros Hk. destruct (sorted_reverse_descending l) as [Hp Hs].
  unfold sorted_reverse. split; [apply Permutation_map, Hp|].
  assert (Hk' : Forall (fun kg => key_of (snd kg) = Some (fst kg))
                       (fold_right insert_desc [] l)).
  { apply Forall_forall. intros kg Hin.
    rewrite Forall_forall in Hk. apply Hk.
    eapply Permutation_in; [apply Permutation_sym, Hp | exact Hin]. }
  clear Hp Hk. revert Hk'. generalize dependent (fold_right insert_desc [] l).
  intros s Hs. induction Hs as [|x r Hs IH Hx]; intros Hk'; simpl; constructor.
  - apply IH. inversion Hk'; assumption.
  - inversion Hk' as [|? ? Hkx Hkr]; subst.
    apply Forall_forall. intros b Hb ka kb Ha Hb'.
    apply in_map_iff in Hb as (kg & <- & Hin).
    rewrite Forall_forall in Hx, Hkr.
    rewrite Hkx in Ha. injection Ha as <-.
    rewrite (Hkr _ Hin) in Hb'. injection Hb' as <-.
    apply Hx, Hin.
Qed.

Lemma Forall2_in_right {A B} (P : A -> B -> Prop) l l' b :
  Forall2 P l l' -> In b l' -> exists a, In a l /\ P a b.
Proof.
  induction 1 as [|x y l l' Hxy _ IH]; [intros []|].
  intros [<-|Hb]; [exists x; simpl; auto|].
  destruct (IH Hb) as (a & Ha & Hp). exists a. simpl. auto.
Qed.

Lemma Forall2_in_left {A B} (P : A -> B -> Prop) l l' a :
  Forall2 P l l' -> In a l -> exists b, In b l' /\ P a b.
Proof.
  induction 1 as [|x y l l' Hxy _ IH]; [intros []|].
  intros [<-|Ha]; [exists y; simpl; auto|].
  destruct (IH Ha) as (b & Hb & Hp). exists b. simpl. auto.
Qed.

Lemma StronglySorted_weaken {A} (R R' : A -> A -> Prop) l :
  (forall a b, In a l -> In b l -> R a b -> R' a b) ->
  StronglySorted R l -> StronglySorted R' l.
Proof.
  intros H Hs. induction Hs as [|x r Hs IH Hx]; constructor.
  - apply IH. intros a b Ha Hb. apply H; right; assumption.
  - apply Forall_forall. intros b Hb. rewrite Forall_forall in Hx.
    apply H; [left; reflexivity | right; exact Hb | apply Hx, Hb].
Qed.

Lemma sort_key_classified g u :
  sort_key (set_urgency g u) = None <-> deadlines g = Some [].
Proof.
  unfold sort_key, set_urgency. simpl.
  destruct (deadlines g) as [[|d ds]|]; split; try discriminate; reflexivity.
Qed.

Lemma sort_key_tier g k : sort_key g = Some k -> urgency g = Some (fst k).
Proof.
  unfold sort_key. destruct (urgency g) as [u|]; [|discriminate].
  destruct (deadlines g) as [[|d ds]|]; try discriminate; intros [= <-]; reflexivity.
Qed.

(** What [sorted_grants] does with a list of classified records. *)
Lemma sorted_grants_steps gs clk n :
  exists cl n1,
    mapM classify gs clk n = Some (cl, n1) /\
    Forall2 (fun g c => exists u, c = set_urgency g u /\ 0 <= u <= 5 /\
                        (u = 0 <-> deadlines g = None \/ deadlines g = Some [])) gs cl /\
    sorted_grants gs clk n
    = match keyed cl with
      | Some l => Some (sorted_reverse l, n1)
      | None => None
      end.
Proof.
  destruct (mapM_classify_fields gs clk n) as (cl & n1 & E & HF).
  exists cl, n1. split; [exact E|]. split; [exact HF|].
  unfold sorted_grants, bind. rewrite E.
  destruct (keyed cl); reflexivity.
Qed.

(** X3. The ranking of [generate_html_website] raises exactly when some
    record carries a list of deadlines that is there and empty.
    Otherwise it returns the classified records, all of them and each
    once, with no record before one of a greater key (tier, nearest
    deadline). *)
Theorem sorted_grants_outcome (gs : list grant) (clk : nat -> datetime) (n : nat) :
  (sorted_grants gs clk n = None <-> exists g, In g gs /\ deadlines g = Some []) /\
  (forall out n', sorted_grants gs clk n = Some (out, n') ->
     exists cl,
       mapM classify gs clk n = Some (cl, n') /\
       Permutation cl out /\
       StronglySorted
         (fun a b => forall ka kb, sort_key a = Some ka -> sort_key b = Some kb ->
                                   key_lt ka kb = false) out).
Proof.
  destruct (sorted_grants_steps gs clk n) as (cl & n1 & E & HF & ->).
  split.
  - destruct (keyed cl) as [l|] eqn:Ek.
    + split; [discriminate|]. intros (g & Hg & Hd). exfalso.
      destruct (Forall2_in_left _ _ _ _ HF Hg) as (c & Hc & u & -> & _).
      assert (Hn : keyed cl = None).
      { apply keyed_none. exists (set_urgency g u). split; [exact Hc|].
        apply sort_key_classified, Hd. }
      congruence.
    + split; [|reflexivity]. intros _.
      apply keyed_none in Ek as (c & Hc & Hn).
      destruct (Forall2_in_right _ _ _ _ HF Hc) as (g & Hg & u & -> & _).
      exists g. split; [exact Hg|]. apply (sort_key_classified g u), Hn.
  - intros out n'. destruct (keyed cl) as [l|] eqn:Ek; [|discriminate].
    intros [= <- <-]. exists cl. split; [exact E|].
    destruct (keyed_spec _ _ Ek) as [Hm Hk].
    destruct (sorted_reverse_tiers sort_key l Hk) as [Hp Hs].
    rewrite Hm in Hp. split; assumption.
Qed.

Lemma sorted_grants_outcome_witness :
  let t := noon_2026_11_03 in
  let a := mk_grant "A" "NIH" "" (Some [t + 10 * us_per_day]) [] None (Some t) "nih" None None in
  let b := mk_grant "B" "NIH" "" (Some []) [] None (Some t) "nih" None None in
  sorted_grants [a; b] (fun _ => t) 0%nat = None.
Proof.
  intros t a b. apply (sorted_grants_outcome [a; b] (fun _ => t) 0%nat).
  exists b. split; [right; left; reflexivity | reflexivity].
Defined.

(** X4. The three buckets of the dashboard cut the ranked list into
    three consecutive pieces: the urgent records, then the upcoming
    ones, then the future ones give back the ranked list, so every
    record is in exactly one bucket and the buckets keep the ranking.
    Every ranked record carries a tier between 0 and 5. *)
Theorem buckets_split_ranked_list (gs : list grant) (clk : nat -> datetime) (n : nat)
        (out : list grant) (n' : nat) :
  sorted_grants gs clk n = Some (out, n') ->
  urgent_grants out ++ upcoming_grants out ++ future_grants out = out /\
  (forall g, In g out -> exists u, urgency g = Some u /\ 0 <= u <= 5).
Proof.
  intros Hsorted.
  destruct (sorted_grants_steps gs clk n) as (cl & n1 & E & HF & Es).
  rewrite Es in Hsorted. destruct (keyed cl) as [l|] eqn:Ek; [|discriminate].
  injection Hsorted as <- <-.
  destruct (keyed_spec _ _ Ek) as [Hm Hk].
  destruct (sorted_reverse_tiers sort_key l Hk) as [Hp Hs].
  rewrite Hm in Hp.
  assert (Hkey : forall c, In c (sorted_reverse l) -> exists k, sort_key c = Some k).
  { intros c Hc. apply (Permutation_in _ (Permutation_sym Hp)) in Hc.
    rewrite <- Hm in Hc. apply in_map_iff in Hc as (kg & <- & Hin).
    rewrite Forall_forall in Hk. eexists. apply Hk, Hin. }
  split.
  - unfold urgent_grants, upcoming_grants, future_grants.
    apply (descending_buckets urgency_or).
    refine (StronglySorted_weaken _ _ _ _ Hs). intros a b Ha Hb Hab.
    destruct (Hkey a Ha) as [ka Hka]. destruct (Hkey b Hb) as [kb Hkb].
    specialize (Hab ka kb Hka Hkb).
    unfold urgency_or. rewrite (sort_key_tier _ _ Hka), (sort_key_tier _ _ Hkb).
    apply (proj2 (not_true_iff_false _)) in Hab. rewrite key_lt_spec in Hab. lia.
  - intros c Hc. apply (Permutation_in _ (Permutation_sym Hp)) in Hc.
    destruct (Forall2_in_right _ _ _ _ HF Hc) as (g & _ & u & -> & Hu & _).
    exists u. split; [reflexivity | exact Hu].
Qed.

Lemma buckets_split_ranked_list_witness :
  let t := noon_2026_11_03 in
  let a := mk_grant "A" "NIH" "" (Some [t + 10 * us_per_day]) [] None (Some t) "nih" None None in
  let b := mk_grant "B" "NIH" "" (Some [t + 200 * us_per_day]) [] None (Some t) "nih" None None in
  let out := [set_urgency a 5; set_urgency b 2] in
  urgent_grants out ++ upcoming_grants out ++ future_grants out = out.
Proof.
  intros t a b out.
  apply (buckets_split_ranked_list [b; a] (fun _ => t) 0%nat out 2%nat).
  vm_compute. reflexivity.
Defined.

(** ** The size of a run *)

Lemma concatM_length {A B} (f : A -> M (list B)) (c : nat) clk l :
  (forall a k out k', f a clk k = Some (out, k') -> (List.length out <= c)%nat) ->
  forall k out k', concatM f l clk k = Some (out, k') ->
    (List.length out <= c * List.length l)%nat.
Proof.
  intros Hf. induction l as [|a r IH]; intros k out k' E; simpl in E.
  - injection E as <- <-. simpl. lia.
  - apply bind_some in E as (bs & k1 & E1 & E).
    apply bind_some in E as (cs & k2 & E2 & E). injection E as <- <-.
    rewrite length_app. specialize (Hf _ _ _ _ E1). specialize (IH _ _ _ E2).
    simpl. lia.
Qed.

Lemma sequence_length {A} (l : list (M A)) clk : forall k out k',
  sequence l clk k = Some (out, k') -> List.length out = List.length l.
Proof.
  induction l as [|m r IH]; intros k out k' E; simpl in E.
  - injection E as <- <-. reflexivity.
  - apply bind_some in E as (a & k1 & E1 & E).
    apply bind_some in E as (rest & k2 & E2 & E). injection E as <- <-.
    simpl. f_equal. eapply IH, E2.
Qed.

Lemma filter_le_length {A} (p : A -> bool) l :
  (List.length (filter p l) <= List.length l)%nat.
Proof. induction l as [|a r IH]; simpl; [lia|]. destruct (p a); simpl; lia. Qed.

Lemma collect_length self parse p clk k out k' :
  collect self parse p clk k = Some (out, k') -> (List.length out <= 1)%nat.
Proof.
  unfold collect. destruct p as [pg|].
  - intros E. apply bind_some in E as (g & k1 & _ & E). unfold ret in E.
    injection E as <- <-. destruct (is_relevant_grant self g); simpl; lia.
  - intros [= <- <-]. simpl. lia.
Qed.

Lemma scrape_foundation_section_length findall f sec clk k out k' :
  scrape_foundation_section findall f sec clk k = Some (out, k') ->
  (List.length out <= 1)%nat.
Proof.
  unfold scrape_foundation_section. destruct (section_heading sec).
  - cbv zeta. intros E. apply bind_some in E as (ds & k1 & _ & E).
    destruct (_ && _).
    + apply bind_some in E as (t & k2 & _ & E). injection E as <- <-. simpl. lia.
    + injection E as <- <-. simpl. lia.
  - intros [= <- <-]. simpl. lia.
Qed.

(** X5. One run collects at most 56 records: 6 of the static catalog,
    20 NIH pages, 15 NSF pages and 5 sections of each of the three
    foundations, however many links and sections the pages offer.  The
    merged snapshot therefore holds at most 56 records more than the
    one it started from. *)
Theorem run_collects_at_most_56 (w : world) (clk : nat -> datetime) (n : nat) :
  (exists l n', fresh w clk n = Some (l, n') /\ (List.length l <= 56)%nat) /\
  (forall out n', merged w clk n = Some (out, n') ->
     (List.length out <= List.length (w_existing w) + 56)%nat).
Proof.
  assert (Hfresh : forall k l k', fresh w clk k = Some (l, k') -> (List.length l <= 56)%nat).
  { intros k l k' E. unfold fresh in E. cbv zeta in E.
    apply bind_some in E as (st & k1 & Est & E).
    apply bind_some in E as (nih & k2 & Enih & E).
    apply bind_some in E as (nsf & k3 & Ensf & E).
    apply bind_some in E as (fnd & k4 & Efnd & E).
    injection E as <- <-.
    assert (Hst : (List.length st <= 6)%nat).
    { unfold scrape_static_opportunities in Est.
      apply bind_some in Est as (gs & k0 & Eseq & Est). injection Est as <- <-.
      apply sequence_length in Eseq. pose proof (filter_le_length (is_relevant_grant (init (w_env w))) gs).
      change (List.length static_grants) with 6%nat in Eseq. lia. }
    assert (Hnih : (List.length nih <= 20)%nat).
    { unfold scrape_nih_grants in Enih.
      apply (concatM_length _ 1) in Enih; [|intros a; apply collect_length].
      rewrite Nat.mul_1_l in Enih.
      eapply Nat.le_trans; [exact Enih | apply firstn_le_length]. }
    assert (Hnsf : (List.length nsf <= 15)%nat).
    { unfold scrape_nsf_grants in Ensf.
      apply (concatM_length _ 1) in Ensf.
      - rewrite Nat.mul_1_l in Ensf.
        eapply Nat.le_trans; [exact Ensf | apply firstn_le_length].
      - intros a k0 o k0'. destruct (is_nsf_grant_page (fst a)); [apply collect_length|].
        intros [= <- <-]. simpl. lia. }
    assert (Hfnd : (List.length fnd <= 15)%nat).
    { unfold scrape_foundation_grants in Efnd.
      apply (concatM_length _ 5) in Efnd.
      - assert (Hz : List.length (zip_pages foundations (w_foundations w)) = 3%nat).
        { unfold foundations. destruct (w_foundations w) as [|? [|? [|? ?]]]; reflexivity. }
        lia.
      - intros [f p] k0 o k0'. unfold scrape_foundation_page. cbn [fst snd].
        destruct p as [secs|]; [|intros [= <- <-]; simpl; lia].
        intros Ec. apply (concatM_length _ 1) in Ec;
          [|intros a; apply scrape_foundation_section_length].
        rewrite Nat.mul_1_l in Ec.
        eapply Nat.le_trans; [exact Ec | apply firstn_le_length]. }
    rewrite !length_app. lia. }
  split.
  - destruct (fresh_total w clk n) as (l & n' & E & _).
    exists l, n'. split; [exact E | eapply Hfresh, E].
  - intros out n' E. unfold merged in E.
    apply bind_some in E as (allg & k1 & Eall & E). injection E as <- <-.
    unfold collect_all in Eall.
    apply bind_some in Eall as (base & k2 & Eb & Eall).
    apply bind_some in Eall as (col & k3 & Ec & Eall). injection Eall as <- <-.
    destruct (merge_idempotent (base ++ col)) as [Hlen _].
    rewrite length_app in Hlen. specialize (Hfresh _ _ _ Ec).
    assert (Hbase : (List.length base <= List.length (w_existing w))%nat).
    { unfold load_baseline in Eb. destruct (negb _).
      - apply bind_some in Eb as (t & k4 & _ & Eb).
        apply bind_some in Eb as (wk & k5 & _ & Eb). injection Eb as <- <-.
        apply filter_le_length.
      - injection Eb as <- <-. simpl. lia. }
    lia.
Qed.

Lemma run_collects_at_most_56_witness :
  exists out n',
    merged (mk_world (fun _ => None) (fun _ _ _ => []) [] [] [] [])
           (fun _ => noon_2026_11_03) 0%nat = Some (out, n') /\
    (List.length out <= 56)%nat.
Proof.
  destruct (merged (mk_world (fun _ => None) (fun _ _ _ => []) [] [] [] [])
                   (fun _ => noon_2026_11_03) 0%nat) as [[out n']|] eqn:E.
  - exists out, n'. split; [reflexivity|].
    apply (proj2 (run_collects_at_most_56 _ _ _) out n' E).
  - vm_compute in E. discriminate.
Defined.

(** ** Dates that [strptime] returns *)

Lemma strptime_make c s t :
  strptime c s = Some t -> exists y m d, DateTime.make y m d = Some t.
Proof.
  unfold strptime.
  destruct (parse_month month_names s) as [[m s1]|]; [|discriminate]. cbn [bind_opt].
  destruct (skip_spaces1 s1) as [s2|]; [|discriminate]. cbn [bind_opt].
  destruct (parse_day s2) as [[d s3]|]; [|discriminate]. cbn [bind_opt].
  destruct (if c then _ else _) as [s4|]; [|discriminate]. cbn [bind_opt].
  destruct (skip_spaces1 s4) as [s5|]; [|discriminate]. cbn [bind_opt].
  destruct (parse_year_end s5) as [y|]; [|discriminate]. cbn [bind_opt].
  intros H. exists y, m, d. exact H.
Qed.

Lemma make_midnight y m d t :
  DateTime.make y m d = Some t -> t mod us_per_day = 0 /\ DateTime.min <= t.
Proof.
  intros H. pose proof (make_lower _ _ _ _ H) as Hlow.
  unfold DateTime.make in H.
  destruct (Z.leb_spec 1 y) as [Hy|]; [|discriminate].
  destruct (_ && _); [|discriminate]. injection H as <-.
  split; [apply Z.mod_mul; discriminate|].
  assert (Hus : 0 < us_per_day) by reflexivity.
  assert (Hd : 0 <= days_before_year y).
  { unfold days_before_year. cbv zeta. Z.div_mod_to_equations. lia. }
  unfold DateTime.min. nia.
Qed.

(** X6. No text is a date in both formats: what [strptime] accepts with
    the comma it rejects without, so the order in which the NIH profile
    tries the formats cannot change the date it keeps. *)
Theorem formats_exclude_each_other (s : string) (t : datetime) :
  strptime true s = Some t -> strptime false s = None.
Proof.
  unfold strptime.
  destruct (parse_month month_names s) as [[m s1]|]; [|discriminate]. cbn [bind_opt].
  destruct (skip_spaces1 s1) as [s2|]; [|discriminate]. cbn [bind_opt].
  destruct (parse_day s2) as [[d s3]|]; [|discriminate]. cbn [bind_opt].
  destruct s3 as [|c r]; [discriminate|].
  destruct (Ascii.eqb_spec c ","%char) as [->|N].
  - intros _. reflexivity.
  - destruct c as [[] [] [] [] [] [] [] []]; try discriminate; contradiction.
Qed.

Lemma formats_exclude_each_other_witness :
  strptime false "March 5, 2030" = None.
Proof.
  apply (formats_exclude_each_other "March 5, 2030" 64034496000000000). reflexivity.
Defined.

(** ** Deadlines and calendar days *)

Lemma midnight_after_reading t d :
  d mod us_per_day = 0 -> t < d -> t / us_per_day < d / us_per_day.
Proof.
  intros Hm Hlt. assert (Hus : 0 < us_per_day) by reflexivity.
  apply Z.div_lt_upper_bound; [exact Hus|].
  pose proof (Z.div_mod d us_per_day ltac:(lia)). lia.
Qed.

Lemma midnight_not_after_reading t d :
  d mod us_per_day = 0 -> d / us_per_day <= t / us_per_day -> d <= t.
Proof.
  intros Hm Hle. assert (Hus : 0 < us_per_day) by reflexivity.
  pose proof (Z.div_mod d us_per_day ltac:(lia)) as Hd.
  pose proof (Z.mul_div_le t us_per_day Hus). nia.
Qed.

Lemma keep_future_days d clk k out k' :
  d mod us_per_day = 0 ->
  keep_future d clk k = Some (out, k') ->
  (k <= k')%nat /\
  forall b, In b out ->
    exists i, (k <= i < k')%nat /\
              (b mod us_per_day = 0 /\ clk i / us_per_day < b / us_per_day).
Proof.
  intros Hm E. destruct (keep_future_reads _ _ _ _ _ E) as [L H].
  split; [exact L|]. intros b Hb. destruct (H b Hb) as (i & Hi & Hlt).
  assert (b = d).
  { unfold keep_future, bind, now, ret in E. injection E as <- _.
    destruct (clk k <? d); [destruct Hb as [<-|[]]; reflexivity | destruct Hb]. }
  subst b. exists i. split; [exact Hi|]. split; [exact Hm|].
  apply midnight_after_reading; assumption.
Qed.

Lemma strptime_midnight c s t : strptime c s = Some t -> t mod us_per_day = 0.
Proof.
  intros H. destruct (strptime_make _ _ _ H) as (y & m & d & Hmk).
  apply (make_midnight _ _ _ _ Hmk).
Qed.

Lemma nih_deadline_token_days m clk k out k' :
  nih_deadline_token m clk k = Some (out, k') ->
  (k <= k')%nat /\
  forall b, In b out ->
    exists i, (k <= i < k')%nat /\
              (b mod us_per_day = 0 /\ clk i / us_per_day < b / us_per_day).
Proof.
  unfold nih_deadline_token.
  destruct (strptime true (strip m)) as [d|] eqn:E1.
  { apply keep_future_days. eapply strptime_midnight, E1. }
  destruct (strptime false (strip m)) as [d|] eqn:E2.
  { apply keep_future_days. eapply strptime_midnight, E2. }
  intros [= <- <-]. split; [lia | intros b []].
Qed.

Lemma comma_deadline_token_days m clk k out k' :
  comma_deadline_token m clk k = Some (out, k') ->
  (k <= k')%nat /\
  forall b, In b out ->
    exists i, (k <= i < k')%nat /\
              (b mod us_per_day = 0 /\ clk i / us_per_day < b / us_per_day).
Proof.
  unfold comma_deadline_token.
  destruct (strptime true (strip m)) as [d|] eqn:E1.
  { apply keep_future_days. eapply strptime_midnight, E1. }
  intros [= <- <-]. split; [lia | intros b []].
Qed.

Lemma extract_deadlines_days findall token patterns text clk :
  (forall m k out k', token m clk k = Some (out, k') ->
     (k <= k')%nat /\
     forall b, In b out ->
       exists i, (k <= i < k')%nat /\
                 (b mod us_per_day = 0 /\ clk i / us_per_day < b / us_per_day)) ->
  forall k out k', extract_deadlines findall token patterns text clk k = Some (out, k') ->
     (k <= k')%nat /\
     forall b, In b out ->
       exists i, (k <= i < k')%nat /\
                 (b mod us_per_day = 0 /\ clk i / us_per_day < b / us_per_day).
Proof.
  intros Ht. unfold extract_deadlines.
  apply (concatM_reads _ (fun i b => b mod us_per_day = 0 /\
                                     clk i / us_per_day < b / us_per_day)).
  intros pattern.
  apply (concatM_reads _ (fun i b => b mod us_per_day = 0 /\
                                     clk i / us_per_day < b / us_per_day)).
  exact Ht.
Qed.

(** X7. A deadline that a page extractor keeps is the midnight that
    begins a calendar day, and that day is strictly after the day of
    the clock reading it was compared with: a deadline dated on the day
    of the run, or before, is dropped by every profile. *)
Theorem kept_deadlines_dated_after_today
        (findall : findall_fn) (clk : nat -> datetime) (n : nat) :
  (forall p, exists g ds n',
      parse_nih_grant_page findall p clk n = Some (g, n') /\ deadlines g = Some ds /\
      forall d, In d ds ->
        d mod us_per_day = 0 /\
        exists i, (n <= i < n')%nat /\ clk i / us_per_day < d / us_per_day) /\
  (forall p, exists g ds n',
      parse_nsf_grant_page findall p clk n = Some (g, n') /\ deadlines g = Some ds /\
      forall d, In d ds ->
        d mod us_per_day = 0 /\
        exists i, (n <= i < n')%nat /\ clk i / us_per_day < d / us_per_day) /\
  (forall f sec, exists gs n',
      scrape_foundation_section findall f sec clk n = Some (gs, n') /\
      forall g, In g gs -> exists ds, deadlines g = Some ds /\
        forall d, In d ds ->
          d mod us_per_day = 0 /\
          exists i, (n <= i < n')%nat /\ clk i / us_per_day < d / us_per_day) /\
  (forall (comma_format : bool) tok d k,
      strptime comma_format (strip tok) = Some d ->
      d / us_per_day <= clk k / us_per_day ->
      nih_deadline_token tok clk k = Some ([], S k) /\
      (comma_format = true -> comma_deadline_token tok clk k = Some ([], S k))).
Proof.
  split; [|split; [|split]].
  - intros p.
    destruct (parse_nih_grant_page_fields findall p clk n)
      as (g & ds & n1 & Ed & E & Hd & _).
    exists g, ds, (S n1). split; [exact E|]. split; [exact Hd|].
    destruct (extract_deadlines_days _ _ _ _ clk
                (fun m => nih_deadline_token_days m clk) _ _ _ Ed) as [L H].
    intros d Hin. destruct (H d Hin) as (i & Hi & Hm & Hlt).
    split; [exact Hm|]. exists i. split; [lia | exact Hlt].
  - intros p.
    destruct (parse_nsf_grant_page_fields findall p clk n)
      as (g & ds & n1 & Ed & E & Hd & _).
    exists g, ds, (S n1). split; [exact E|]. split; [exact Hd|].
    destruct (extract_deadlines_days _ _ _ _ clk
                (fun m => comma_deadline_token_days m clk) _ _ _ Ed) as [L H].
    intros d Hin. destruct (H d Hin) as (i & Hi & Hm & Hlt).
    split; [exact Hm|]. exists i. split; [lia | exact Hlt].
  - intros f sec.
    destruct (scrape_foundation_section_fields findall f sec clk n)
      as (gs & ds & n1 & n2 & L & E & Hg).
    exists gs, n2. split; [exact E|]. intros g Hin.
    destruct (Hg g Hin) as (Ed & Hd & _). exists ds. split; [exact Hd|].
    destruct (extract_deadlines_days _ _ _ _ clk
                (fun m => comma_deadline_token_days m clk) _ _ _ Ed) as [L' H].
    intros d Hind. destruct (H d Hind) as (i & Hi & Hm & Hlt).
    split; [exact Hm|]. exists i. split; [lia | exact Hlt].
  - intros c tok d k E Hday.
    pose proof (strptime_midnight _ _ _ E) as Hm.
    pose proof (midnight_not_after_reading _ _ Hm Hday) as Hle.
    assert (Hdrop : keep_future d clk k = Some ([], S k)).
    { unfold keep_future, bind, now, ret.
      destruct (Z.ltb_spec (clk k) d); [lia | reflexivity]. }
    split.
    + unfold nih_deadline_token. destruct c.
      * rewrite E. exact Hdrop.
      * destruct (strptime true (strip tok)) as [d'|] eqn:E'.
        -- rewrite (formats_exclude_each_other _ _ E') in E. discriminate.
        -- rewrite E. exact Hdrop.
    + intros ->. unfold comma_deadline_token. rewrite E. exact Hdrop.
Qed.

Lemma kept_deadlines_dated_after_today_witness :
  nih_deadline_token "November 3, 2026" (fun _ => noon_2026_11_03) 0%nat
  = Some ([], 1%nat).
Proof.
  destruct (kept_deadlines_dated_after_today (fun _ _ _ => [])
              (fun _ => noon_2026_11_03) 0%nat) as (_ & _ & _ & H).
  destruct (H true "November 3, 2026"%string 63929260800000000 0%nat) as [E _].
  - reflexivity.
  - vm_compute. discriminate.
  - exact E.
Defined.

(** ** The urgency of a record *)

Lemma calculate_urgency_nearest g d ds clk n :
  deadlines g = Some (d :: ds) ->
  calculate_urgency g clk n
  = Some ((let days_until := days_between (list_min d ds) (clk n) in
           if days_until <=? 30 then 5
           else if days_until <=? 90 then 4
           else if days_until <=? 180 then 3
           else if days_until <=? 365 then 2
           else 1), S n).
Proof. intros E. unfold calculate_urgency. rewrite E. reflexivity. Qed.

Lemma days_between_mono a b t : a <= b -> days_between a t <= days_between b t.
Proof.
  intros H. unfold days_between. apply Z.div_le_mono; [reflexivity | lia].
Qed.

(** X8. The tier follows the nearest deadline and nothing else.  A
    record with a deadline less than 31 days after the reading of the
    clock, a deadline already past included, is of tier 5.  If every
    deadline of one record is matched by a deadline of another that is
    not later, the other record is at least as urgent; in particular a
    record never becomes less urgent when it gains a deadline. *)
Theorem urgency_follows_nearest_deadline (clk : nat -> datetime) (n : nat) :
  (forall g ds d,
     deadlines g = Some ds -> In d ds -> d < clk n + 31 * us_per_day ->
     calculate_urgency g clk n = Some (5, S n)) /\
  (forall g1 g2 ds1 ds2,
     deadlines g1 = Some ds1 -> deadlines g2 = Some ds2 -> ds2 <> [] ->
     (forall d2, In d2 ds2 -> exists d1, In d1 ds1 /\ d1 <= d2) ->
     exists u1 u2,
       calculate_urgency g1 clk n = Some (u1, S n) /\
       calculate_urgency g2 clk n = Some (u2, S n) /\
       1 <= u2 /\ u2 <= u1 /\ u1 <= 5).
Proof.
  assert (Hus : 0 < us_per_day) by reflexivity.
  split.
  - intros g ds d E Hin Hlt. destruct ds as [|d0 ds0]; [destruct Hin|].
    rewrite (calculate_urgency_nearest _ _ _ _ _ E). cbv zeta.
    destruct (list_min_spec d0 ds0) as [_ Hmin]. specialize (Hmin d Hin).
    assert (Hdu : days_between (list_min d0 ds0) (clk n) <= 30).
    { unfold days_between.
      assert (H31 : (list_min d0 ds0 - clk n) / us_per_day < 31).
      { apply Z.div_lt_upper_bound; lia. }
      lia. }
    destruct (Z.leb_spec (days_between (list_min d0 ds0) (clk n)) 30); [reflexivity | lia].
  - intros g1 g2 ds1 ds2 E1 E2 Hne Hmatch.
    destruct ds2 as [|b bs]; [contradiction|].
    destruct (list_min_spec b bs) as [Hin2 _].
    destruct (Hmatch _ Hin2) as (d1 & Hd1 & Hle).
    destruct ds1 as [|a as_]; [destruct Hd1|].
    destruct (list_min_spec a as_) as [_ Hmin1]. specialize (Hmin1 d1 Hd1).
    rewrite (calculate_urgency_nearest _ _ _ _ _ E1),
            (calculate_urgency_nearest _ _ _ _ _ E2).
    cbv zeta.
    pose proof (days_between_mono (list_min a as_) (list_min b bs) (clk n) ltac:(lia)) as Hmono.
    set (x := days_between (list_min a as_) (clk n)) in *.
    set (y := days_between (list_min b bs) (clk n)) in *.
    eexists _, _. split; [reflexivity|]. split; [reflexivity|].
    destruct (Z.leb_spec x 30), (Z.leb_spec x 90), (Z.leb_spec x 180), (Z.leb_spec x 365),
             (Z.leb_spec y 30), (Z.leb_spec y 90), (Z.leb_spec y 180), (Z.leb_spec y 365);
      lia.
Qed.

Lemma urgency_follows_nearest_deadline_witness :
  calculate_urgency
    (mk_grant "a" "b" "" (Some [noon_2026_11_03 + us_per_day; noon_2025_01_01]) []
              None None "" None None)
    (fun _ => noon_2026_11_03) 0%nat = Some (5, 1%nat).
Proof.
  destruct (urgency_follows_nearest_deadline (fun _ => noon_2026_11_03) 0%nat) as [H _].
  apply (H _ [noon_2026_11_03 + us_per_day; noon_2025_01_01] noon_2025_01_01).
  - reflexivity.
  - right. left. reflexivity.
  - reflexivity.
Defined.

(** ** The recurrence generator on any list *)

Lemma concatM_forall {A B} (f : A -> M (list B)) (P : B -> Prop) (c : nat) clk l :
  (forall a k out k', f a clk k = Some (out, k') ->
     (k' <= k + c)%nat /\ Forall P out) ->
  forall k out k', concatM f l clk k = Some (out, k') ->
    (k' <= k + c * List.length l)%nat /\ Forall P out.
Proof.
  intros Hf. induction l as [|a r IH]; intros k out k' E; simpl in E.
  - injection E as <- <-. split; [lia | constructor].
  - apply bind_some in E as (bs & k1 & E1 & E).
    apply bind_some in E as (cs & k2 & E2 & E). injection E as <- <-.
    destruct (Hf _ _ _ _ E1) as [L1 F1]. destruct (IH _ _ _ E2) as [L2 F2].
    split; [simpl; lia | apply Forall_app; auto].
Qed.

Lemma recurring_deadline_shape y s clk k out k' :
  recurring_deadline y s clk k = Some (out, k') ->
  (List.length out <= 1)%nat /\ (k' <= k + 1)%nat /\
  Forall (fun d => d mod us_per_day = 0 /\ DateTime.min <= d) out.
Proof.
  unfold recurring_deadline.
  destruct (strptime false (s ++ " " ++ of_Z y)) as [d1|] eqn:E1.
  2:{ intros [= <- <-]. simpl. repeat split; try lia. constructor. }
  unfold bind, now.
  assert (H1 : d1 mod us_per_day = 0 /\ DateTime.min <= d1).
  { destruct (strptime_make _ _ _ E1) as (a & b & c & Hmk).
    eapply make_midnight, Hmk. }
  destruct (clk k <? d1).
  - intros [= <- <-]. simpl. repeat split; try lia; repeat constructor; apply H1.
  - destruct (strptime false (s ++ " " ++ of_Z (y + 1))) as [d2|] eqn:E2.
    + assert (H2 : d2 mod us_per_day = 0 /\ DateTime.min <= d2).
      { destruct (strptime_make _ _ _ E2) as (a & b & c & Hmk).
        eapply make_midnight, Hmk. }
      intros [= <- <-]. simpl. repeat split; try lia; repeat constructor; apply H2.
    + intros [= <- <-]. simpl. repeat split; try lia. constructor.
Qed.

Lemma concatM_steps {A B} (f : A -> M (list B)) clk l :
  (forall a k out k', f a clk k = Some (out, k') -> (k <= k')%nat) ->
  forall k out k', concatM f l clk k = Some (out, k') -> (k <= k')%nat.
Proof.
  intros Hf. induction l as [|a r IH]; intros k out k' E; simpl in E.
  - injection E as <- <-. lia.
  - apply bind_some in E as (bs & k1 & E1 & E).
    apply bind_some in E as (cs & k2 & E2 & E). injection E as <- <-.
    specialize (Hf _ _ _ _ E1). specialize (IH _ _ _ E2). lia.
Qed.

Lemma recurring_deadline_steps y s clk k out k' :
  recurring_deadline y s clk k = Some (out, k') -> (k <= k')%nat.
Proof.
  unfold recurring_deadline, bind, now.
  destruct (strptime false _); [|intros [= <- <-]; lia].
  destruct (_ <? _); [intros [= <- <-]; lia|].
  destruct (strptime false _); intros [= <- <-]; lia.
Qed.

(** X9. Whatever strings it is given, the recurrence generator raises
    nothing, yields at most one date per string, reads the clock at
    most once per string after the reading for the year, and every date
    it yields is the midnight of a valid calendar day. *)
Theorem recurring_deadlines_shape (l : list string) (clk : nat -> datetime) (n : nat) :
  exists out n',
    generate_recurring_deadlines l clk n = Some (out, n') /\
    (List.length out <= List.length l)%nat /\
    (S n <= n' <= S n + List.length l)%nat /\
    forall d, In d out -> d mod us_per_day = 0 /\ DateTime.min <= d.
Proof.
  destruct (generate_recurring_deadlines_total l clk n) as (out & n' & E & _).
  exists out, n'. split; [exact E|].
  unfold generate_recurring_deadlines, bind, now in E. cbv zeta in E.
  pose proof (concatM_length _ 1 clk l
                (fun a k o k' H => proj1 (recurring_deadline_shape _ a clk k o k' H))
                _ _ _ E) as Hlen.
  destruct (concatM_forall _ (fun d => d mod us_per_day = 0 /\ DateTime.min <= d) 1 clk l
              (fun a k o k' H => proj2 (recurring_deadline_shape _ a clk k o k' H))
              _ _ _ E) as [Hk HF].
  pose proof (concatM_steps _ clk l
                (fun a k o k' H => recurring_deadline_steps _ a clk k o k' H)
                _ _ _ E) as Hge.
  split; [lia|]. split; [lia|].
  intros d Hd. rewrite Forall_forall in HF. apply HF, Hd.
Qed.

(** ** Configuration and relevance *)

Lemma contains_empty x : contains EmptyString x = true.
Proof. destruct x; reflexivity. Qed.

Lemma split_comma_trailing u :
  exists ws, split_comma (u ++ ",") = ws ++ [EmptyString] /\ ws <> [].
Proof.
  induction u as [|c u (ws & E & Hne)]; simpl.
  - exists [EmptyString]. split; [reflexivity | discriminate].
  - destruct (Ascii.eqb c ","%char).
    + exists (EmptyString :: ws). rewrite E. split; [reflexivity | discriminate].
    + rewrite E. destruct ws as [|w ws']; [contradiction|].
      exists (String c w :: ws'). split; [reflexivity | discriminate].
Qed.

(** X10. When the configured list of research areas is empty, or ends
    in a comma, one of the areas is the empty text, which occurs in
    every text: the area test then accepts every record, and the
    relevance filter is the career test alone. *)
Theorem blank_research_area_accepts_all (env : environ) (v : string) :
  env "RESEARCH_AREAS"%string = Some v ->
  v = EmptyString \/ (exists u, v = (u ++ ",")%string) ->
  In EmptyString (research_areas (init env)) /\
  forall g, area_match (init env) g = true /\
            is_relevant_grant (init env) g = career_match (init env) g.
Proof.
  intros Henv Hv.
  assert (Hin : In EmptyString (research_areas (init env))).
  { unfold init, parse_research_areas, getenv. cbn [research_areas]. rewrite Henv.
    apply in_map_iff. exists EmptyString. split; [reflexivity|].
    destruct Hv as [->|[u ->]]; [left; reflexivity|].
    destruct (split_comma_trailing u) as (ws & -> & _).
    apply in_or_app. right. left. reflexivity. }
  split; [exact Hin|]. intros g.
  assert (Ha : area_match (init env) g = true).
  { unfold area_match. apply existsb_exists. exists EmptyString.
    split; [exact Hin | apply contains_empty]. }
  split; [exact Ha|]. unfold is_relevant_grant. rewrite Ha. reflexivity.
Qed.

Lemma blank_research_area_accepts_all_witness :
  is_relevant_grant
    (init (fun name => if String.eqb name "RESEARCH_AREAS" then Some "genetics,"%string
                       else None))
    (mk_grant "Bridge Engineering Award" "NSF" "" None [] None None "nsf" None None)
  = true.
Proof.
  destruct (blank_research_area_accepts_all
              (fun name => if String.eqb name "RESEARCH_AREAS" then Some "genetics,"%string
                           else None) "genetics,"%string) as [_ H].
  - reflexivity.
  - right. exists "genetics"%string. reflexivity.
  - destruct (H (mk_grant "Bridge Engineering Award" "NSF" "" None [] None None "nsf"
                          None None)) as [_ E].
    rewrite E. reflexivity.
Defined.

Lemma concatM_ext {A B} (f g : A -> M (list B)) clk l :
  (forall a k, f a clk k = g a clk k) ->
  forall k, concatM f l clk k = concatM g l clk k.
Proof.
  intros H. induction l as [|a r IH]; intros k; simpl; [reflexivity|].
  unfold bind. rewrite H. destruct (g a clk k) as [[bs k1]|]; [|reflexivity].
  rewrite IH. reflexivity.
Qed.

Lemma relevant_without_tags self g :
  eligibility g = None ->
  is_relevant_grant self g = area_match self g || neuro_match g.
Proof.
  intros E. unfold is_relevant_grant, career_match. rewrite E. apply andb_true_r.
Qed.

(** X11. The configured career stage has no part in the collection of
    NIH and NSF pages: their records carry no eligibility tags, so two
    configurations with the same research areas collect the same
    records from the same pages. *)
Theorem career_stage_ignored_for_pages
        (areas : list string) (stage1 stage2 : string) (findall : findall_fn)
        (clk : nat -> datetime) (n : nat) :
  (forall links,
     scrape_nih_grants (mk_tracker areas stage1) findall links clk n
     = scrape_nih_grants (mk_tracker areas stage2) findall links clk n) /\
  (forall links,
     scrape_nsf_grants (mk_tracker areas stage1) findall links clk n
     = scrape_nsf_grants (mk_tracker areas stage2) findall links clk n).
Proof.
  assert (Hnih : forall p k,
             collect (mk_tracker areas stage1) (parse_nih_grant_page findall) p clk k
             = collect (mk_tracker areas stage2) (parse_nih_grant_page findall) p clk k).
  { intros [pg|] k; [|reflexivity]. unfold collect, bind.
    destruct (parse_nih_grant_page_fields findall pg clk k)
      as (g & ds & n1 & _ & -> & _ & _ & _ & He).
    rewrite !(relevant_without_tags _ g He). reflexivity. }
  assert (Hnsf : forall p k,
             collect (mk_tracker areas stage1) (parse_nsf_grant_page findall) p clk k
             = collect (mk_tracker areas stage2) (parse_nsf_grant_page findall) p clk k).
  { intros [pg|] k; [|reflexivity]. unfold collect, bind.
    destruct (parse_nsf_grant_page_fields findall pg clk k)
      as (g & ds & n1 & _ & -> & _ & _ & _ & He).
    rewrite !(relevant_without_tags _ g He). reflexivity. }
  split; intros links.
  - unfold scrape_nih_grants. apply concatM_ext. intros a k. apply Hnih.
  - unfold scrape_nsf_grants. apply concatM_ext. intros a k.
    destruct (is_nsf_grant_page (fst a)); [apply Hnsf | reflexivity].
Qed.

(** ** The test for NSF pages *)

Lemma lower_app a b : lower (a ++ b) = (lower a ++ lower b)%string.
Proof. induction a as [|c a IH]; simpl; [reflexivity | rewrite IH; reflexivity]. Qed.

Lemma lower_app_inv u : forall p q,
  lower u = (p ++ q)%string ->
  exists u1 u2, u = (u1 ++ u2)%string /\ lower u1 = p /\ lower u2 = q.
Proof.
  induction u as [|c u IH]; intros p q E.
  - destruct p; [|discriminate]. simpl in E. subst q.
    exists EmptyString, EmptyString. auto.
  - destruct p as [|x p].
    + simpl in E. subst q. exists EmptyString, (String c u). auto.
    + simpl in E. injection E as <- E. destruct (IH _ _ E) as (u1 & u2 & -> & <- & <-).
      exists (String c u1), u2. auto.
Qed.

(** X12. [is_nsf_grant_page] accepts exactly the addresses that
    contain, in any case, one of the words [solicitation], [funding],
    [pubs] and [nsf.gov].  Every address of the NSF site contains the
    last one, so a link that resolves to an address under
    [https://www.nsf.gov] is never rejected. *)
Theorem nsf_page_test (url : string) :
  (is_nsf_grant_page url = true <->
   exists a x b,
     url = (a ++ x ++ b)%string /\
     In (lower x) ["solicitation"; "funding"; "pubs"; "nsf.gov"]%string) /\
  (forall rest, is_nsf_grant_page ("https://www.nsf.gov" ++ rest) = true).
Proof.
  assert (Hiff : forall u, is_nsf_grant_page u = true <->
            exists a x b, u = (a ++ x ++ b)%string /\
              In (lower x) ["solicitation"; "funding"; "pubs"; "nsf.gov"]%string).
  { intros u. unfold is_nsf_grant_page. rewrite existsb_exists. split.
    - intros (ind & Hin & Hc). apply contains_iff in Hc as (p & q & E).
      apply lower_app_inv in E as (a & r & -> & <- & E).
      apply lower_app_inv in E as (x & b & -> & <- & <-).
      exists a, x, b. split; [reflexivity | exact Hin].
    - intros (a & x & b & -> & Hin). exists (lower x). split; [exact Hin|].
      apply contains_iff. exists (lower a), (lower b).
      rewrite !lower_app. reflexivity. }
  split; [apply Hiff|]. intros rest. apply Hiff.
  exists "https://www."%string, "nsf.gov"%string, rest.
  split; [reflexivity|]. simpl. tauto.
Qed.

Lemma nsf_page_test_witness :
  is_nsf_grant_page "https://example.org/Funding/2026" = true.
Proof.
  apply (proj1 (nsf_page_test "https://example.org/Funding/2026")).
  exists "https://example.org/"%string, "Funding"%string, "/2026"%string.
  split; [reflexivity|]. right. left. reflexivity.
Defined.

(** ** The syndication feed *)






Lemma replace_char_app c t a b :
  replace_char c t (a ++ b) = (replace_char c t a ++ replace_char c t b)%string.
Proof.
  induction a as [|x a IH]; simpl; [reflexivity|].
  destruct (Ascii.eqb x c); rewrite IH; [rewrite str_app_assoc|]; reflexivity.
Qed.

Lemma chars_app a b : chars (a ++ b) = chars a ++ chars b.
Proof. induction a as [|x a IH]; simpl; [reflexivity | rewrite IH; reflexivity]. Qed.

Lemma xml_clean_cons c r : xml_clean (String c r) = (escape_char c ++ xml_clean r)%string.
Proof.
  unfold xml_clean, escape_char. cbn [replace_char].
  destruct (Ascii.eqb_spec c "&"%char) as [->|Na].
  - rewrite !replace_char_app. reflexivity.
  - cbn [replace_char]. destruct (Ascii.eqb_spec c "<"%char) as [->|Nl].
    + rewrite !replace_char_app. reflexivity.
    + cbn [replace_char]. destruct (Ascii.eqb_spec c ">"%char) as [->|Ng]; reflexivity.
Qed.

Lemma unescape_escape_char c r : unescape (escape_char c ++ r) = String c (unescape r).
Proof. destruct c as [[] [] [] [] [] [] [] []]; reflexivity. Qed.

Lemma escape_char_no_angle c x :
  In x (chars (escape_char c)) -> x <> "<"%char /\ x <> ">"%char.
Proof.
  destruct c as [[] [] [] [] [] [] [] []]; cbn; intros H;
    repeat (destruct H as [<-|H]; [split; discriminate|]); destruct H.
Qed.

(** X14. The three replacements that clean a title or a description
    for the feed act as one pass that escapes each character on its
    own: an ampersand written by a later replacement is never escaped
    again.  The cleaned text holds no angle bracket, and reading the
    three entities back gives the original text, so different texts
    stay different. *)
Theorem xml_clean_escapes (s : string) :
  xml_clean s = escape_each s /\
  (forall c, In c (chars (xml_clean s)) -> c <> "<"%char /\ c <> ">"%char) /\
  unescape (xml_clean s) = s /\
  (forall s', xml_clean s' = xml_clean s -> s' = s).
Proof.
  assert (Hone : forall x, xml_clean x = escape_each x).
  { induction x as [|c r IH]; [reflexivity|].
    rewrite xml_clean_cons, IH. reflexivity. }
  assert (Hback : forall x, unescape (xml_clean x) = x).
  { intros x. rewrite Hone. induction x as [|c r IH]; [reflexivity|].
    cbn [escape_each]. rewrite unescape_escape_char, IH. reflexivity. }
  split; [apply Hone|]. split; [|split; [apply Hback|]].
  - rewrite Hone. induction s as [|c r IH]; [intros x []|].
    intros x Hx. cbn [escape_each] in Hx. rewrite chars_app in Hx.
    apply in_app_or in Hx as [Hx|Hx]; [eapply escape_char_no_angle, Hx | apply IH, Hx].
  - intros s' E. rewrite <- (Hback s'), E. apply Hback.
Qed.

Lemma xml_clean_escapes_witness :
  xml_clean "AT&T <R&D>" = "AT&amp;T &lt;R&amp;D&gt;"%string /\
  ~ In "<"%char (chars (xml_clean "AT&T <R&D>")).
Proof.
  destruct (xml_clean_escapes "AT&T <R&D>"%string) as (E & H & _).
  split; [rewrite E; reflexivity|].
  intros F. apply H in F as [F _]. apply F. reflexivity.
Defined.

(** ** Descriptions *)

Lemma substring_length n : forall s, (String.length (substring 0 n s) <= n)%nat.
Proof.
  induction n as [|n IH]; intros s; destruct s as [|c s]; simpl; try lia.
  specialize (IH s). lia.
Qed.

Lemma lstrip_length s : (String.length (lstrip s) <= String.length s)%nat.
Proof.
  induction s as [|c s IH]; simpl; [lia|]. destruct (is_space c); simpl; lia.
Qed.

Lemma rstrip_length s : (String.length (rstrip s) <= String.length s)%nat.
Proof.
  induction s as [|c s IH]; simpl; [lia|].
  destruct (rstrip s) as [|x r]; [destruct (is_space c)|]; simpl in *; lia.
Qed.

Lemma strip_length s : (String.length (strip s) <= String.length s)%nat.
Proof.
  unfold strip. pose proof (rstrip_length (lstrip s)). pose proof (lstrip_length s). lia.
Qed.

(** X15. The description of an extracted record is bounded: at most
    500 characters for an NIH or an NSF page, at most 300 for a
    foundation section, whatever the length of the page. *)
Theorem descriptions_are_truncated (findall : findall_fn) (clk : nat -> datetime) (n : nat) :
  (forall p, exists g d n',
      parse_nih_grant_page findall p clk n = Some (g, n') /\
      description g = Some d /\ (String.length d <= 500)%nat) /\
  (forall p, exists g d n',
      parse_nsf_grant_page findall p clk n = Some (g, n') /\
      description g = Some d /\ (String.length d <= 500)%nat) /\
  (forall f sec, exists gs n',
      scrape_foundation_section findall f sec clk n = Some (gs, n') /\
      forall g, In g gs ->
        exists d, description g = Some d /\ (String.length d <= 300)%nat).
Proof.
  split; [|split].
  - intros p.
    destruct (extract_deadlines_total findall nih_deadline_token nih_deadline_patterns
                (page_text p) nih_deadline_token_total clk n) as (ds & n1 & E & _).
    eexists _, (nih_description p), (S n1).
    unfold parse_nih_grant_page. cbv zeta. unfold nih_deadlines.
    rewrite (bind_eq _ _ _ _ _ _ E). unfold bind, now, ret.
    split; [reflexivity|]. split; [reflexivity|].
    unfold nih_description, slice_to.
    destruct (page_meta p) as [c|].
    + destruct (substring 0 500 c) as [|x r] eqn:Es.
      * destruct (find _ _); [apply substring_length | simpl; lia].
      * rewrite <- Es. apply substring_length.
    + destruct (find _ _); [apply substring_length | simpl; lia].
  - intros p.
    destruct (extract_deadlines_total findall comma_deadline_token nsf_deadline_patterns
                (page_text p) comma_deadline_token_total clk n) as (ds & n1 & E & _).
    eexists _, _, (S n1).
    unfold parse_nsf_grant_page. cbv zeta. unfold nsf_deadlines.
    rewrite (bind_eq _ _ _ _ _ _ E). unfold bind, now, ret.
    split; [reflexivity|]. split; [reflexivity|].
    unfold slice_to. destruct (page_meta p); apply substring_length.
  - intros f sec.
    destruct (scrape_foundation_section_total findall f sec clk n) as (gs & n' & E & _).
    exists gs, n'. split; [exact E|].
    unfold scrape_foundation_section in E.
    destruct (section_heading sec); [|injection E as <- _; intros g []].
    cbv zeta in E. apply bind_some in E as (ds & k1 & _ & E).
    destruct (_ && _).
    + apply bind_some in E as (t & k2 & _ & E). injection E as <- _.
      intros g [<-|[]]. eexists. split; [reflexivity|].
      unfold slice_to.
      pose proof (strip_length (substring 0 300 (section_text sec))).
      pose proof (substring_length 300 (section_text sec)). lia.
    + injection E as <- _. intros g [].
Qed.

(** ** The identity key *)

Lemma is_space_lower c : is_space (lower_char c) = is_space c.
Proof. destruct c as [[] [] [] [] [] [] [] []]; reflexivity. Qed.

Lemma lower_char_idem c : lower_char (lower_char c) = lower_char c.
Proof. destruct c as [[] [] [] [] [] [] [] []]; reflexivity. Qed.

Lemma lower_idem s : lower (lower s) = lower s.
Proof.
  induction s as [|c s IH]; simpl; [reflexivity|].
  rewrite lower_char_idem, IH. reflexivity.
Qed.

Lemma all_space_lstrip ws : all_space ws = true -> lstrip ws = EmptyString.
Proof.
  induction ws as [|c ws IH]; simpl; [reflexivity|].
  rewrite andb_true_iff. intros [-> H]. apply IH, H.
Qed.

Lemma all_space_rstrip ws : all_space ws = true -> rstrip ws = EmptyString.
Proof.
  induction ws as [|c ws IH]; simpl; [reflexivity|].
  rewrite andb_true_iff. intros [-> H]. rewrite (IH H). reflexivity.
Qed.

Lemma rstrip_spaces t ws : all_space ws = true -> rstrip (t ++ ws) = rstrip t.
Proof.
  intros H. induction t as [|c t IH]; simpl.
  - apply all_space_rstrip, H.
  - rewrite IH. reflexivity.
Qed.

Lemma strip_padding ws1 t ws2 :
  all_space ws1 = true -> all_space ws2 = true ->
  strip (ws1 ++ t ++ ws2) = strip t.
Proof.
  intros H1 H2. unfold strip. rewrite (lstrip_spaces ws1 _ H1).
  induction t as [|c t IH]; simpl.
  - rewrite (all_space_lstrip _ H2). reflexivity.
  - destruct (is_space c); [exact IH|].
    change (String c (t ++ ws2)) with (String c t ++ ws2)%string.
    apply rstrip_spaces, H2.
Qed.

Lemma all_space_lower ws : all_space (lower ws) = all_space ws.
Proof.
  induction ws as [|c ws IH]; simpl; [reflexivity|].
  rewrite is_space_lower, IH. reflexivity.
Qed.

(** X16. The identity key sets aside the case of title and agency and
    the white space around the title: a record whose title is that of
    another one in another case and padded with white space, from the
    same agency in any case, has the same key, and the merge keeps only
    one of the two.  Records whose agencies differ when lower-cased are
    both kept, whatever their titles. *)
Theorem identity_key_normalises (g1 g2 : grant) :
  (forall ws1 t ws2,
     title g2 = (ws1 ++ t ++ ws2)%string ->
     all_space ws1 = true -> all_space ws2 = true ->
     lower t = lower (title g1) -> lower (agency g2) = lower (agency g1) ->
     identity_key g2 = identity_key g1 /\
     List.length (remove_duplicates [g1; g2]) = 1%nat) /\
  (lower (agency g1) <> lower (agency g2) ->
   remove_duplicates [g1; g2] = [g1; g2]).
Proof.
  split.
  - intros ws1 t ws2 Ht H1 H2 Hl Ha.
    assert (Hk : identity_key g2 = identity_key g1).
    { unfold identity_key. rewrite Ha, Ht, !lower_app.
      rewrite strip_padding by (rewrite all_space_lower; assumption).
      rewrite Hl. reflexivity. }
    split; [exact Hk|].
    rewrite (remove_duplicates_pair g1 g2 (eq_sym Hk)). reflexivity.
  - intros Hne. apply remove_duplicates_distinct. simpl.
    constructor; [|constructor; [intros [] | constructor]].
    intros [F|[]]. apply Hne. unfold identity_key in F. congruence.
Qed.

Lemma identity_key_normalises_witness :
  let g1 := mk_grant "NIH F32 Fellowship" "NIH" "" None [] None (Some 1) "" None None in
  let g2 := mk_grant "  nih f32 FELLOWSHIP " "nih" "" None [] None (Some 2) "" None None in
  let g3 := mk_grant "NIH F32 Fellowship" "NIH " "" None [] None (Some 2) "" None None in
  List.length (remove_duplicates [g1; g2]) = 1%nat /\
  remove_duplicates [g1; g3] = [g1; g3].
Proof.
  intros g1 g2 g3. split.
  - apply (proj1 (identity_key_normalises g1 g2) "  "%string "nih f32 FELLOWSHIP"%string
                 " "%string); reflexivity.
  - apply (proj2 (identity_key_normalises g1 g3)). discriminate.
Defined.

(** ** The run as a whole *)

Lemma total_steps {A} (m : M A) clk k a k' :
  total m -> m clk k = Some (a, k') -> (k <= k')%nat.
Proof.
  intros Ht E. destruct (Ht clk k) as (a0 & k0 & E0 & L). congruence.
Qed.

Lemma load_baseline_some env existing clk n :
  force_refresh env = true \/ 7 * us_per_day <= clk n <= DateTime.max ->
  exists baseline n1, load_baseline env existing clk n = Some (baseline, n1) /\ (n <= n1)%nat.
Proof.
  intros H. destruct (force_refresh env) eqn:Ef.
  - eexists _, _. split; [apply load_baseline_forced, Ef | lia].
  - destruct H as [|Hr]; [discriminate|].
    eexists _, _. split; [apply load_baseline_window; assumption | lia].
Qed.

(** X17. When the baseline can be loaded (the flag is set, or the clock
    is at least a week after [datetime.min]) the run reaches the
    classification: its records are those of the merge, in the same
    order, each with a tier between 0 and 5 that is 0 exactly for a
    record without deadlines, and their identity keys are still
    pairwise distinct. *)
Theorem run_output_classified (w : world) (clk : nat -> datetime) (n : nat) :
  force_refresh (w_env w) = true \/ 7 * us_per_day <= clk n <= DateTime.max ->
  exists gs n1 out n',
    merged w clk n = Some (gs, n1) /\
    run w clk n = Some (out, n') /\
    NoDup (map identity_key out) /\
    Forall2 (fun g c => exists u, c = set_urgency g u /\ 0 <= u <= 5 /\
                        (u = 0 <-> deadlines g = None \/ deadlines g = Some [])) gs out.
Proof.
  intros H.
  destruct (load_baseline_some (w_env w) (w_existing w) clk n H) as (base & k1 & Eb & _).
  destruct (fresh_total w clk k1) as (col & k2 & Ec & _).
  assert (Em : merged w clk n = Some (remove_duplicates (base ++ col), k2)).
  { unfold merged, collect_all, bind. rewrite Eb, Ec. reflexivity. }
  destruct (mapM_classify_fields (remove_duplicates (base ++ col)) clk k2)
    as (out & k3 & Eo & HF).
  exists (remove_duplicates (base ++ col)), k2, out, k3.
  split; [exact Em|]. split; [unfold run, bind; rewrite Em; exact Eo|].
  split; [|exact HF].
  assert (Hkeys : map identity_key out
                  = map identity_key (remove_duplicates (base ++ col))).
  { clear -HF. induction HF as [|g c gs cs (u & -> & _) _ IH]; [reflexivity|].
    simpl. rewrite IH. reflexivity. }
  rewrite Hkeys. apply remove_duplicates_spec.
Qed.

Lemma run_output_classified_witness :
  exists out n',
    run (mk_world (fun _ => None) (fun _ _ _ => []) [] [] [] [])
        (fun _ => noon_2026_11_03) 0%nat = Some (out, n') /\
    NoDup (map identity_key out).
Proof.
  destruct (run_output_classified
              (mk_world (fun _ => None) (fun _ _ _ => []) [] [] [] [])
              (fun _ => noon_2026_11_03) 0%nat)
    as (gs & n1 & out & n' & _ & E & ND & _).
  - right. split; vm_compute; discriminate.
  - exists out, n'. split; [exact E | exact ND].
Defined.

(** *** Time stamps *)

Lemma sequence_reads {A} (Q : nat -> A -> Prop) clk (l : list (M A)) :
  Forall (fun m => forall k a k', m clk k = Some (a, k') ->
                     exists i, (k <= i < k')%nat /\ Q i a) l ->
  forall k out k', sequence l clk k = Some (out, k') ->
    (k <= k')%nat /\ forall a, In a out -> exists i, (k <= i < k')%nat /\ Q i a.
Proof.
  induction 1 as [|m r Hm _ IH]; intros k out k' E; simpl in E.
  - injection E as <- <-. split; [lia | intros a []].
  - apply bind_some in E as (a & k1 & E1 & E).
    apply bind_some in E as (rest & k2 & E2 & E). injection E as <- <-.
    destruct (Hm _ _ _ E1) as (i & Hi & Hq). destruct (IH _ _ _ E2) as [L2 H2].
    split; [lia|]. intros b [<-|Hb].
    + exists i. split; [lia | exact Hq].
    + destruct (H2 b Hb) as (j & Hj & Hqj). exists j. split; [lia | exact Hqj].
Qed.

Lemma static_entry_stamp t a u ds am de el clk k g k' :
  total ds ->
  static_entry t a u ds am de el clk k = Some (g, k') ->
  exists i, (k <= i < k')%nat /\ last_updated g = Some (clk i).
Proof.
  intros Ht E. unfold static_entry in E.
  apply bind_some in E as (d & k1 & Ed & E).
  unfold bind, now, ret in E. injection E as <- <-.
  pose proof (total_steps _ _ _ _ _ Ht Ed).
  exists k1. split; [lia | reflexivity].
Qed.

Lemma static_grants_stamped clk :
  Forall (fun m => forall k g k', m clk k = Some (g, k') ->
                     exists i, (k <= i < k')%nat /\ last_updated g = Some (clk i))
         static_grants.
Proof.
  unfold static_grants.
  repeat constructor; intros k g k'; apply static_entry_stamp;
    try apply generate_recurring_deadlines_total;
    (apply total_bind; [|intros d; apply total_ret]);
    unfold literal_date; simpl; apply total_ret.
Qed.

Lemma collect_nih_stamp self findall p clk k out k' :
  collect self (parse_nih_grant_page findall) p clk k = Some (out, k') ->
  (k <= k')%nat /\
  forall g, In g out -> exists i, (k <= i < k')%nat /\ last_updated g = Some (clk i).
Proof.
  unfold collect. destruct p as [pg|]; [|intros [= <- <-]; split; [lia | intros g []]].
  destruct (parse_nih_grant_page_fields findall pg clk k)
    as (g & ds & n1 & Ed & E & _ & _ & Hl & _).
  destruct (extract_deadlines_reads _ _ _ _ clk
              (fun m => nih_deadline_token_reads m clk) _ _ _ Ed) as [L _].
  unfold bind. rewrite E. unfold ret. intros [= <- <-]. split; [lia|].
  intros x Hx. destruct (is_relevant_grant self g); [|destruct Hx].
  destruct Hx as [<-|[]]. exists n1. split; [lia | exact Hl].
Qed.

Lemma collect_nsf_stamp self findall p clk k out k' :
  collect self (parse_nsf_grant_page findall) p clk k = Some (out, k') ->
  (k <= k')%nat /\
  forall g, In g out -> exists i, (k <= i < k')%nat /\ last_updated g = Some (clk i).
Proof.
  unfold collect. destruct p as [pg|]; [|intros [= <- <-]; split; [lia | intros g []]].
  destruct (parse_nsf_grant_page_fields findall pg clk k)
    as (g & ds & n1 & Ed & E & _ & _ & Hl & _).
  destruct (extract_deadlines_reads _ _ _ _ clk
              (fun m => comma_deadline_token_reads m clk) _ _ _ Ed) as [L _].
  unfold bind. rewrite E. unfold ret. intros [= <- <-]. split; [lia|].
  intros x Hx. destruct (is_relevant_grant self g); [|destruct Hx].
  destruct Hx as [<-|[]]. exists n1. split; [lia | exact Hl].
Qed.

Lemma scrape_foundation_section_stamp findall f sec clk k out k' :
  scrape_foundation_section findall f sec clk k = Some (out, k') ->
  (k <= k')%nat /\
  forall g, In g out -> exists i, (k <= i < k')%nat /\ last_updated g = Some (clk i).
Proof.
  unfold scrape_foundation_section.
  destruct (section_heading sec); [|intros [= <- <-]; split; [lia | intros g []]].
  cbv zeta. intros E. apply bind_some in E as (ds & k1 & Ed & E).
  destruct (extract_deadlines_reads _ _ _ _ clk
              (fun m => comma_deadline_token_reads m clk) _ _ _ Ed) as [L _].
  destruct (_ && _).
  - unfold bind, now, ret in E. injection E as <- <-. split; [lia|].
    intros g [<-|[]]. exists k1. split; [lia | reflexivity].
  - injection E as <- <-. split; [lia | intros g []].
Qed.

(** X18. Every record that the collectors produce in a run carries as
    [last_updated] a reading of the clock made during that run.  A
    record of the merged output is therefore either such a record or a
    record of the snapshot, unchanged and last updated less than seven
    days before the run began: the merge never renews a time stamp. *)
Theorem fresh_records_stamped (w : world) (clk : nat -> datetime) (n : nat) :
  (exists l n',
     fresh w clk n = Some (l, n') /\
     forall g, In g l -> exists i, (n <= i < n')%nat /\ last_updated g = Some (clk i)) /\
  (forall out n', merged w clk n = Some (out, n') ->
     forall g, In g out ->
       (In g (w_existing w) /\ clk n - 7 * us_per_day < updated g) \/
       (exists i, (n <= i < n')%nat /\ last_updated g = Some (clk i))).
Proof.
  assert (Hfresh : forall k l k', fresh w clk k = Some (l, k') ->
            (k <= k')%nat /\
            forall g, In g l -> exists i, (k <= i < k')%nat /\ last_updated g = Some (clk i)).
  { intros k l k' E. unfold fresh in E. cbv zeta in E.
    apply bind_some in E as (st & k1 & Est & E).
    apply bind_some in E as (nih & k2 & Enih & E).
    apply bind_some in E as (nsf & k3 & Ensf & E).
    apply bind_some in E as (fnd & k4 & Efnd & E).
    injection E as <- <-.
    assert (Hst : (k <= k1)%nat /\ forall g, In g st ->
              exists i, (k <= i < k1)%nat /\ last_updated g = Some (clk i)).
    { unfold scrape_static_opportunities in Est.
      apply bind_some in Est as (gs & k0 & Eseq & Est). injection Est as <- <-.
      destruct (sequence_reads (fun i g => last_updated g = Some (clk i)) clk
                  static_grants (static_grants_stamped clk) _ _ _ Eseq) as [L H].
      split; [exact L|]. intros g Hg. apply filter_In in Hg as [Hg _]. apply H, Hg. }
    assert (Hnih : (k1 <= k2)%nat /\ forall g, In g nih ->
              exists i, (k1 <= i < k2)%nat /\ last_updated g = Some (clk i)).
    { unfold scrape_nih_grants in Enih.
      apply (concatM_reads _ (fun i g => last_updated g = Some (clk i)) clk _
               (fun a => collect_nih_stamp _ _ a clk) _ _ _ Enih). }
    assert (Hnsf : (k2 <= k3)%nat /\ forall g, In g nsf ->
              exists i, (k2 <= i < k3)%nat /\ last_updated g = Some (clk i)).
    { unfold scrape_nsf_grants in Ensf.
      refine (concatM_reads _ (fun i g => last_updated g = Some (clk i)) clk _ _ _ _ _ Ensf).
      intros a k0 o k0'. destruct (is_nsf_grant_page (fst a)); [apply collect_nsf_stamp|].
      intros [= <- <-]. split; [lia | intros g []]. }
    assert (Hfnd : (k3 <= k4)%nat /\ forall g, In g fnd ->
              exists i, (k3 <= i < k4)%nat /\ last_updated g = Some (clk i)).
    { unfold scrape_foundation_grants in Efnd.
      refine (concatM_reads _ (fun i g => last_updated g = Some (clk i)) clk _ _ _ _ _ Efnd).
      intros [f p] k0 o k0'. unfold scrape_foundation_page. cbn [fst snd].
      destruct p as [secs|]; [|intros [= <- <-]; split; [lia | intros g []]].
      apply (concatM_reads _ (fun i g => last_updated g = Some (clk i))).
      intros a. apply scrape_foundation_section_stamp. }
    destruct Hst as [L1 H1], Hnih as [L2 H2], Hnsf as [L3 H3], Hfnd as [L4 H4].
    split; [lia|]. intros g Hg.
    apply in_app_or in Hg as [Hg|Hg]; [destruct (H1 g Hg) as (i & Hi & Hq)|
    apply in_app_or in Hg as [Hg|Hg]; [destruct (H2 g Hg) as (i & Hi & Hq)|
    apply in_app_or in Hg as [Hg|Hg]; [destruct (H3 g Hg) as (i & Hi & Hq)|
                                       destruct (H4 g Hg) as (i & Hi & Hq)]]];
      exists i; (split; [lia | exact Hq]). }
  split.
  - destruct (fresh_total w clk n) as (l & n' & E & _).
    exists l, n'. split; [exact E | apply (Hfresh _ _ _ E)].
  - intros out n' E g Hg. unfold merged in E.
    apply bind_some in E as (allg & k1 & Eall & E). injection E as <- <-.
    unfold collect_all in Eall.
    apply bind_some in Eall as (base & k2 & Eb & Eall).
    apply bind_some in Eall as (col & k3 & Ec & Eall). injection Eall as <- <-.
    apply remove_duplicates_incl in Hg. apply in_app_or in Hg as [Hg|Hg].
    + left. destruct (load_baseline_sound _ _ _ _ _ _ Eb g Hg) as (Hin & _ & Hlt). auto.
    + right. destruct (Hfresh _ _ _ Ec) as [L H]. destruct (H g Hg) as (i & Hi & Hq).
      exists i. split; [|exact Hq].
      assert (n <= k2)%nat.
      { unfold load_baseline in Eb. destruct (negb _).
        - apply bind_some in Eb as (t & k4 & Et & Eb).
          apply bind_some in Eb as (wk & k5 & Ew & Eb). injection Eb as <- <-.
          unfold now in Et. injection Et as <- <-.
          unfold of_option in Ew. destruct (minus_days _ _); [|discriminate].
          unfold ret in Ew. injection Ew as <- <-. lia.
        - injection Eb as <- <-. lia. }
      lia.
Qed.

Lemma fresh_records_stamped_witness :
  exists out n',
    merged (mk_world (fun _ => None) (fun _ _ _ => []) [] [] [] [])
           (fun _ => noon_2026_11_03) 0%nat = Some (out, n') /\
    forall g, In g out -> last_updated g = Some noon_2026_11_03.
Proof.
  destruct (merged (mk_world (fun _ => None) (fun _ _ _ => []) [] [] [] [])
                   (fun _ => noon_2026_11_03) 0%nat) as [[out n']|] eqn:E.
  - exists out, n'. split; [reflexivity|]. intros g Hg.
    destruct (proj2 (fresh_records_stamped _ _ _) out n' E g Hg) as [[[] _]|(i & _ & Hq)].
    exact Hq.
  - vm_compute in E. discriminate.
Defined.

(** ** Amounts as text *)

(** *** What [int] accepts *)

Lemma digits_acc_chars s : forall acc b v,
  digits_acc acc b s = Some v ->
  forall c, In c (chars s) -> is_digit c = true \/ c = "_"%char.
Proof.
  induction s as [|a r IH]; intros acc b v H c Hc; [destruct Hc|].
  cbn [digits_acc] in H. destruct Hc as [<-|Hc].
  - destruct (is_digit a); [auto|].
    destruct (Ascii.eqb a "_") eqn:E; [|discriminate].
    apply Ascii.eqb_eq in E. auto.
  - destruct (is_digit a); [eapply IH; eassumption|].
    destruct (Ascii.eqb a "_" && b)%bool; [eapply IH; eassumption|discriminate].
Qed.

Lemma in_lstrip c s :
  In c (chars s) -> is_space c = false -> In c (chars (lstrip s)).
Proof.
  intros Hc Hs. induction s as [|a r IH]; [destruct Hc|].
  cbn [lstrip]. destruct (is_space a) eqn:E.
  - destruct Hc as [->|Hc]; [congruence|auto].
  - exact Hc.
Qed.

Lemma in_rstrip c s :
  In c (chars s) -> is_space c = false -> In c (chars (rstrip s)).
Proof.
  intros Hc Hs. induction s as [|a r IH]; [destruct Hc|].
  cbn [rstrip]. destruct Hc as [->|Hc].
  - destruct (rstrip r); [rewrite Hs|]; left; reflexivity.
  - specialize (IH Hc). destruct (rstrip r); [destruct IH|]. right. exact IH.
Qed.

Lemma in_remove_char c d s :
  In c (chars s) -> c <> d -> In c (chars (remove_char d s)).
Proof.
  intros Hc Hd. induction s as [|a r IH]; [destruct Hc|].
  cbn [remove_char]. destruct (Ascii.eqb a d) eqn:E.
  - apply Ascii.eqb_eq in E. destruct Hc as [->|Hc]; [congruence|auto].
  - destruct Hc as [->|Hc]; [left; reflexivity|right; auto].
Qed.

Lemma int_cases s :
  int s = digits_acc 0 false (strip s) \/
  exists a r, strip s = String a r /\ (a = "-"%char \/ a = "+"%char) /\
              (int s = digits_acc 0 false r \/ int s = option_map Z.opp (digits_acc 0 false r)).
Proof.
  unfold int. destruct (strip s) as [|a r]; [left; reflexivity|].
  destruct a as [[] [] [] [] [] [] [] []];
    first [ left; reflexivity
          | right; eexists _, _; split; [reflexivity|];
            split; [first [left; reflexivity|right; reflexivity]
                   |first [left; reflexivity|right; reflexivity]] ].
Qed.

Lemma int_chars s v c : int s = Some v -> In c (chars s) -> int_char c = true.
Proof.
  intros H Hc. unfold int_char.
  destruct (is_space c) eqn:Es; [rewrite orb_true_r; reflexivity|].
  assert (Hs : In c (chars (strip s))).
  { unfold strip. apply in_rstrip; [apply in_lstrip|]; assumption. }
  assert (D : forall r acc b w, digits_acc acc b r = Some w -> In c (chars r) ->
              (is_digit c || false || Ascii.eqb c "_" || Ascii.eqb c "+" || Ascii.eqb c "-")%bool = true).
  { intros r acc b w Hr Hin.
    destruct (digits_acc_chars _ _ _ _ Hr _ Hin) as [-> | ->]; reflexivity. }
  destruct (int_cases s) as [E|(a & r & E & Ha & Hi)].
  - rewrite E in H. eapply D; eassumption.
  - rewrite E in Hs. destruct Hs as [<-|Hs].
    + destruct Ha as [-> | ->]; rewrite orb_false_r; reflexivity.
    + destruct Hi as [Hi|Hi]; rewrite Hi in H.
      * eapply D; eassumption.
      * destruct (digits_acc 0 false r) as [w|] eqn:Er; [|discriminate].
        eapply D; eassumption.
Qed.

(** X19. An amount token that holds a character [int] does not read is
    dropped: a character that is no digit, no white space, no sign and
    no underscore, and that the cleaning leaves in (no comma, and no
    dollar sign where dollar signs are removed).  The first NIH and NSF
    pattern captures the cents of an amount, so an amount written with
    cents never reaches the record. *)
Theorem amount_token_unreadable_dropped
  (strip_dollar : bool) (lo hi : Z) (m : string) (c : ascii) :
  In c (chars m) ->
  int_char c = false ->
  c <> comma ->
  (strip_dollar = true -> c <> dollar) ->
  amount_token strip_dollar lo hi m = [].
Proof.
  intros Hc Hi Hcomma Hdollar. unfold amount_token. cbv zeta.
  match goal with |- match int ?x with _ => _ end = _ =>
    destruct (int x) as [v|] eqn:E; [|reflexivity];
    assert (Hx : In c (chars x)) end.
  { destruct strip_dollar.
    - apply in_remove_char; [apply in_remove_char; assumption|auto].
    - apply in_remove_char; assumption. }
  rewrite (int_chars _ _ _ E Hx) in Hi. discriminate.
Qed.

Lemma amount_token_unreadable_dropped_witness :
  amount_token true 1000 10000000 "50,000.00" = [] /\
  amount_token true 1000 10000000 "50,000" = [50000].
Proof.
  split.
  - apply (amount_token_unreadable_dropped true 1000 10000000 "50,000.00" "."%char).
    + simpl. tauto.
    + reflexivity.
    + discriminate.
    + discriminate.
  - reflexivity.
Defined.

(** *** What [str] writes *)

Lemma digits_acc_pos d : forall p,
  digits_acc (Z.pos p) true (NilEmpty.string_of_uint d) = Some (Z.pos (Pos.of_uint_acc d p)).
Proof.
  induction d; intros p; cbn [NilEmpty.string_of_uint Pos.of_uint_acc digits_acc];
    [reflexivity|..];
    match goal with |- context [is_digit ?c] => change (is_digit c) with true end;
    cbv iota;
    match goal with |- context [digit_val ?c] =>
      let v := eval vm_compute in (digit_val c) in change (digit_val c) with v end;
    rewrite <- IHd; f_equal; lia.
Qed.

Lemma digits_acc_uint d : forall b,
  b = true \/ d <> Decimal.Nil ->
  digits_acc 0 b (NilEmpty.string_of_uint d) = Some (Z.of_N (Pos.of_uint d)).
Proof.
  induction d; intros b Hb; cbn [NilEmpty.string_of_uint Pos.of_uint digits_acc];
    [destruct Hb as [->|Hb]; [reflexivity|congruence]|..];
    match goal with |- context [is_digit ?c] => change (is_digit c) with true end;
    cbv iota;
    match goal with |- context [digit_val ?c] =>
      let v := eval vm_compute in (digit_val c) in change (digit_val c) with v end;
    [apply IHd; auto|..];
    match goal with |- digits_acc ?a _ _ = _ =>
      let v := eval vm_compute in a in change a with v end;
    apply digits_acc_pos.
Qed.

Lemma uint_digits d c :
  In c (chars (NilEmpty.string_of_uint d)) -> is_digit c = true.
Proof.
  induction d; cbn [NilEmpty.string_of_uint chars]; intros H;
    [destruct H|..]; (destruct H as [<-|H]; [reflexivity|auto]).
Qed.

Lemma lstrip_id s : (forall c, In c (chars s) -> is_space c = false) -> lstrip s = s.
Proof.
  destruct s as [|a r]; [reflexivity|]. intros H. cbn [lstrip].
  rewrite (H a (or_introl eq_refl)). reflexivity.
Qed.

Lemma rstrip_id s : (forall c, In c (chars s) -> is_space c = false) -> rstrip s = s.
Proof.
  induction s as [|a r IH]; [reflexivity|]. intros H. cbn [rstrip].
  rewrite IH by (intros c Hc; apply H; right; exact Hc).
  destruct r; [|reflexivity]. rewrite (H a (or_introl eq_refl)). reflexivity.
Qed.

Lemma strip_id s : (forall c, In c (chars s) -> is_space c = false) -> strip s = s.
Proof. intros H. unfold strip. rewrite (lstrip_id _ H). apply rstrip_id, H. Qed.

Lemma int_digits s :
  (forall c, In c (chars s) -> is_digit c = true) -> int s = digits_acc 0 false s.
Proof.
  intros H. unfold int.
  rewrite strip_id by (intros c Hc; apply digit_not_space, H, Hc).
  destruct s as [|a r]; [reflexivity|].
  specialize (H a (or_introl eq_refl)).
  destruct a as [[] [] [] [] [] [] [] []]; first [reflexivity|discriminate H].
Qed.

Lemma of_Z_pos p : of_Z (Z.pos p) = NilEmpty.string_of_uint (Pos.to_uint p).
Proof.
  unfold of_Z. cbn [Z.to_int NilZero.string_of_int]. unfold NilZero.string_of_uint.
  pose proof (Unsigned.to_uint_nonnil p) as H.
  destruct (Pos.to_uint p); [congruence|reflexivity..].
Qed.

Lemma of_Z_neg p : of_Z (Z.neg p) = String "-" (of_Z (Z.pos p)).
Proof. reflexivity. Qed.

Lemma of_Z_digits n c : 0 <= n -> In c (chars (of_Z n)) -> is_digit c = true.
Proof.
  destruct n as [|p|p]; intros Hn H; [| |lia].
  - destruct H as [<-|[]]. reflexivity.
  - rewrite of_Z_pos in H. eapply uint_digits, H.
Qed.

Lemma int_of_Z_pos p : int (of_Z (Z.pos p)) = Some (Z.pos p).
Proof.
  rewrite int_digits by (intros c; apply of_Z_digits; lia).
  rewrite of_Z_pos, digits_acc_uint by (right; apply Unsigned.to_uint_nonnil).
  rewrite Unsigned.of_to. reflexivity.
Qed.

Lemma int_of_Z n : int (of_Z n) = Some n.
Proof.
  destruct n as [|p|p]; [reflexivity|apply int_of_Z_pos|].
  rewrite of_Z_neg. unfold int.
  rewrite strip_id.
  - pose proof (int_of_Z_pos p) as H.
    rewrite int_digits in H by (intros c; apply of_Z_digits; lia).
    rewrite H. reflexivity.
  - intros c [<-|Hc]; [reflexivity|].
    apply digit_not_space. eapply of_Z_digits; [|exact Hc]. lia.
Qed.

(** *** Thousands separators *)

Lemma remove_char_filter c s :
  remove_char c s =
  string_of_list_ascii (filter (fun d => negb (Ascii.eqb d c)) (list_ascii_of_string s)).
Proof.
  induction s as [|a r IH]; [reflexivity|].
  cbn [remove_char list_ascii_of_string filter].
  destruct (Ascii.eqb a c); cbn [negb]; [exact IH|].
  cbn [string_of_list_ascii]. rewrite IH. reflexivity.
Qed.

Lemma commas_rev_more a b c d r :
  commas_rev (a :: b :: c :: d :: r) = a :: b :: c :: ","%char :: commas_rev (d :: r).
Proof. reflexivity. Qed.

Lemma commas_rev_filter n : forall l,
  (List.length l <= n)%nat ->
  Forall (fun c => Ascii.eqb c comma = false) l ->
  filter (fun d => negb (Ascii.eqb d comma)) (commas_rev l) = l.
Proof.
  assert (K : forall l, Forall (fun c => Ascii.eqb c comma = false) l ->
                        filter (fun d => negb (Ascii.eqb d comma)) l = l).
  { induction l as [|a r IH]; intros H; [reflexivity|].
    inversion H as [|? ? Ha Hr]; subst. cbn [filter]. rewrite Ha. cbn [negb].
    rewrite IH by assumption. reflexivity. }
  induction n as [|n IH]; intros l Hl H.
  - destruct l; [reflexivity|simpl in Hl; lia].
  - destruct l as [|a [|b [|c [|d r]]]]; try (apply K; exact H).
    rewrite commas_rev_more.
    inversion H as [|? ? Ha H1]; subst. inversion H1 as [|? ? Hb H2]; subst.
    inversion H2 as [|? ? Hc H3]; subst.
    cbn [filter]. rewrite Ha, Hb, Hc. cbn [negb].
    change (Ascii.eqb ","%char comma) with true. cbn [negb].
    rewrite IH; [reflexivity| |exact H3].
    cbn [List.length] in *. lia.
Qed.

Lemma chars_list s : chars s = list_ascii_of_string s.
Proof. induction s as [|a r IH]; [reflexivity|]. cbn. rewrite IH. reflexivity. Qed.

Lemma remove_commas_grouped s :
  (forall c, In c (chars s) -> is_digit c = true) ->
  remove_char comma
    (string_of_list_ascii (rev (commas_rev (rev (list_ascii_of_string s))))) = s.
Proof.
  intros H. rewrite remove_char_filter, list_ascii_of_string_of_list_ascii, filter_rev.
  rewrite (commas_rev_filter _ _ (Nat.le_refl _)).
  - rewrite rev_involutive. apply string_of_list_ascii_of_string.
  - apply Forall_forall. intros c Hc. apply in_rev in Hc. rewrite <- chars_list in Hc.
    specialize (H c Hc). destruct (Ascii.eqb c comma) eqn:E; [|reflexivity].
    apply Ascii.eqb_eq in E. subst c. discriminate H.
Qed.

Lemma remove_commas_format n : remove_char comma (format_thousands n) = of_Z n.
Proof.
  unfold format_thousands. destruct n as [|p|p].
  - reflexivity.
  - change (Z.pos p <? 0) with false. cbv iota. cbn [String.append Z.abs].
    apply remove_commas_grouped. intros c. apply of_Z_digits. lia.
  - change (Z.neg p <? 0) with true. cbv iota. cbn [String.append Z.abs remove_char].
    change (Ascii.eqb "-"%char comma) with false. cbv iota.
    rewrite remove_commas_grouped by (intros c; apply of_Z_digits; lia).
    reflexivity.
Qed.

Lemma remove_char_absent c s : ~ In c (chars s) -> remove_char c s = s.
Proof.
  induction s as [|a r IH]; intros H; [reflexivity|]. cbn [remove_char].
  destruct (Ascii.eqb a c) eqn:E.
  - apply Ascii.eqb_eq in E. subst a. exfalso. apply H. left. reflexivity.
  - rewrite IH; [reflexivity|]. intros Hc. apply H. right. exact Hc.
Qed.

Lemma of_Z_no_dollar n : ~ In dollar (chars (of_Z n)).
Proof.
  assert (P : forall p, ~ In dollar (chars (of_Z (Z.pos p)))).
  { intros p H. apply of_Z_digits in H; [discriminate H|lia]. }
  destruct n as [|p|p].
  - intros [H|[]]. discriminate H.
  - apply P.
  - rewrite of_Z_neg. intros [H|H]; [discriminate H|]. exact (P p H).
Qed.

(** X20. A number the dashboard or the feed prints with thousands
    separators is read back by the amount loops as the same number,
    with or without the removal of dollar signs, when it lies in the
    range of the loop; removing the separators gives the plain decimal
    text of the number, and [int] of that text is the number. *)
Theorem printed_amount_reads_back (strip_dollar : bool) (lo hi n : Z) :
  remove_char comma (format_thousands n) = of_Z n /\
  int (of_Z n) = Some n /\
  (lo <= n <= hi -> amount_token strip_dollar lo hi (format_thousands n) = [n]).
Proof.
  split; [apply remove_commas_format|]. split; [apply int_of_Z|].
  intros Hn. unfold amount_token. cbv zeta. rewrite remove_commas_format.
  assert (E : (if strip_dollar then remove_char dollar (of_Z n) else of_Z n) = of_Z n).
  { destruct strip_dollar; [|reflexivity]. apply remove_char_absent, of_Z_no_dollar. }
  rewrite E, int_of_Z.
  destruct (Z.leb_spec lo n); [|lia]. destruct (Z.leb_spec n hi); [|lia]. reflexivity.
Qed.

Lemma printed_amount_reads_back_witness :
  format_thousands 1250000 = "1,250,000"%string /\
  amount_token true 1000 10000000 (format_thousands 1250000) = [1250000].
Proof.
  split; [reflexivity|].
  apply (printed_amount_reads_back true 1000 10000000 1250000). lia.
Defined.

(** *** The amount line of a card and of a feed item *)

Lemma list_max_spec a l :
  In (list_max a l) (a :: l) /\ forall x, In x (a :: l) -> x <= list_max a l.
Proof.
  unfold list_max. revert a. induction l as [|e r IH]; intros a; simpl.
  - split; [auto|]. intros x [->|[]]. lia.
  - destruct (IH (Z.max a e)) as [Hin Hle]. split.
    + destruct Hin as [E|Hin]; [|auto].
      rewrite <- E. destruct (Z.max_spec a e) as [[_ ->]|[_ ->]]; auto.
    + intros x [->|[->|Hx]].
      * specialize (Hle (Z.max x e) (or_introl eq_refl)). lia.
      * specialize (Hle (Z.max a x) (or_introl eq_refl)). lia.
      * apply Hle. right. exact Hx.
Qed.

(** X21. A record without amounts gets no amount line on its card and
    in its feed item.  Otherwise the card shows the smallest and the
    largest amount of the record, both with thousands separators: one
    figure when they are equal, which is when all amounts of the record
    are equal, and the range [$lo - $hi] otherwise; the feed item shows
    the same text after [Award: ]. *)
Theorem amount_line_range (g : grant) :
  (amounts g = [] -> amount_str g = EmptyString /\ amounts_text g = EmptyString) /\
  (amounts g <> [] ->
   exists lo hi,
     In lo (amounts g) /\ In hi (amounts g) /\
     (forall a, In a (amounts g) -> lo <= a <= hi) /\
     (lo = hi <-> forall a b, In a (amounts g) -> In b (amounts g) -> a = b) /\
     (lo = hi -> amount_str g = ("$" ++ format_thousands lo)%string) /\
     (lo < hi ->
      amount_str g =
      ("$" ++ format_thousands lo ++ " - $" ++ format_thousands hi)%string) /\
     amounts_text g = ("Award: " ++ amount_str g)%string).
Proof.
  unfold amount_str, amounts_text. destruct (amounts g) as [|a r].
  - split; [auto|]. intros H. congruence.
  - split; [discriminate|]. intros _. cbv zeta.
    destruct (list_min_spec a r) as [Hmin Hlo].
    destruct (list_max_spec a r) as [Hmax Hhi].
    exists (list_min a r), (list_max a r).
    split; [exact Hmin|]. split; [exact Hmax|].
    split; [intros x Hx; split; [apply Hlo|apply Hhi]; exact Hx|].
    split.
    { split.
      - intros E x y Hx Hy.
        pose proof (Hlo x Hx). pose proof (Hhi x Hx).
        pose proof (Hlo y Hy). pose proof (Hhi y Hy). lia.
      - intros H. apply H; assumption. }
    destruct (Z.eqb_spec (list_min a r) (list_max a r)) as [E|E].
    + split; [reflexivity|]. split; [lia|reflexivity].
    + split; [intros E'; contradiction|]. split; reflexivity.
Qed.

Lemma amount_line_range_witness :
  amount_str (mk_grant "R01" "NIH" "u" (Some []) [250000; 50000; 250000]
                       None None "federal" None None)
  = "$50,000 - $250,000"%string.
Proof.
  destruct (proj2 (amount_line_range
                     (mk_grant "R01" "NIH" "u" (Some []) [250000; 50000; 250000]
                               None None "federal" None None)))
    as (lo & hi & Hlo & Hhi & Hb & _ & _ & Hr & _).
  - discriminate.
  - assert (lo = 50000).
    { pose proof (Hb 50000 (or_intror (or_introl eq_refl))).
      simpl in Hlo. lia. }
    assert (hi = 250000).
    { pose proof (Hb 250000 (or_introl eq_refl)).
      simpl in Hhi. lia. }
    subst lo hi. rewrite Hr by lia. reflexivity.
Defined.
